(** * The conversation orchestration engine

    A shallow embedding of [LangGraphAgent] (app/core/langgraph/graph.py):
    the chat / tool_call state machine, the checkpoint lifecycle, the
    long-term-memory integration, the streaming pipeline and the response
    assembler.

    Python objects are records, dictionaries read by key are finite maps,
    exceptions are a result type, and the coroutines of the class are
    computations in a state-and-exception monad over the agent's fields,
    the MongoDB collections and a trace of the observable effects. *)

From stdpp Require Import base option list gmap strings.

(** ** Exceptions *)

Inductive exn :=
| KeyError (key : string)
| IndexError (msg : string)
| AttributeError (msg : string)
| ValueError (msg : string)
| GraphRecursionError (msg : string)
| Exception (msg : string).

(** [str(e)]: a [KeyError] prints the repr of its key. *)
Definition str_exn (e : exn) : string :=
  match e with
  | KeyError key => "'" +:+ key +:+ "'"
  | IndexError msg | AttributeError msg | ValueError msg
  | GraphRecursionError msg | Exception msg => msg
  end.

Inductive result (A : Type) :=
| Ok (a : A)
| Raised (e : exn).
Arguments Ok {A} a.
Arguments Raised {A} e.


(** ** Messages *)

(** The concrete message classes of langchain_core. *)
Inductive message_type := HumanMessage | AIMessage | ToolMessage | SystemMessage.

(** Message content is a string or a list of content blocks. *)
Inductive content_block :=
| TextBlock (text : string)
| OtherBlock (type : string) (data : string).

Inductive Content :=
| Str (s : string)
| Blocks (bs : list content_block).

Definition tool_args := list (string * string).

(** A tool call: the dict with keys "name", "args" and "id". *)
Record tool_call := {
  tc_name : string;
  tc_args : tool_args;
  tc_id : string
}.

Record BaseMessage := {
  type : message_type;
  content : Content;
  tool_calls : list tool_call;
  name : option string;
  tool_call_id : option string
}.

(** app.schemas.Message, and the dict [model_dump] makes of it. *)
Record Message := {
  role : string;
  text : string
}.

(** An element of the list [convert_to_openai_messages] returns. *)
Record openai_message := {
  oai_role : string;
  oai_content : Content;
  oai_tool_calls : list tool_call;
  oai_tool_call_id : option string
}.

Record GraphState := {
  messages : list BaseMessage;
  long_term_memory : string
}.

Inductive node := chat | tool_call_node | END.

#[global] Instance node_eq_dec : EqDecision node.
Proof. solve_decision. Defined.

(** [Command(update={"messages": ...}, goto=...)] *)
Record Command := {
  update : list BaseMessage;
  goto : node
}.

(** ** Settings *)

(** [settings.ENVIRONMENT]: the code only tells [Environment.PRODUCTION]
    from the other members, which are kept by their [value]. *)
Inductive Environment :=
| PRODUCTION
| OtherEnvironment (value : string).

Definition Environment_value (e : Environment) : string :=
  match e with
  | PRODUCTION => "production"
  | OtherEnvironment value => value
  end.

Definition is_production (e : Environment) : bool :=
  match e with PRODUCTION => true | OtherEnvironment _ => false end.

(** [config["metadata"]] *)
Record Metadata := {
  md_user_id : option string;
  md_session_id : string;
  md_environment : string;
  md_debug : bool
}.

(** ** Observable effects *)

Inductive level := info | warning | error | exception.

Inductive pyval :=
| VStr (s : string)
| VInt (n : nat)
| VBool (b : bool)
| VNone.

Definition VOpt (o : option string) : pyval :=
  match o with Some s => VStr s | None => VNone end.

Inductive event :=
| Log (lvl : level) (ev : string) (kw : list (string * pyval))
| Breadcrumb (session_id : string) (message_count : nat)
| SentryTransaction (txn : string)
| SentryContext (key : string) (session_id : string) (user_id : option string)
    (message_count : nat)
| LlmCall (sent : list Message)
| ToolInvoke (tool : string) (args : tool_args)
| MemorySearch (user_id : string) (query : string)
| CheckpointPut (thread_id : string) (values : GraphState)
| TaskCreated (user_id : option string) (history : list openai_message)
    (metadata : Metadata)
| Yield (token : Content).

(** ** The agent, the database and the monad of its coroutines *)

Record MongoDBSaver := { db_name : string }.

Record CompiledStateGraph := {
  checkpointer : option MongoDBSaver;
  graph_name : string
}.

Record AsyncMemory := { collection_name : string }.

(** The mutable fields of [LangGraphAgent]. *)
Record LangGraphAgent := {
  _graph : option CompiledStateGraph;
  _checkpointer : option MongoDBSaver;
  memory : option AsyncMemory
}.

(** The two collections [clear_chat_history] deletes from; a document is
    its [thread_id] and its payload. *)
Record Database := {
  checkpoints : list (string * GraphState);
  checkpoint_writes : list (string * list BaseMessage)
}.

Record world := {
  self : LangGraphAgent;
  db : Database;
  trace : list event
}.

Definition M (A : Type) : Type := world -> result A * world.

Definition ret {A} (a : A) : M A := fun w => (Ok a, w).

Definition raise {A} (e : exn) : M A := fun w => (Raised e, w).

Definition bind {A B} (m : M A) (k : A -> M B) : M B :=
  fun w =>
    match m w with
    | (Ok a, w') => k a w'
    | (Raised e, w') => (Raised e, w')
    end.

(** [try: m except Exception as e: handler e]; what [m] did before it
    raised is not undone. *)
Definition try_except {A} (m : M A) (handler : exn -> M A) : M A :=
  fun w =>
    match m w with
    | (Ok a, w') => (Ok a, w')
    | (Raised e, w') => handler e w'
    end.

Definition lift {A} (r : result A) : M A := fun w => (r, w).

Definition emit (ev : event) : M unit :=
  fun w => (Ok tt, {| self := self w; db := db w; trace := trace w ++ [ev] |}).

Definition get_self : M LangGraphAgent := fun w => (Ok (self w), w).

Definition set_self (s : LangGraphAgent) : M unit :=
  fun w => (Ok tt, {| self := s; db := db w; trace := trace w |}).

Definition get_db : M Database := fun w => (Ok (db w), w).

Definition set_db (b : Database) : M unit :=
  fun w => (Ok tt, {| self := self w; db := b; trace := trace w |}).

Declare Scope agent_scope.
Delimit Scope agent_scope with agent.
Notation "x <- m ;; k" := (bind m (fun x => k))
  (at level 100, m at next level, right associativity) : agent_scope.
Notation "m ;; k" := (bind m (fun _ => k))
  (at level 100, right associativity) : agent_scope.
Local Open Scope agent_scope.

(** ** Collaborators

    What the class imports and what it talks to: the settings, the tools,
    the inference client, the memory service, the MongoDB driver and the
    helpers of app.utils and app.core.prompts.  They are taken as they are
    used; none of them is under [app/core/langgraph/graph.py]. *)

Record ToolRun := {
  latency : nat;
  outcome : result string
}.

(** A tool of app.core.langgraph.tools: [tool.name] and [tool.ainvoke]. *)
Record Tool := {
  tool_name : string;
  ainvoke : tool_args -> ToolRun
}.

(** The dict a memory search returns, and each entry of its "results". *)
Abbreviation memory_hit := (gmap string string).
Abbreviation search_results := (gmap string (list (gmap string string))).

Record collaborators := {
  ENVIRONMENT : Environment;
  DEBUG : bool;
  PROJECT_NAME : string;
  MONGODB_DB_NAME : string;
  LONG_TERM_MEMORY_COLLECTION_NAME : string;
  (** [MongoClient(...)] followed by [MongoDBSaver(client, ...)] *)
  MongoDBSaver_init : result MongoDBSaver;
  (** [AsyncMemory.from_config] and [memory.search] *)
  AsyncMemory_from_config : result AsyncMemory;
  memory_search : string -> string -> result search_results;
  (** [llm_service.call] *)
  llm_service_call : list Message -> result BaseMessage;
  tools : list Tool;
  load_system_prompt : string -> string;
  prepare_messages : list BaseMessage -> string -> list Message;
  process_llm_response : BaseMessage -> BaseMessage;
  (** the message chunks the runtime's "messages" stream emits for one
      answer of the inference client *)
  stream_chunks : BaseMessage -> list BaseMessage;
  (** the runtime's bound on the number of steps of one run *)
  recursion_limit : nat;
  (** [str] of a dict content block *)
  repr_block : content_block -> string
}.

(** ** [result] as a monad, for the comprehensions that can raise *)

#[global] Instance result_ret : MRet result := fun _ a => Ok a.
#[global] Instance result_bind : MBind result := fun _ _ f r =>
  match r with Ok a => f a | Raised e => Raised e end.
#[global] Instance result_fmap : FMap result := fun _ _ f r =>
  match r with Ok a => Ok (f a) | Raised e => Raised e end.

(** [d[key]] on a dict *)
Definition getitem {V} (d : gmap string V) (key : string) : result V :=
  match d !! key with
  | Some v => Ok v
  | None => Raised (KeyError key)
  end.

(** [l[-1]] on a list *)
Definition getitem_last {A} (l : list A) : result A :=
  match last l with
  | Some a => Ok a
  | None => Raised (IndexError "list index out of range")
  end.

(** [m.tool_calls]: only an [AIMessage] has the attribute. *)
Definition getattr_tool_calls (m : BaseMessage) : result (list tool_call) :=
  match type m with
  | AIMessage => Ok (tool_calls m)
  | _ => Raised (AttributeError "object has no attribute 'tool_calls'")
  end.

Definition newline : string := String (Ascii.ascii_of_nat 10) EmptyString.

(** [str(user_id)] for an optional user id *)
Definition str_opt (o : option string) : string :=
  match o with Some s => s | None => "None" end.

(** ** langchain_core: [convert_to_openai_messages]

    With the default [text_format="string"]: string content is kept,
    content blocks that are all text are joined with a newline, other
    block lists are left as blocks. *)

Definition openai_role (t : message_type) : string :=
  match t with
  | HumanMessage => "user"
  | AIMessage => "assistant"
  | ToolMessage => "tool"
  | SystemMessage => "system"
  end.

Definition block_text (b : content_block) : option string :=
  match b with
  | TextBlock text => Some text
  | OtherBlock _ _ => None
  end.

Definition openai_content (c : Content) : Content :=
  match c with
  | Str s => Str s
  | Blocks bs =>
      match mapM block_text bs with
      | Some texts => Str (String.concat newline texts)
      | None => Blocks bs
      end
  end.

Definition convert_to_openai_message (m : BaseMessage) : openai_message :=
  {| oai_role := openai_role (type m);
     oai_content := openai_content (content m);
     oai_tool_calls := tool_calls m;
     oai_tool_call_id := tool_call_id m |}.

Definition convert_to_openai_messages (ms : list BaseMessage) : list openai_message :=
  map convert_to_openai_message ms.

(** Truth value of a content: the empty string and the empty list are false. *)
Definition truthy (c : Content) : bool :=
  match c with
  | Str "" => false
  | Str _ => true
  | Blocks [] => false
  | Blocks _ => true
  end.

(** ** langgraph: the message reducer and the coercion of input dicts

    Modelled from the spec: [GraphState] of app.schemas is absent; its
    message sequence is append-only within a turn (section 3), so the
    reducer appends. *)
Definition add_messages (left right : list BaseMessage) : list BaseMessage :=
  left ++ right.

Definition apply_update (st : GraphState) (c : Command) : GraphState :=
  {| messages := add_messages (messages st) (update c);
     long_term_memory := long_term_memory st |}.

Definition message_type_of_role (r : string) : result message_type :=
  if bool_decide (r ∈ ["user"; "human"]) then Ok HumanMessage
  else if bool_decide (r ∈ ["assistant"; "ai"]) then Ok AIMessage
  else if bool_decide (r ∈ ["system"; "developer"]) then Ok SystemMessage
  else Raised (ValueError ("Unexpected message type: " +:+ r)).

Definition message_of_dict (m : Message) : result BaseMessage :=
  t ← message_type_of_role (role m);
  mret {| type := t; content := Str (text m); tool_calls := [];
          name := None; tool_call_id := None |}.

(** Modelled from the spec: [dump_messages] of app.utils is absent; a
    [Message] is handed on as its role/content pair (section 4.3, "a
    normalized role/content form"). *)
Definition dump_messages (ms : list Message) : list Message := ms.

(** ** The checkpoint store behind [MongoDBSaver]

    Modelled from the spec: the saver's code is not part of the
    repository; section 6 gives it [latest], [append] and [delete_all]
    over the two collections. *)

Definition in_thread {A} (thread_id : string) (doc : string * A) : bool :=
  String.eqb doc.1 thread_id.

Definition latest (thread_id : string) (database : Database) : option GraphState :=
  snd <$> last (List.filter (in_thread thread_id) (checkpoints database)).

Definition append_checkpoint (thread_id : string) (values : GraphState)
    (written : list BaseMessage) (database : Database) : Database :=
  {| checkpoints := checkpoints database ++ [(thread_id, values)];
     checkpoint_writes := checkpoint_writes database ++ [(thread_id, written)] |}.

(** [collection.delete_many({"thread_id": session_id})]: what is left, and
    [deleted_count]. *)
Definition delete_many {A} (thread_id : string) (coll : list (string * A))
    : list (string * A) * nat :=
  (List.filter (fun doc => negb (in_thread thread_id doc)) coll,
   length (List.filter (in_thread thread_id) coll)).

(** ** The methods of [LangGraphAgent] *)

Definition set_graph (s : LangGraphAgent) (g : option CompiledStateGraph) : LangGraphAgent :=
  {| _graph := g; _checkpointer := _checkpointer s; memory := memory s |}.

Definition set_checkpointer (s : LangGraphAgent) (c : option MongoDBSaver) : LangGraphAgent :=
  {| _graph := _graph s; _checkpointer := c; memory := memory s |}.

Definition set_memory (s : LangGraphAgent) (m : option AsyncMemory) : LangGraphAgent :=
  {| _graph := _graph s; _checkpointer := _checkpointer s; memory := m |}.

(** [RunnableConfig]: the thread id and the metadata. *)
Record RunnableConfig := {
  thread_id : string;
  metadata : Metadata
}.

(** An item of [astream(..., stream_mode="messages")]: the message chunk
    and, from its metadata, the node and the step that produced it. *)
Record stream_item := {
  token : BaseMessage;
  langgraph_node : node;
  langgraph_step : nat
}.

Section Agent.

Context (d : collaborators).

(** [self.tools_by_name = {tool.name: tool for tool in tools}]: of two
    tools with one name the later one stays. *)
Definition tools_by_name : gmap string Tool :=
  foldl (fun m tool => <[tool_name tool := tool]> m) ∅ (tools d).

Definition _long_term_memory : M AsyncMemory :=
  s <- get_self ;;
  match memory s with
  | None =>
      m <- lift (AsyncMemory_from_config d) ;;
      set_self (set_memory s (Some m)) ;;
      ret m
  | Some m => ret m
  end.

Definition _get_checkpointer : M (option MongoDBSaver) :=
  s <- get_self ;;
  match _checkpointer s with
  | None =>
      try_except
        (saver <- lift (MongoDBSaver_init d) ;;
         set_self (set_checkpointer s (Some saver)) ;;
         emit (Log info "mongodb_checkpointer_created"
                 [("mongodb_db_name", VStr (MONGODB_DB_NAME d));
                  ("environment", VStr (Environment_value (ENVIRONMENT d)))]) ;;
         s' <- get_self ;;
         ret (_checkpointer s'))
        (fun e =>
           emit (Log error "mongodb_checkpointer_creation_failed"
                   [("error", VStr (str_exn e));
                    ("environment", VStr (Environment_value (ENVIRONMENT d)))]) ;;
           if is_production (ENVIRONMENT d) then
             emit (Log warning "continuing_without_checkpointer"
                     [("environment", VStr (Environment_value (ENVIRONMENT d)))]) ;;
             ret None
           else raise e)
  | Some saver => ret (Some saver)
  end.

(** ["\n".join([f"* {result['memory']}" for result in results["results"]])] *)
Definition render_memory (results : search_results) : result string :=
  hits ← getitem results "results";
  lines ← mapM (fun hit : memory_hit => fact ← getitem hit "memory"; mret ("* " +:+ fact)) hits;
  mret (String.concat newline lines).

Definition _get_relevant_memory (user_id : option string) (query : string) : M string :=
  try_except
    (_ <- _long_term_memory ;;
     emit (MemorySearch (str_opt user_id) query) ;;
     results <- lift (memory_search d (str_opt user_id) query) ;;
     lift (render_memory results))
    (fun e =>
       emit (Log error "failed_to_get_relevant_memory"
               [("error", VStr (str_exn e)); ("user_id", VOpt user_id);
                ("query", VStr query)]) ;;
       ret "").

Definition _chat (state : GraphState) (config : RunnableConfig) : M Command :=
  let session_id := thread_id config in
  emit (Breadcrumb session_id (length (messages state))) ;;
  let SYSTEM_PROMPT := load_system_prompt d (long_term_memory state) in
  let prepared := prepare_messages d (messages state) SYSTEM_PROMPT in
  try_except
    (emit (LlmCall (dump_messages prepared)) ;;
     response_message <- lift (llm_service_call d (dump_messages prepared)) ;;
     let response_message := process_llm_response d response_message in
     emit (Log info "llm_response_generated"
             [("session_id", VStr session_id);
              ("environment", VStr (Environment_value (ENVIRONMENT d)))]) ;;
     calls <- lift (getattr_tool_calls response_message) ;;
     let goto := match calls with [] => END | _ :: _ => tool_call_node end in
     ret {| update := [response_message]; goto := goto |})
    (fun e =>
       emit (Log error "llm_call_failed_all_models"
               [("session_id", VStr session_id); ("error", VStr (str_exn e));
                ("environment", VStr (Environment_value (ENVIRONMENT d)))]) ;;
       raise (Exception ("failed to get llm response after trying all models: "
                         +:+ str_exn e))).

(** The body of the loop of [_tool_call], over the calls that are left. *)
Fixpoint tool_call_loop (calls : list tool_call) (outputs : list BaseMessage)
    : M (list BaseMessage) :=
  match calls with
  | [] => ret outputs
  | call :: rest =>
      tool <- lift (getitem tools_by_name (tc_name call)) ;;
      emit (ToolInvoke (tc_name call) (tc_args call)) ;;
      tool_result <- lift (outcome (ainvoke tool (tc_args call))) ;;
      tool_call_loop rest
        (outputs ++ [{| type := ToolMessage;
                        content := Str tool_result;
                        tool_calls := [];
                        name := Some (tc_name call);
                        tool_call_id := Some (tc_id call) |}])
  end.

Definition _tool_call (state : GraphState) : M Command :=
  last_message <- lift (getitem_last (messages state)) ;;
  calls <- lift (getattr_tool_calls last_message) ;;
  outputs <- tool_call_loop calls [] ;;
  ret {| update := outputs; goto := chat |}.

Definition create_graph : M (option CompiledStateGraph) :=
  s <- get_self ;;
  match _graph s with
  | None =>
      try_except
        (saver <- _get_checkpointer ;;
         (if bool_decide (saver = None) && negb (is_production (ENVIRONMENT d))
          then raise (Exception "MongoDB checkpointer initialization failed")
          else ret tt) ;;
         s' <- get_self ;;
         set_self (set_graph s'
           (Some {| checkpointer := saver;
                    graph_name := PROJECT_NAME d +:+ " Agent (" +:+
                                  Environment_value (ENVIRONMENT d) +:+ ")" |})) ;;
         emit (Log info "graph_created"
                 [("graph_name", VStr (PROJECT_NAME d +:+ " Agent"));
                  ("environment", VStr (Environment_value (ENVIRONMENT d)));
                  ("has_checkpointer", VBool (bool_decide (saver <> None)))]) ;;
         s'' <- get_self ;;
         ret (_graph s''))
        (fun e =>
           emit (Log error "graph_creation_failed"
                   [("error", VStr (str_exn e));
                    ("environment", VStr (Environment_value (ENVIRONMENT d)))]) ;;
           if is_production (ENVIRONMENT d) then
             emit (Log warning "continuing_without_graph" []) ;;
             ret None
           else raise e)
  | Some g => ret (Some g)
  end.

(** *** The compiled graph

    The graph [create_graph] builds has the nodes "chat" and "tool_call",
    entry and finish point "chat"; each node answers with a [Command].  The
    runtime that executes it is langgraph's, not the repository's: it is
    modelled as the spec describes it (sections 4.1, 4.2 and 4.4) - load
    the latest state of the thread, add the input, run node after node
    until [END], commit the resulting state - with the step bound and the
    "messages" stream of the library. *)

(** The items of the "messages" stream for one finished node. *)
Definition items_of (n : node) (step : nat) (c : Command) : list stream_item :=
  let emitted :=
    match n with
    | chat => flat_map (stream_chunks d) (update c)
    | tool_call_node => update c
    | END => []
    end in
  map (fun m => {| token := m; langgraph_node := n; langgraph_step := step |}) emitted.

Fixpoint for_each {A} (body : A -> M unit) (l : list A) : M unit :=
  match l with
  | [] => ret tt
  | a :: rest => body a ;; for_each body rest
  end.

(** The node functions [create_graph] registers under "chat" and
    "tool_call". *)
Definition run_node (config : RunnableConfig) (n : node) (state : GraphState)
    : M Command :=
  match n with
  | chat => _chat state config
  | tool_call_node => _tool_call state
  | END => ret {| update := []; goto := END |}
  end.

(** One step of the state machine: run the node, hand its stream items to
    the consumer, apply its update and follow its [goto]. *)
Definition superstep (config : RunnableConfig) (body : stream_item -> M unit)
    (step : nat) (n : node) (state : GraphState) : M (node * GraphState) :=
  command <- run_node config n state ;;
  for_each body (items_of n step command) ;;
  ret (goto command, apply_update state command).

Fixpoint pregel_loop (config : RunnableConfig) (body : stream_item -> M unit)
    (fuel step : nat) (n : node) (state : GraphState) : M GraphState :=
  match n with
  | END => ret state
  | _ =>
      match fuel with
      | 0 => raise (GraphRecursionError "Recursion limit reached")
      | S fuel' =>
          next <- superstep config body step n state ;;
          pregel_loop config body fuel' (S step) next.1 next.2
      end
  end.

(** The run of one turn: [body] is applied to every stream item as it is
    produced ([ainvoke] has none to apply). *)
Definition run_turn (g : CompiledStateGraph) (input : list Message)
    (relevant_memory : string) (config : RunnableConfig)
    (body : stream_item -> M unit) : M GraphState :=
  database <- get_db ;;
  let saved :=
    match checkpointer g with
    | Some _ => from_option messages [] (latest (thread_id config) database)
    | None => []
    end in
  new_messages <- lift (mapM message_of_dict input) ;;
  let state := {| messages := add_messages saved new_messages;
                  long_term_memory := relevant_memory |} in
  final <- pregel_loop config body (recursion_limit d) 1 chat state ;;
  match checkpointer g with
  | Some _ =>
      database' <- get_db ;;
      set_db (append_checkpoint (thread_id config) final
                (drop (length saved) (messages final)) database') ;;
      emit (CheckpointPut (thread_id config) final)
  | None => ret tt
  end ;;
  ret final.

Definition ainvoke_graph (g : CompiledStateGraph) (input : list Message)
    (relevant_memory : string) (config : RunnableConfig) : M GraphState :=
  run_turn g input relevant_memory config (fun _ => ret tt).

Definition astream (g : CompiledStateGraph) (input : list Message)
    (relevant_memory : string) (config : RunnableConfig)
    (body : stream_item -> M unit) : M unit :=
  run_turn g input relevant_memory config body ;; ret tt.

(** [graph.get_state(config).values]: [None] stands for the empty dict of
    a thread without checkpoint; without a checkpointer the call raises. *)
Definition get_state (g : CompiledStateGraph) (config_thread_id : string)
    : M (option GraphState) :=
  match checkpointer g with
  | None => raise (ValueError "No checkpointer set")
  | Some _ =>
      database <- get_db ;;
      ret (latest config_thread_id database)
  end.

(** [self._graph.<method>] when [self._graph] may be [None] *)
Definition the_graph (attr : string) : M CompiledStateGraph :=
  s <- get_self ;;
  match _graph s with
  | Some g => ret g
  | None => raise (AttributeError ("'NoneType' object has no attribute '" +:+ attr +:+ "'"))
  end.

(** [if self._graph is None: self._graph = await self.create_graph()] *)
Definition ensure_graph : M unit :=
  s <- get_self ;;
  match _graph s with
  | None =>
      g <- create_graph ;;
      s' <- get_self ;;
      set_self (set_graph s' g)
  | Some _ => ret tt
  end.

(** [str(message["content"])] *)
Definition str_content (c : Content) : string :=
  match c with
  | Str s => s
  | Blocks bs => "[" +:+ String.concat ", " (map (repr_block d) bs) +:+ "]"
  end.

(** The response assembler.  [Message(...)] is built for each message the
    comprehension keeps; the validation rules of app.schemas are not part
    of these sources. *)
Definition __process_messages (messages : list BaseMessage) : list Message :=
  let openai_style_messages := convert_to_openai_messages messages in
  map (fun message => {| role := oai_role message;
                         text := str_content (oai_content message) |})
    (List.filter
       (fun message => bool_decide (oai_role message ∈ ["assistant"; "user"])
                       && truthy (oai_content message))
       openai_style_messages).

Definition make_config (session_id : string) (user_id : option string) : RunnableConfig :=
  {| thread_id := session_id;
     metadata := {| md_user_id := user_id;
                    md_session_id := session_id;
                    md_environment := Environment_value (ENVIRONMENT d);
                    md_debug := DEBUG d |} |}.

(** [(await self._get_relevant_memory(...)) or "No relevant memory found."] *)
Definition or_placeholder (found : string) : string :=
  match found with
  | "" => "No relevant memory found."
  | _ => found
  end.

(** [asyncio.create_task(self._update_long_term_memory(...))] is the
    [TaskCreated] event: the task is scheduled, not awaited. *)
Definition get_response (msgs : list Message) (session_id : string)
    (user_id : option string) : M (list Message) :=
  ensure_graph ;;
  emit (SentryTransaction "langgraph.get_response") ;;
  let config := make_config session_id user_id in
  last_message <- lift (getitem_last msgs) ;;
  found <- _get_relevant_memory user_id (text last_message) ;;
  let relevant_memory := or_placeholder found in
  try_except
    (g <- the_graph "ainvoke" ;;
     response <- ainvoke_graph g (dump_messages msgs) relevant_memory config ;;
     emit (TaskCreated user_id
             (convert_to_openai_messages (messages response))
             (metadata config)) ;;
     ret (__process_messages (messages response)))
    (fun e =>
       emit (SentryContext "langgraph_error" session_id user_id (length msgs)) ;;
       emit (Log error ("Error getting response: " +:+ str_exn e) []) ;;
       raise e).

(** The async generator, consumed to its end: every token it yields is a
    [Yield] event; reading [token.content] does not raise, so the inner
    [try] never reaches its handler. *)
Definition get_stream_response (msgs : list Message) (session_id : string)
    (user_id : option string) : M unit :=
  emit (SentryTransaction "langgraph.get_stream_response") ;;
  let config := make_config session_id user_id in
  ensure_graph ;;
  last_message <- lift (getitem_last msgs) ;;
  found <- _get_relevant_memory user_id (text last_message) ;;
  let relevant_memory := or_placeholder found in
  try_except
    (g <- the_graph "astream" ;;
     astream g (dump_messages msgs) relevant_memory config
       (fun item => emit (Yield (content (token item)))) ;;
     state <- get_state g (thread_id config) ;;
     match state with
     | Some values =>
         emit (TaskCreated user_id
                 (convert_to_openai_messages (messages values))
                 (metadata config))
     | None => ret tt
     end)
    (fun stream_error =>
       emit (SentryContext "langgraph_stream_error" session_id user_id (length msgs)) ;;
       emit (Log error "Error in stream processing"
               [("error", VStr (str_exn stream_error)); ("session_id", VStr session_id)]) ;;
       raise stream_error).

Definition get_chat_history (session_id : string) : M (list Message) :=
  ensure_graph ;;
  g <- the_graph "get_state" ;;
  state <- get_state g session_id ;;
  match state with
  | Some values => ret (__process_messages (messages values))
  | None => ret []
  end.

Definition clear_chat_history (session_id : string) : M unit :=
  try_except
    (saver <- _get_checkpointer ;;
     match saver with
     | None => raise (Exception "MongoDB checkpointer not available")
     | Some _ =>
         database <- get_db ;;
         let checkpoint_result := delete_many session_id (checkpoints database) in
         set_db {| checkpoints := checkpoint_result.1;
                   checkpoint_writes := checkpoint_writes database |} ;;
         database' <- get_db ;;
         let writes_result := delete_many session_id (checkpoint_writes database') in
         set_db {| checkpoints := checkpoints database';
                   checkpoint_writes := writes_result.1 |} ;;
         emit (Log info "chat_history_cleared"
                 [("session_id", VStr session_id);
                  ("checkpoints_deleted", VInt checkpoint_result.2);
                  ("writes_deleted", VInt writes_result.2)])
     end)
    (fun e =>
       emit (Log error "failed_to_clear_chat_history"
               [("error", VStr (str_exn e)); ("session_id", VStr session_id)]) ;;
       raise e).

End Agent.

(** ** A concrete deployment: the weather scenario of the spec

    Session "S1": the user asks for the weather, the model answers with a
    call of [get_weather], the tool answers, and the model's second answer
    has no tool call. *)

Module Scenario.

Definition get_weather : Tool :=
  {| tool_name := "get_weather";
     ainvoke := fun _ => {| latency := 30; outcome := Ok "18C, cloudy" |} |}.

Definition get_time : Tool :=
  {| tool_name := "get_time";
     ainvoke := fun _ => {| latency := 1; outcome := Ok "12:00" |} |}.

Definition weather_call : tool_call :=
  {| tc_name := "get_weather"; tc_args := [("city", "Paris")]; tc_id := "call_A" |}.

Definition time_call : tool_call :=
  {| tc_name := "get_time"; tc_args := []; tc_id := "call_B" |}.

Definition stocks_call : tool_call :=
  {| tc_name := "get_stocks"; tc_args := []; tc_id := "call_C" |}.

Definition ai (c : Content) (calls : list tool_call) : BaseMessage :=
  {| type := AIMessage; content := c; tool_calls := calls;
     name := None; tool_call_id := None |}.

Definition human (s : string) : BaseMessage :=
  {| type := HumanMessage; content := Str s; tool_calls := [];
     name := None; tool_call_id := None |}.

Definition tool_message (s tool id : string) : BaseMessage :=
  {| type := ToolMessage; content := Str s; tool_calls := [];
     name := Some tool; tool_call_id := Some id |}.

Definition question : Message :=
  {| role := "user"; text := "What's the weather?" |}.

Definition final_answer : BaseMessage :=
  ai (Str "It's 18C and cloudy in Paris.") [].

(** The system prompt, then the history with its OpenAI roles. *)
Definition prepare (history : list BaseMessage) (prompt : string) : list Message :=
  {| role := "system"; text := prompt |}
  :: map (fun m => {| role := openai_role (type m);
                      text := match content m with Str s => s | Blocks _ => "" end |})
       history.

(** The model asks for [calls] until it sees a tool result. *)
Definition model (calls : list tool_call) (sent : list Message) : result BaseMessage :=
  if existsb (fun m => String.eqb (role m) "tool") sent
  then Ok final_answer
  else Ok (ai (Str "") calls).

Definition flatten (m : BaseMessage) : BaseMessage :=
  {| type := type m; content := openai_content (content m);
     tool_calls := tool_calls m; name := name m; tool_call_id := tool_call_id m |}.

Definition memories : gmap string (list (gmap string string)) :=
  {[ "results" := [ ({[ "memory" := "Lives in Paris" ]} : gmap string string) ] ]}.

Definition deployment (env : Environment) (mongo : result MongoDBSaver)
    (search : result search_results) (calls : list tool_call) : collaborators :=
  {| ENVIRONMENT := env;
     DEBUG := false;
     PROJECT_NAME := "Agent Template";
     MONGODB_DB_NAME := "agent";
     LONG_TERM_MEMORY_COLLECTION_NAME := "longterm_memory";
     MongoDBSaver_init := mongo;
     AsyncMemory_from_config := Ok {| collection_name := "longterm_memory" |};
     memory_search := fun _ _ => search;
     llm_service_call := model calls;
     tools := [get_weather; get_time];
     load_system_prompt := fun memory => "You are a helpful assistant. " +:+ memory;
     prepare_messages := prepare;
     process_llm_response := flatten;
     stream_chunks := fun m => [m];
     recursion_limit := 25;
     repr_block := fun _ => "{...}" |}.

Definition saver : MongoDBSaver := {| db_name := "agent" |}.

Definition healthy : collaborators :=
  deployment (OtherEnvironment "development") (Ok saver) (Ok memories) [weather_call].

Definition unreachable : exn := Exception "ServerSelectionTimeoutError".

Definition fresh : world :=
  {| self := {| _graph := None; _checkpointer := None; memory := None |};
     db := {| checkpoints := []; checkpoint_writes := [] |};
     trace := [] |}.

(** The agent once its graph is set up. *)
Definition ready (d : collaborators) : world := (ensure_graph d fresh).2.

(** A memory service whose answer has an entry without "memory". *)
Definition broken_memories : gmap string (list (gmap string string)) :=
  {[ "results" := [ ({[ "id" := "7" ]} : gmap string string) ] ]}.

Definition forgetful : collaborators :=
  deployment (OtherEnvironment "development") (Ok saver) (Ok broken_memories)
    [weather_call].

(** The deployments whose MongoDB cannot be reached. *)
Definition degraded : collaborators :=
  deployment PRODUCTION (Raised unreachable) (Ok memories) [weather_call].

Definition failing : collaborators :=
  deployment (OtherEnvironment "development") (Raised unreachable) (Ok memories)
    [weather_call].

(** A model that asks for the weather and for a tool nobody registered. *)
Definition misguided : collaborators :=
  deployment (OtherEnvironment "development") (Ok saver) (Ok memories)
    [weather_call; stocks_call; time_call].

(** The conversation state of the scenario once the turn is over. *)
Definition transcript : list BaseMessage :=
  [ human "What's the weather?";
    ai (Str "") [weather_call];
    tool_message "18C, cloudy" "get_weather" "call_A";
    final_answer ].

End Scenario.

(** ** Vocabulary of the statements *)

(** The world after [evs] more events. *)
Definition tell (evs : list event) (w : world) : world :=
  {| self := self w; db := db w; trace := trace w ++ evs |}.

(** A computation that only writes events: its result and its events do
    not depend on the world it starts in, and it leaves the agent's
    fields and the database alone.  All its events satisfy [P]. *)
Definition writes {A} (P : event -> Prop) (m : M A) : Prop :=
  exists (r : result A) (evs : list event),
    Forall P evs /\ forall w, m w = (r, tell evs w).

(** The events of the two nodes: what they log and whom they call. *)
Definition step_event (ev : event) : Prop :=
  match ev with
  | Log _ _ _ | Breadcrumb _ _ | LlmCall _ | ToolInvoke _ _ => True
  | _ => False
  end.

(** The events of a run of the state machine: those of its nodes and what
    the consumer of its stream yields. *)
Definition node_event (ev : event) : Prop :=
  match ev with
  | Yield _ => True
  | _ => step_event ev
  end.

Definition is_TaskCreated (ev : event) : bool :=
  match ev with TaskCreated _ _ _ => true | _ => false end.

Definition is_CheckpointPut (ev : event) : bool :=
  match ev with CheckpointPut _ _ => true | _ => false end.


(** The tokens a trace yields, in order. *)
Definition yielded (evs : list event) : list Content :=
  omap (fun ev => match ev with Yield t => Some t | _ => None end) evs.

(** The tool invocations of a trace, in order. *)
Definition invoked (evs : list event) : list (string * tool_args) :=
  omap (fun ev => match ev with ToolInvoke t a => Some (t, a) | _ => None end) evs.

(** A world to evaluate world-independent computations in. *)
Definition blank : world :=
  {| self := {| _graph := None; _checkpointer := None; memory := None |};
     db := {| checkpoints := []; checkpoint_writes := [] |};
     trace := [] |}.

(** The messages a thread has in the store. *)
Definition stored (thread : string) (database : Database) : list BaseMessage :=
  from_option messages [] (latest thread database).

(** The answer of the inference client for a state. *)
Definition llm_answer d (state : GraphState) : result BaseMessage :=
  llm_service_call d
    (dump_messages
       (prepare_messages d (messages state)
          (load_system_prompt d (long_term_memory state)))).

(** What the registry's tool answers to a call: the lookup
    [self.tools_by_name[tool_call["name"]]] and the awaited [ainvoke]. *)
Definition tool_answer d (call : tool_call) : result string :=
  tool ← getitem (tools_by_name d) (tc_name call);
  outcome (ainvoke tool (tc_args call)).

(** The [ToolMessage] made of a call and the text its tool returned. *)
Definition tool_message_for (call : tool_call) (tool_result : string) : BaseMessage :=
  {| type := ToolMessage;
     content := Str tool_result;
     tool_calls := [];
     name := Some (tc_name call);
     tool_call_id := Some (tc_id call) |}.

Definition invoke_event (call : tool_call) : event :=
  ToolInvoke (tc_name call) (tc_args call).

(** The same deployment with other completion latencies for its tools. *)
Definition delay_tool (f : string -> tool_args -> nat) (t : Tool) : Tool :=
  {| tool_name := tool_name t;
     ainvoke := fun args => {| latency := f (tool_name t) args;
                               outcome := outcome (ainvoke t args) |} |}.

Definition with_latencies (f : string -> tool_args -> nat) (d : collaborators)
    : collaborators :=
  {| ENVIRONMENT := ENVIRONMENT d;
     DEBUG := DEBUG d;
     PROJECT_NAME := PROJECT_NAME d;
     MONGODB_DB_NAME := MONGODB_DB_NAME d;
     LONG_TERM_MEMORY_COLLECTION_NAME := LONG_TERM_MEMORY_COLLECTION_NAME d;
     MongoDBSaver_init := MongoDBSaver_init d;
     AsyncMemory_from_config := AsyncMemory_from_config d;
     memory_search := memory_search d;
     llm_service_call := llm_service_call d;
     tools := map (delay_tool f) (tools d);
     load_system_prompt := load_system_prompt d;
     prepare_messages := prepare_messages d;
     process_llm_response := process_llm_response d;
     stream_chunks := stream_chunks d;
     recursion_limit := recursion_limit d;
     repr_block := repr_block d |}.

(** The events of the set-up and of memory retrieval. *)
Definition prelude_event (ev : event) : Prop :=
  match ev with
  | Log _ _ _ | MemorySearch _ _ | SentryTransaction _ => True
  | _ => False
  end.

(** What memory retrieval returns for an agent whose [memory] field is
    [mem]: the rendered facts, or the empty string when the client cannot
    be built, the search raises or its answer cannot be rendered. *)
Definition recalled d (mem : option AsyncMemory) (user_id : option string)
    (query : string) : string :=
  match (match mem with Some m => Ok m | None => AsyncMemory_from_config d end) with
  | Raised _ => ""
  | Ok _ =>
      match memory_search d (str_opt user_id) query with
      | Raised _ => ""
      | Ok results =>
          match render_memory results with
          | Ok rendered => rendered
          | Raised _ => ""
          end
      end
  end.

(** The messages a turn starts from under graph [g]. *)
Definition resumed (g : CompiledStateGraph) (thread : string) (database : Database)
    : list BaseMessage :=
  match checkpointer g with
  | Some _ => stored thread database
  | None => []
  end.

(** The world once the final state of a turn is committed under [g]. *)
Definition commit (g : CompiledStateGraph) (thread : string) (resumed_length : nat)
    (final : GraphState) (w : world) : world :=
  match checkpointer g with
  | Some _ =>
      {| self := self w;
         db := append_checkpoint thread final
                 (drop resumed_length (messages final)) (db w);
         trace := trace w ++ [CheckpointPut thread final] |}
  | None => w
  end.

(** The consumer of [ainvoke] and the one of [get_stream_response]. *)
Definition no_body : stream_item -> M unit := fun _ => ret tt.
Definition yield_body : stream_item -> M unit :=
  fun item => emit (Yield (content (token item))).

(** The graph [create_graph] compiles over a checkpointer, if any. *)
Definition compiled d (saver : option MongoDBSaver) : CompiledStateGraph :=
  {| checkpointer := saver;
     graph_name := PROJECT_NAME d +:+ " Agent (" +:+
                   Environment_value (ENVIRONMENT d) +:+ ")" |}.

Definition graph_created_event d (has_checkpointer : bool) : event :=
  Log info "graph_created"
    [("graph_name", VStr (PROJECT_NAME d +:+ " Agent"));
     ("environment", VStr (Environment_value (ENVIRONMENT d)));
     ("has_checkpointer", VBool has_checkpointer)].

(** A search answer the rendering cannot read: no "results" key, or an
    entry without "memory". *)
Definition malformed (results : search_results) : Prop :=
  results !! "results" = None
  \/ exists hits, results !! "results" = Some hits
                  /\ Exists (fun hit : memory_hit => hit !! "memory" = None) hits.

(** Memory retrieval fails: the client cannot be built, the search raises,
    or its answer is malformed. *)
Definition retrieval_fails d (mem : option AsyncMemory) (user_id : option string)
    (query : string) : Prop :=
  (mem = None /\ exists e, AsyncMemory_from_config d = Raised e)
  \/ (exists e, memory_search d (str_opt user_id) query = Raised e)
  \/ (exists results, memory_search d (str_opt user_id) query = Ok results
                      /\ malformed results).

(** The checkpoint store can be reached: the agent holds a checkpointer
    or can build one. *)
Definition store_reachable d (w : world) : Prop :=
  _checkpointer (self w) <> None \/ exists saver, MongoDBSaver_init d = Ok saver.

(** The number of documents of a thread in a collection. *)
Definition count_in_thread {A} (thread : string) (coll : list (string * A)) : nat :=
  length (List.filter (in_thread thread) coll).

(** What [clear_chat_history] logs on success. *)
Definition cleared_event (session_id : string) (checkpoints_deleted writes_deleted : nat)
    : event :=
  Log info "chat_history_cleared"
    [("session_id", VStr session_id);
     ("checkpoints_deleted", VInt checkpoints_deleted);
     ("writes_deleted", VInt writes_deleted)].

(** The database once the documents of a session are deleted. *)
Definition cleared (session_id : string) (database : Database) : Database :=
  {| checkpoints := (delete_many session_id (checkpoints database)).1;
     checkpoint_writes := (delete_many session_id (checkpoint_writes database)).1 |}.

(** The user and assistant messages. *)
Definition is_dialogue (m : BaseMessage) : bool :=
  match type m with
  | HumanMessage | AIMessage => true
  | ToolMessage | SystemMessage => false
  end.



(** A finished turn ends with an assistant message without tool calls. *)
Definition turn_complete (final : GraphState) : Prop :=
  exists answer, last (messages final) = Some answer
                 /\ type answer = AIMessage /\ tool_calls answer = [].

Definition item_content (item : stream_item) : Content := content (token item).

(** The items of the "messages" stream of a run, step after step: those
    of each node that answers, up to the end of the run or to the first
    node that raises. *)
Fixpoint stream_of d (config : RunnableConfig) (fuel step : nat) (n : node)
    (state : GraphState) : list stream_item :=
  match n with
  | END => []
  | _ =>
      match fuel with
      | 0 => []
      | S fuel' =>
          match (run_node d config n state blank).1 with
          | Ok command =>
              items_of d n step command
              ++ stream_of d config fuel' (S step) (goto command)
                   (apply_update state command)
          | Raised _ => []
          end
      end
  end.

(** The tokens of the final chat step, as section 4.4 of the spec has
    them: the items of the chat node at the last step of the stream. *)
Definition last_step (items : list stream_item) : nat :=
  foldr Nat.max 0 (map langgraph_step items).

Definition final_chat_tokens (items : list stream_item) : list Content :=
  map item_content
    (List.filter
       (fun item => bool_decide (langgraph_node item = chat)
                    && Nat.eqb (langgraph_step item) (last_step items))
       items).

(** What is logged when a stream fails. *)
Definition stream_failure (session_id : string) (user_id : option string)
    (message_count : nat) (e : exn) : list event :=
  [SentryContext "langgraph_stream_error" session_id user_id message_count;
   Log error "Error in stream processing"
     [("error", VStr (str_exn e)); ("session_id", VStr session_id)]].

(** The commit of a turn in the trace, if the graph has a checkpointer. *)
Definition commit_events (g : CompiledStateGraph) (thread : string)
    (final : GraphState) : list event :=
  match checkpointer g with
  | Some _ => [CheckpointPut thread final]
  | None => []
  end.

(** An event that neither schedules a memory update nor commits a
    checkpoint. *)
Definition unscheduled (ev : event) : Prop :=
  is_TaskCreated ev = false /\ is_CheckpointPut ev = false.

(** ** More of [LangGraphAgent]: the memory update task *)

(** [_update_long_term_memory]: the coroutine [get_response] and
    [get_stream_response] schedule.  [memory_add] is [memory.add] of the
    memory client, taken as it is called: the messages, [str(user_id)]
    and the metadata. *)
Definition _update_long_term_memory d
    (memory_add : list openai_message -> string -> option Metadata -> result unit)
    (user_id : option string) (history : list openai_message)
    (metadata : option Metadata) : M unit :=
  try_except
    (bind (_long_term_memory d) (fun _ =>
     bind (lift (memory_add history (str_opt user_id) metadata)) (fun _ =>
     emit (Log info "long_term_memory_updated_successfully"
             [("user_id", VOpt user_id)]))))
    (fun e =>
       emit (Log exception "failed_to_update_long_term_memory"
               [("user_id", VOpt user_id); ("error", VStr (str_exn e))])).

(** The memory client an agent ends up with: the one it has, or the one
    it can build. *)
Definition memory_client d (mem : option AsyncMemory) : result AsyncMemory :=
  match mem with
  | Some m => Ok m
  | None => AsyncMemory_from_config d
  end.

(** What [_chat] leaves in the trace when the inference client raises. *)
Definition chat_failure d (state : GraphState) (config : RunnableConfig) (e : exn)
    : list event :=
  [Breadcrumb (thread_id config) (length (messages state));
   LlmCall (dump_messages
              (prepare_messages d (messages state)
                 (load_system_prompt d (long_term_memory state))));
   Log error "llm_call_failed_all_models"
     [("session_id", VStr (thread_id config)); ("error", VStr (str_exn e));
      ("environment", VStr (Environment_value (ENVIRONMENT d)))]].

(** The same deployment with another inference client. *)
Definition with_model (model : list Message -> result BaseMessage) (d : collaborators)
    : collaborators :=
  {| ENVIRONMENT := ENVIRONMENT d;
     DEBUG := DEBUG d;
     PROJECT_NAME := PROJECT_NAME d;
     MONGODB_DB_NAME := MONGODB_DB_NAME d;
     LONG_TERM_MEMORY_COLLECTION_NAME := LONG_TERM_MEMORY_COLLECTION_NAME d;
     MongoDBSaver_init := MongoDBSaver_init d;
     AsyncMemory_from_config := AsyncMemory_from_config d;
     memory_search := memory_search d;
     llm_service_call := model;
     tools := tools d;
     load_system_prompt := load_system_prompt d;
     prepare_messages := prepare_messages d;
     process_llm_response := process_llm_response d;
     stream_chunks := stream_chunks d;
     recursion_limit := recursion_limit d;
     repr_block := repr_block d |}.

(** The same deployment with other tools. *)
Definition with_tools (ts : list Tool) (d : collaborators) : collaborators :=
  {| ENVIRONMENT := ENVIRONMENT d;
     DEBUG := DEBUG d;
     PROJECT_NAME := PROJECT_NAME d;
     MONGODB_DB_NAME := MONGODB_DB_NAME d;
     LONG_TERM_MEMORY_COLLECTION_NAME := LONG_TERM_MEMORY_COLLECTION_NAME d;
     MongoDBSaver_init := MongoDBSaver_init d;
     AsyncMemory_from_config := AsyncMemory_from_config d;
     memory_search := memory_search d;
     llm_service_call := llm_service_call d;
     tools := ts;
     load_system_prompt := load_system_prompt d;
     prepare_messages := prepare_messages d;
     process_llm_response := process_llm_response d;
     stream_chunks := stream_chunks d;
     recursion_limit := recursion_limit d;
     repr_block := repr_block d |}.

(** A deployment whose inference client has run out of models. *)
Definition exhausted : collaborators :=
  with_model (fun _ => Raised (Exception "rate limited")) Scenario.healthy.

(** A tool that raises, and a second tool registered under a name that is
    taken. *)
Definition flaky_time : Tool :=
  {| tool_name := "get_time";
     ainvoke := fun _ => {| latency := 5; outcome := Raised (Exception "clock is down") |} |}.

Definition forecast : Tool :=
  {| tool_name := "get_weather";
     ainvoke := fun _ => {| latency := 2; outcome := Ok "rain tomorrow" |} |}.

(** A memory service that knows two facts; its entries carry other keys
    besides "memory". *)
Definition two_memories : gmap string (list (gmap string string)) :=
  {[ "results" :=
       [ ({[ "memory" := "Lives in Paris"; "score" := "0.9" ]} : gmap string string);
         ({[ "id" := "2"; "memory" := "Likes rain" ]} : gmap string string) ] ]}.

Definition well_informed : collaborators :=
  Scenario.deployment (OtherEnvironment "development") (Ok Scenario.saver)
    (Ok two_memories) [Scenario.weather_call].

(** ** A session over several turns *)







(** Structured content flattened to plain text: the text of a string, the
    texts of the blocks one per line. *)
Definition plain_text (c : Content) : string :=
  match c with
  | Str s => s
  | Blocks bs => String.concat newline (omap block_text bs)
  end.

(** The dialogue of a list of messages, as sections 4.5 and 8 of the spec
    have it: the user and assistant messages that say something, in
    order, each with its role and its content as plain text.  The system
    and the tool messages are left out, and so is the assistant message
    that only carries tool calls: it has no text, and the tool round trip
    stays invisible. *)
Definition says_something (m : BaseMessage) : bool :=
  is_dialogue m && negb (String.eqb (plain_text (content m)) "").

Definition dialogue (ms : list BaseMessage) : list Message :=
  map (fun m => {| role := openai_role (type m); text := plain_text (content m) |})
    (List.filter says_something ms).


(** * The other modules: authentication, middleware, Sentry filters, health check

    The functions of [app/utils/jwk_auth.py], [app/core/middleware.py],
    [app/core/sentry.py] and [app/services/database.py].  They share
    nothing with the agent but Python itself, so each file has a module of
    its own, over a result type that carries the exceptions of the file. *)

Inductive completion (E A : Type) :=
| Returns (a : A)
| Raises (e : E).
Arguments Returns {E A} a.
Arguments Raises {E A} e.

(** ** Python strings: [split], [startswith], slices, [in]

    Strings that are only compared, concatenated, sliced or split at an
    ASCII character: for these operations a string is as good as its
    bytes. *)

Module Str.

(** [s.split(sep)] for a one-character separator: never empty, the empty
    pieces are kept. *)
Fixpoint split (sep : Ascii.ascii) (s : string) : list string :=
  match s with
  | EmptyString => [EmptyString]
  | String c rest =>
      if Ascii.eqb c sep then EmptyString :: split sep rest
      else match split sep rest with
           | [] => [String c EmptyString]
           | piece :: pieces => String c piece :: pieces
           end
  end.

(** [s.startswith(prefix)] *)
Definition startswith (prefix s : string) : bool := String.prefix prefix s.

(** [s[n:]] *)
Fixpoint slice_from (n : nat) (s : string) : string :=
  match n, s with
  | 0, _ => s
  | S n', String _ rest => slice_from n' rest
  | S _, EmptyString => EmptyString
  end.

(** [needle in hay] *)
Fixpoint contains (needle hay : string) : bool :=
  String.prefix needle hay
  || match hay with
     | EmptyString => false
     | String _ rest => contains needle rest
     end.

(** [c in s] for a character *)
Fixpoint has_char (c : Ascii.ascii) (s : string) : bool :=
  match s with
  | EmptyString => false
  | String c' rest => Ascii.eqb c' c || has_char c rest
  end.

(** The truth value of a string. *)
Definition nonempty (s : string) : bool :=
  match s with EmptyString => false | String _ _ => true end.

End Str.

Definition space : Ascii.ascii := Ascii.ascii_of_nat 32.

(** ** Python strings, by their code points

    [str.strip()] removes the characters Python holds for white space,
    and which those are depends on the code points, not on their bytes
    (U+00A0 and U+3000 are stripped).  A string that is stripped is a
    sequence of code points. *)

Module Unicode.

Definition str : Type := list N.

(** [c.isspace()], the test of [strip]: the characters whose
    bidirectional type is WS, B or S or whose category is Zs. *)
Definition isspace (c : N) : bool :=
  (((0x9 <=? c) && (c <=? 0xD)) || ((0x1C <=? c) && (c <=? 0x20))
   || (c =? 0x85) || (c =? 0xA0) || (c =? 0x1680)
   || ((0x2000 <=? c) && (c <=? 0x200A))
   || (c =? 0x2028) || (c =? 0x2029) || (c =? 0x202F)
   || (c =? 0x205F) || (c =? 0x3000))%N.

(** [s.split(sep)] for a one-character separator: never empty, the empty
    pieces are kept. *)
Fixpoint split (sep : N) (s : str) : list str :=
  match s with
  | [] => [[]]
  | c :: rest =>
      if (c =? sep)%N then [] :: split sep rest
      else match split sep rest with
           | [] => [[c]]
           | piece :: pieces => (c :: piece) :: pieces
           end
  end.

Fixpoint lstrip (s : str) : str :=
  match s with
  | [] => []
  | c :: rest => if isspace c then lstrip rest else s
  end.

Fixpoint rstrip (s : str) : str :=
  match s with
  | [] => []
  | c :: rest =>
      match rstrip rest with
      | [] => if isspace c then [] else [c]
      | tail => c :: tail
      end
  end.

(** [s.strip()] *)
Definition strip (s : str) : str := rstrip (lstrip s).

(** The truth value of a string. *)
Definition nonempty (s : str) : bool :=
  match s with [] => false | _ :: _ => true end.

(** [sep.join(pieces)] *)
Fixpoint join (sep : str) (pieces : list str) : str :=
  match pieces with
  | [] => []
  | piece :: rest =>
      match rest with
      | [] => piece
      | _ :: _ => piece ++ sep ++ join sep rest
      end
  end.

(** An ASCII literal, character by character. *)
Definition of_string (s : string) : str :=
  map Ascii.N_of_ascii (String.list_ascii_of_string s).

Definition comma : N := 0x2C%N.

End Unicode.

(** ** app/utils/jwk_auth.py *)

Module JwkAuth.

(** A value of a decoded token payload: a string, [None], or any other
    JSON value.  Of the last the code uses the truth value, and hands it
    to pydantic as a [str] field: [as_str] is the string pydantic makes of
    it, or nothing when pydantic rejects it. *)
Inductive jval :=
| JStr (s : string)
| JNull
| JOther (truth : bool) (as_str : option string).

Definition jtruthy (v : jval) : bool :=
  match v with
  | JStr s => Str.nonempty s
  | JNull => false
  | JOther truth _ => truth
  end.

(** [payload.get(key)] *)
Definition dict_get (payload : gmap string jval) (key : string) : jval :=
  default JNull (payload !! key).

(** What the calls inside the [try] of [verify_jwt] can raise, by the
    [except] clause that catches it. *)
Inductive failure :=
| ExpiredSignatureError (msg : string)
| InvalidTokenError (msg : string)
| OtherException (msg : string).

(** What the functions of the module raise. *)
Inductive auth_error :=
| HTTPException (status_code : nat) (detail : string)
| ValidationError (field : string).

Record AuthUser := {
  user_id : string;
  email : option string
}.

Record PyJWKClient := { jwks_url : string }.

(** [JWKConfig], read from the environment when the module is loaded.
    The JWT_ISSUER variable is stripped, so it is held by its code
    points. *)
Record JWKConfig := {
  AUTH_URL : option string;
  _JWT_ISSUER_ENV : Unicode.str;
  JWT_AUDIENCE : string
}.

Definition JWT_ALGORITHMS : list string := ["EdDSA"; "RS256"].

(** [[iss.strip() for iss in _JWT_ISSUER_ENV.split(",") if iss.strip()]] *)
Definition parse_issuers (env : Unicode.str) : list Unicode.str :=
  List.filter Unicode.nonempty (map Unicode.strip (Unicode.split Unicode.comma env)).

Definition JWT_ISSUER (cfg : JWKConfig) : list Unicode.str :=
  parse_issuers (_JWT_ISSUER_ENV cfg).

(** PyJWT, as [verify_jwt] calls it: the key of
    [jwks_client.get_signing_key_from_jwt(token)] and
    [jwt.decode(token, key, algorithms=, issuer=, audience=,
    options={"verify_exp": True})]. *)
Record jwt_library := {
  get_signing_key_from_jwt : PyJWKClient -> string -> completion failure string;
  decode : string -> string -> list string -> option (list Unicode.str) -> string
           -> completion failure (gmap string jval)
}.

(** [get_jwks_client] under [lru_cache(maxsize=1)]: the cache holds the
    client once one has been returned; an exception is not cached. *)
Definition get_jwks_client (cfg : JWKConfig) (cache : option PyJWKClient)
    : completion failure PyJWKClient * option PyJWKClient :=
  match cache with
  | Some client => (Returns client, cache)
  | None =>
      match AUTH_URL cfg with
      | Some (String c rest as url) =>
          let client := {| jwks_url := url +:+ "/api/auth/jwks" |} in
          (Returns client, Some client)
      | _ =>
          (Raises (OtherException
                     "AUTH_URL environment variable is required for JWK authentication"),
           None)
      end
  end.

(** The issuer given to [jwt.decode]: [JWT_ISSUER if JWT_ISSUER else None] *)
Definition issuer_argument (cfg : JWKConfig) : option (list Unicode.str) :=
  match JWT_ISSUER cfg with
  | [] => None
  | issuers => Some issuers
  end.

Definition verify_jwt (cfg : JWKConfig) (lib : jwt_library) (token : string)
    (cache : option PyJWKClient)
    : completion auth_error (gmap string jval) * option PyJWKClient :=
  let attempt :=
    match get_jwks_client cfg cache with
    | (Raises e, cache') => (Raises e, cache')
    | (Returns jwks_client, cache') =>
        match get_signing_key_from_jwt lib jwks_client token with
        | Raises e => (Raises e, cache')
        | Returns signing_key =>
            (decode lib token signing_key JWT_ALGORITHMS (issuer_argument cfg)
               (JWT_AUDIENCE cfg),
             cache')
        end
    end in
  match attempt with
  | (Returns payload, cache') => (Returns payload, cache')
  | (Raises (ExpiredSignatureError _), cache') =>
      (Raises (HTTPException 401 "Token has expired"), cache')
  | (Raises (InvalidTokenError msg), cache') =>
      (Raises (HTTPException 401 ("Invalid token: " +:+ msg)), cache')
  | (Raises (OtherException msg), cache') =>
      (Raises (HTTPException 401 ("Authentication failed: " +:+ msg)), cache')
  end.

(** pydantic's validation of a [str] field. *)
Definition validate_str (field : string) (v : jval) : completion auth_error string :=
  match v with
  | JStr s => Returns s
  | JOther _ (Some s) => Returns s
  | JNull | JOther _ None => Raises (ValidationError field)
  end.

(** [AuthUser(user_id=..., email=...)]: [user_id] is a [str],
    [email] an [Optional[str]]; the fields are validated in this order. *)
Definition make_AuthUser (sub mail : jval) : completion auth_error AuthUser :=
  match validate_str "user_id" sub with
  | Raises e => Raises e
  | Returns s =>
      match mail with
      | JNull => Returns {| user_id := s; email := None |}
      | _ =>
          match validate_str "email" mail with
          | Raises e => Raises e
          | Returns m => Returns {| user_id := s; email := Some m |}
          end
      end
  end.

(** The header test of [get_current_user], turned round:
    [authorization and authorization.startswith("Bearer ")] *)
Definition is_bearer (authorization : option string) : bool :=
  match authorization with
  | Some header => Str.nonempty header && Str.startswith "Bearer " header
  | None => false
  end.

Definition get_current_user (cfg : JWKConfig) (lib : jwt_library)
    (authorization : option string) (cache : option PyJWKClient)
    : completion auth_error AuthUser * option PyJWKClient :=
  if negb (is_bearer authorization) then
    (Raises (HTTPException 401 "Missing or invalid authorization header"), cache)
  else
    let token := Str.slice_from 7 (default EmptyString authorization) in
    match verify_jwt cfg lib token cache with
    | (Raises e, cache') => (Raises e, cache')
    | (Returns payload, cache') =>
        (make_AuthUser (dict_get payload "sub") (dict_get payload "email"), cache')
    end.

(** An identity provider for the examples: it signs with the key "k1";
    the token "good" is user-1's, "anonymous" carries no subject, "old" has
    expired, and any other token has a bad signature. *)
Module Idp.

Definition cfg : JWKConfig :=
  {| AUTH_URL := Some "https://auth.example.com";
     _JWT_ISSUER_ENV := Unicode.of_string "https://auth.example.com";
     JWT_AUDIENCE := "agent" |}.

Definition unconfigured : JWKConfig :=
  {| AUTH_URL := None; _JWT_ISSUER_ENV := []; JWT_AUDIENCE := EmptyString |}.

Definition payload : gmap string jval :=
  {[ "sub" := JStr "user-1"; "email" := JStr "ada@example.com" ]}.

Definition lib : jwt_library :=
  {| get_signing_key_from_jwt := fun _ _ => Returns "k1";
     decode := fun token _ _ _ _ =>
       if String.eqb token "good" then Returns payload
       else if String.eqb token "anonymous" then Returns {[ "email" := JStr "ada@example.com" ]}
       else if String.eqb token "old" then Raises (ExpiredSignatureError "Signature has expired")
       else Raises (InvalidTokenError "Signature verification failed") |}.

End Idp.

End JwkAuth.

(** ** app/core/middleware.py *)

Module Middleware.
Import JwkAuth.

(** What a handler can raise: an [Exception], or a [BaseException] that
    is none (a cancellation, an interrupt); [UnboundLocalError] is an
    [Exception] like the others, with a constructor of its own because the
    code of this file can raise it. *)
Inductive thrown :=
| Exc (e : exn)
| BaseExc (name : string)
| UnboundLocalError (variable : string).

Definition is_Exception (t : thrown) : bool :=
  match t with
  | BaseExc _ => false
  | Exc _ | UnboundLocalError _ => true
  end.

(** A request: its method, [request.url.path], and its headers by
    lower-case name, as [request.headers.get] reads them. *)
Record Request := {
  method : string;
  url_path : string;
  headers : gmap string string
}.

Record Response := { status_code : nat }.

(** *** MetricsMiddleware

    The two metrics of [app.core.metrics] this file writes: a counter by
    method, endpoint and status and a histogram by method and endpoint,
    with the samples it has observed.  [T] is the type of the clock
    readings, [minus] their difference. *)
Section Metrics.
Context {T : Type} (minus : T -> T -> T).

Record registry := {
  http_requests_total : gmap (string * string * nat) nat;
  http_request_duration_seconds : gmap (string * string) (list T);
  clock : T
}.

(** [counter.labels(...).inc()] *)
Definition inc (labels : string * string * nat) (r : registry) : registry :=
  {| http_requests_total :=
       <[labels := S (default 0 (http_requests_total r !! labels))]>
         (http_requests_total r);
     http_request_duration_seconds := http_request_duration_seconds r;
     clock := clock r |}.

(** [histogram.labels(...).observe(duration)] *)
Definition observe (labels : string * string) (duration : T) (r : registry) : registry :=
  {| http_requests_total := http_requests_total r;
     http_request_duration_seconds :=
       <[labels := default [] (http_request_duration_seconds r !! labels) ++ [duration]]>
         (http_request_duration_seconds r);
     clock := clock r |}.

(** The rest of the application, as the middleware sees it: the handler
    returns a response or raises, and the clock has moved when it ends. *)
Definition metrics_handler : Type :=
  Request -> registry -> completion thrown Response * registry.

(** [MetricsMiddleware.dispatch].  [status_code] is assigned in the [try]
    and in [except Exception]; when the handler raises anything else the
    [finally] block reads it unassigned. *)
Definition metrics_dispatch (request : Request) (call_next : metrics_handler)
    (r : registry) : completion thrown Response * registry :=
  let start_time := clock r in
  let '(answer, r1) := call_next request r in
  let status_code_var :=
    match answer with
    | Returns response => Some (status_code response)
    | Raises t => if is_Exception t then Some 500 else None
    end in
  let duration := minus (clock r1) start_time in
  match status_code_var with
  | None => (Raises (UnboundLocalError "status_code"), r1)
  | Some status =>
      let r2 := inc (method request, url_path request, status) r1 in
      let r3 := observe (method request, url_path request) duration r2 in
      (answer, r3)
  end.

(** The requests of a list, served one after the other. *)
Fixpoint serve (call_next : metrics_handler) (requests : list Request) (r : registry)
    : list (completion thrown Response) * registry :=
  match requests with
  | [] => ([], r)
  | request :: rest =>
      let '(answer, r1) := metrics_dispatch request call_next r in
      let '(answers, r2) := serve call_next rest r1 in
      (answer :: answers, r2)
  end.

(** The requests counted so far, over all labels, and the durations
    observed so far. *)
Definition requests_counted (r : registry) : nat :=
  map_fold (fun _ n total => n + total) 0 (http_requests_total r).

Definition durations_observed (r : registry) : nat :=
  map_fold (fun _ samples total => length samples + total) 0
    (http_request_duration_seconds r).

(** A handler that does not write the two metrics itself, and one that
    raises nothing but instances of [Exception]. *)
Definition leaves_the_metrics_alone (call_next : metrics_handler) : Prop :=
  forall request r,
    http_requests_total (call_next request r).2 = http_requests_total r /\
    http_request_duration_seconds (call_next request r).2 = http_request_duration_seconds r.

Definition raises_only_exceptions (call_next : metrics_handler) : Prop :=
  forall request r t,
    (call_next request r).1 = Raises t -> is_Exception t = true.

End Metrics.

(** *** LoggingContextMiddleware

    The calls into [app.core.logging] and [sentry_sdk], in the order they
    are made. *)
Inductive effect :=
| clear_context
| bind_context (user_id : jval)
| set_user (id email : jval).

(** The handler sees the calls made so far and the JWKS cache; it returns
    or raises, makes calls of its own and may fill the cache. *)
Definition logging_handler : Type :=
  Request -> list effect -> option PyJWKClient
  -> completion thrown Response * list effect * option PyJWKClient.

(** The inner [try]: [verify_jwt], then [bind_context] and [set_user] when
    the payload has a truthy "sub"; [except Exception: pass]. *)
Definition identify (cfg : JWKConfig) (lib : jwt_library) (token : string)
    (cache : option PyJWKClient) : list effect * option PyJWKClient :=
  match verify_jwt cfg lib token cache with
  | (Returns payload, cache') =>
      let user_id := dict_get payload "sub" in
      if jtruthy user_id
      then ([bind_context user_id; set_user user_id (dict_get payload "email")], cache')
      else ([], cache')
  | (Raises _, cache') => ([], cache')
  end.

(** [LoggingContextMiddleware.dispatch]: the body of the outer [try], then
    the [finally]. *)
Definition logging_dispatch (cfg : JWKConfig) (lib : jwt_library)
    (request : Request) (call_next : logging_handler) (cache : option PyJWKClient)
    : completion thrown Response * list effect * option PyJWKClient :=
  let auth_header := headers request !! "authorization" in
  let '(answer, effects, cache') :=
    if is_bearer auth_header then
      match Str.split space (default EmptyString auth_header) !! 1 with
      | None =>
          (Raises (Exc (IndexError "list index out of range")), [clear_context], cache)
      | Some token =>
          let '(bound, cache1) := identify cfg lib token cache in
          let '(answer, made, cache2) :=
            call_next request (clear_context :: bound) cache1 in
          (answer, clear_context :: bound ++ made, cache2)
      end
    else
      let '(answer, made, cache2) := call_next request [clear_context] cache in
      (answer, clear_context :: made, cache2) in
  (answer, effects ++ [clear_context], cache').

(** An application for the examples: "/boom" raises, any other path is
    answered with 200; a request takes one tick of the clock.  A second
    one is cancelled on every request.  The logging handler answers like
    the first and makes no call of its own. *)
Module Site.

Definition answer (request : Request) : completion thrown Response :=
  if String.eqb (url_path request) "/boom" then Raises (Exc (Exception "boom"))
  else Returns {| status_code := 200 |}.

Definition app : @metrics_handler nat :=
  fun request r =>
    (answer request,
     {| http_requests_total := http_requests_total r;
        http_request_duration_seconds := http_request_duration_seconds r;
        clock := S (clock r) |}).

Definition cancelled : @metrics_handler nat :=
  fun request r => (Raises (BaseExc "CancelledError"), r).

Definition idle : @registry nat :=
  {| http_requests_total := ∅; http_request_duration_seconds := ∅; clock := 0 |}.

Definition get (path : string) (authorization : option string) : Request :=
  {| method := "GET";
     url_path := path;
     headers := match authorization with
                | Some header => {[ "authorization" := header ]}
                | None => ∅
                end |}.

Definition quiet : logging_handler :=
  fun request _ cache => (answer request, [], cache).

End Site.

End Middleware.

(** ** app/core/sentry.py *)

Module Sentry.

(** A Sentry event: [event["exception"]] when the key is there (a
    dictionary whose "values" are the exceptions of the chain, each with
    its "type"), the name of the transaction, and the other keys. *)
Record Event := {
  exception_key : option (gmap string (list (gmap string string)));
  transaction : option string;
  extra : gmap string string
}.

(** [hint["exc_info"]]: the type of the exception and, of its value, the
    [status_code] attribute when it has one. *)
Record exc_info := {
  exc_type : string;
  status_code : option Z
}.

(** The first test of [before_send]. *)
Definition client_error (hint : gmap string exc_info) : bool :=
  match hint !! "exc_info" with
  | Some exc =>
      match status_code exc with
      | Some code => (code <? 500)%Z
      | None => false
      end
  | None => false
  end.

(** The [for] loop of [before_send]: [true] when it returns [None]. *)
Fixpoint rate_limited (values : list (gmap string string)) : bool :=
  match values with
  | [] => false
  | entry :: rest =>
      if Str.contains "RateLimitExceeded" (default EmptyString (entry !! "type"))
      then true
      else rate_limited rest
  end.

Definition before_send (event : Event) (hint : gmap string exc_info) : option Event :=
  if client_error hint then None
  else
    match exception_key event with
    | Some chain =>
        if rate_limited (default [] (chain !! "values")) then None else Some event
    | None => Some event
    end.

Definition before_send_transaction (event : Event) (hint : gmap string exc_info)
    : option Event :=
  let transaction_name := default EmptyString (transaction event) in
  if bool_decide (transaction_name ∈ ["/health"; "/metrics"; "/docs"; "/redoc"; "/openapi.json"])
  then None
  else Some event.

(** An event for the examples: a request turned away by the rate limiter. *)
Definition throttled : Event :=
  {| exception_key :=
       Some {[ "values" :=
                 [ ({[ "type" := "slowapi.errors.RateLimitExceeded";
                       "value" := "5 per 1 minute" ]} : gmap string string) ] ]};
     transaction := Some "/api/v1/chat";
     extra := ∅ |}.

End Sentry.

(** ** app/services/database.py *)

Module DatabaseService.

(** A client, with the arguments it was built with; [serial] tells the
    clients of one service apart, as the identity of the objects does. *)
Record MongoClient := {
  uri : string;
  serverSelectionTimeoutMS : nat;
  serial : nat
}.

#[global] Instance MongoClient_eq_dec : EqDecision MongoClient.
Proof. solve_decision. Defined.

(** What the service does to the outside: the clients it builds, pings
    and closes, and what it logs. *)
Inductive action :=
| constructed (c : MongoClient)
| pinged (c : MongoClient)
| closed (c : MongoClient)
| logged (lvl name : string).

(** The service: [self.client], and the actions so far. *)
Record service := {
  client : option MongoClient;
  actions : list action
}.

(** [DatabaseService()] *)
Definition __init__ : service := {| client := None; actions := [] |}.

(** pymongo at the time of a call: whether [MongoClient(...)] returns the
    client or raises, and whether the ping of a client does. *)
Record server := {
  MongoClient_init : MongoClient -> completion exn unit;
  ping : MongoClient -> completion exn unit
}.

Definition act (a : action) (s : service) : service :=
  {| client := client s; actions := actions s ++ [a] |}.

Definition health_check (MONGODB_URI : string) (srv : server) (s : service)
    : bool * service :=
  if negb (Str.nonempty MONGODB_URI) then
    (false, act (logged "warning" "mongodb_health_check_skipped") s)
  else
    let attempt : completion exn unit * service :=
      let built :=
        match client s with
        | Some c => (Returns c, s)
        | None =>
            let c := {| uri := MONGODB_URI;
                        serverSelectionTimeoutMS := 5000;
                        serial := length (actions s) |} in
            match MongoClient_init srv c with
            | Returns _ =>
                (Returns c, {| client := Some c; actions := actions s ++ [constructed c] |})
            | Raises e => (Raises e, s)
            end
        end in
      match built with
      | (Raises e, s1) => (Raises e, s1)
      | (Returns c, s1) =>
          match ping srv c with
          | Returns _ => (Returns tt, act (logged "debug" "mongodb_health_check_success") (act (pinged c) s1))
          | Raises e => (Raises e, act (pinged c) s1)
          end
      end in
    match attempt with
    | (Returns _, s1) => (true, s1)
    | (Raises _, s1) => (false, act (logged "error" "mongodb_health_check_failed") s1)
    end.

(** [close]; [self.client.close()] is taken to return. *)
Definition close (s : service) : service :=
  match client s with
  | Some c => {| client := None; actions := actions s ++ [closed c] |}
  | None => s
  end.

(** The calls made on the service. *)
Inductive call :=
| HealthCheck (srv : server)
| Close.

Definition run_call (MONGODB_URI : string) (s : service) (c : call) : service :=
  match c with
  | HealthCheck srv => (health_check MONGODB_URI srv s).2
  | Close => close s
  end.

Definition run (MONGODB_URI : string) (calls : list call) : service :=
  foldl (run_call MONGODB_URI) __init__ calls.

(** The life of a client: it is built when the service holds none, pinged
    while it is the one the service holds, and closed once, after which
    the service holds none.  [lifecycle current trace] is the client held
    after the actions of [trace], or nothing when an action breaks the
    rule. *)
Fixpoint lifecycle (current : option MongoClient) (trace : list action)
    : option (option MongoClient) :=
  match trace with
  | [] => Some current
  | constructed c :: rest =>
      match current with
      | None => lifecycle (Some c) rest
      | Some _ => None
      end
  | pinged c :: rest =>
      if decide (current = Some c) then lifecycle current rest else None
  | closed c :: rest =>
      if decide (current = Some c) then lifecycle None rest else None
  | logged _ _ :: rest => lifecycle current rest
  end.

End DatabaseService.

(** * Properties *)

(** ** The response assembler *)

Lemma process_messages_nil d : __process_messages d [] = [].
Proof. reflexivity. Qed.

Lemma process_messages_app d l1 l2 :
  __process_messages d (l1 ++ l2) = __process_messages d l1 ++ __process_messages d l2.
Proof.
  unfold __process_messages, convert_to_openai_messages.
  by rewrite map_app, List.filter_app, map_app.
Qed.

(** Whether the assembler keeps a message, read off the message itself. *)
Lemma process_messages_cons d m l :
  __process_messages d (m :: l) =
  (if bool_decide (openai_role (type m) ∈ ["assistant"; "user"])
      && truthy (openai_content (content m))
   then [{| role := openai_role (type m);
            text := str_content d (openai_content (content m)) |}]
   else []) ++ __process_messages d l.
Proof.
  unfold __process_messages, convert_to_openai_messages. simpl.
  by destruct (bool_decide _ && truthy _).
Qed.

Lemma truthy_str_content d c : truthy c = true -> str_content d c <> "".
Proof.
  destruct c as [s | bs]; simpl.
  - by destruct s.
  - intros _. discriminate.
Qed.

Lemma kept_role (r : string) :
  bool_decide (r ∈ ["assistant"; "user"]) = true -> r = "assistant" \/ r = "user".
Proof.
  intros H. apply bool_decide_eq_true in H.
  apply elem_of_cons in H as [-> | H]; [by left |].
  apply elem_of_cons in H as [-> | H]; [by right |].
  by apply elem_of_nil in H.
Qed.

Lemma assembled_valid d ms :
  Forall (fun m => (role m = "assistant" \/ role m = "user") /\ text m <> "")
    (__process_messages d ms).
Proof.
  induction ms as [| m ms IH]; [constructor |].
  rewrite process_messages_cons.
  destruct (bool_decide _ && truthy _) eqn:Hkeep; simpl; [| exact IH].
  apply andb_true_iff in Hkeep as [Hrole Hcontent].
  constructor; [| exact IH]. simpl. split.
  - by apply kept_role.
  - by apply truthy_str_content.
Qed.

(** C10. Every message the response assembler returns has the role
    "user" or "assistant" and a non-empty content; a message whose content
    is the empty string - an assistant message that only carries tool
    calls, say - is left out whatever its role. *)
Theorem assembled_messages_have_role_and_content d ms :
  Forall (fun m => (role m = "assistant" \/ role m = "user") /\ text m <> "")
    (__process_messages d ms)
  /\ (forall before after t calls nm id,
        __process_messages d
          (before ++ {| type := t; content := Str ""; tool_calls := calls;
                        name := nm; tool_call_id := id |} :: after)
        = __process_messages d (before ++ after)).
Proof.
  split; [apply assembled_valid |].
  intros before after t calls nm id.
  rewrite !process_messages_app, process_messages_cons. simpl.
  by rewrite andb_false_r.
Qed.

(** ** Computations that only write events *)

Lemma tell_nil w : tell [] w = w.
Proof. destruct w. unfold tell. simpl. by rewrite app_nil_r. Qed.

Lemma tell_tell evs1 evs2 w : tell evs2 (tell evs1 w) = tell (evs1 ++ evs2) w.
Proof. unfold tell. simpl. by rewrite app_assoc. Qed.

Lemma emit_tell ev w : emit ev w = (Ok tt, tell [ev] w).
Proof. reflexivity. Qed.

Lemma writes_ret {A} P (a : A) : writes P (ret a).
Proof. exists (Ok a), []. split; [constructor |]. intros w. by rewrite tell_nil. Qed.

Lemma writes_raise {A} P e : writes P (@raise A e).
Proof. exists (Raised e), []. split; [constructor |]. intros w. by rewrite tell_nil. Qed.

Lemma writes_lift {A} P (r : result A) : writes P (lift r).
Proof. exists r, []. split; [constructor |]. intros w. by rewrite tell_nil. Qed.

Lemma writes_emit (P : event -> Prop) ev : P ev -> writes P (emit ev).
Proof. intros H. exists (Ok tt), [ev]. split; [by repeat constructor |]. done. Qed.

Lemma writes_bind {A B} P (m : M A) (k : A -> M B) :
  writes P m -> (forall a, writes P (k a)) -> writes P (bind m k).
Proof.
  intros (r & evs & Hevs & Hm) Hk. destruct r as [a | e].
  - destruct (Hk a) as (r' & evs' & Hevs' & Hka).
    exists r', (evs ++ evs'). split; [by apply Forall_app |].
    intros w. unfold bind. by rewrite Hm, Hka, tell_tell.
  - exists (Raised e), evs. split; [done |].
    intros w. unfold bind. by rewrite Hm.
Qed.

Lemma writes_try_except {A} P (m : M A) (handler : exn -> M A) :
  writes P m -> (forall e, writes P (handler e)) -> writes P (try_except m handler).
Proof.
  intros (r & evs & Hevs & Hm) Hh. destruct r as [a | e].
  - exists (Ok a), evs. split; [done |].
    intros w. unfold try_except. by rewrite Hm.
  - destruct (Hh e) as (r' & evs' & Hevs' & Hhe).
    exists r', (evs ++ evs'). split; [by apply Forall_app |].
    intros w. unfold try_except. by rewrite Hm, Hhe, tell_tell.
Qed.

(** The result of such a computation is the same in every world. *)
Lemma writes_result {A} P (m : M A) w w' : writes P m -> (m w).1 = (m w').1.
Proof. intros (r & evs & _ & Hm). by rewrite !Hm. Qed.


Lemma writes_weaken {A} (P Q : event -> Prop) (m : M A) :
  (forall ev, P ev -> Q ev) -> writes P m -> writes Q m.
Proof.
  intros HPQ (r & evs & Hevs & Hm). exists r, evs. split; [| done].
  eapply Forall_impl; eauto.
Qed.

Ltac writes_step :=
  repeat first
    [ apply writes_ret | apply writes_raise | apply writes_lift
    | apply writes_emit; exact I
    | apply writes_bind; [| intros ?]
    | apply writes_try_except; [| intros ?] ].

Lemma chat_writes d state config : writes step_event (_chat d state config).
Proof. unfold _chat. writes_step. Qed.

Lemma tool_call_loop_writes d calls outputs :
  writes step_event (tool_call_loop d calls outputs).
Proof.
  revert outputs. induction calls as [| call rest IH]; intros outputs; simpl.
  - apply writes_ret.
  - writes_step. apply IH.
Qed.

Lemma tool_call_writes d state : writes step_event (_tool_call d state).
Proof. unfold _tool_call. writes_step. apply tool_call_loop_writes. Qed.

Lemma step_event_node_event ev : step_event ev -> node_event ev.
Proof. by destruct ev. Qed.

(** What a node does, whichever it is. *)
Lemma node_writes d config n state : writes step_event (run_node d config n state).
Proof. destruct n; [apply chat_writes | apply tool_call_writes | apply writes_ret]. Qed.

Lemma for_each_writes {A} P (body : A -> M unit) l :
  (forall a, writes P (body a)) -> writes P (for_each body l).
Proof.
  intros Hbody. induction l as [| a l IH]; simpl.
  - apply writes_ret.
  - apply writes_bind; [apply Hbody | intros _; apply IH].
Qed.

Lemma superstep_writes d config body step n state :
  (forall item, writes node_event (body item)) ->
  writes node_event (superstep d config body step n state).
Proof.
  intros Hbody. unfold superstep. apply writes_bind.
  - eapply writes_weaken; [apply step_event_node_event | apply node_writes].
  - intros command. apply writes_bind; [by apply for_each_writes |].
    intros _. apply writes_ret.
Qed.

Lemma pregel_loop_writes d config body fuel step n state :
  (forall item, writes node_event (body item)) ->
  writes node_event (pregel_loop d config body fuel step n state).
Proof.
  intros Hbody. revert step n state.
  induction fuel as [| fuel IH]; intros step n state; destruct n; simpl;
    try apply writes_ret; try apply writes_raise.
  - apply writes_bind; [by apply superstep_writes | intros next; apply IH].
  - apply writes_bind; [by apply superstep_writes | intros next; apply IH].
Qed.


Lemma yield_body_writes (item : stream_item) :
  writes node_event (emit (Yield (content (token item)))).
Proof. by apply writes_emit. Qed.

(** ** The chat step *)

Lemma for_each_ok {A} (body : A -> M unit) l w :
  (forall a w', (body a w').1 = Ok tt) -> (for_each body l w).1 = Ok tt.
Proof.
  intros Hbody. revert w. induction l as [| a l IH]; intros w; simpl; [done |].
  unfold bind. specialize (Hbody a w).
  destruct (body a w) as [[[] |] w1]; simpl in Hbody; [apply IH | done].
Qed.

Lemma chat_ok d state config w r :
  llm_answer d state = Ok r ->
  type (process_llm_response d r) = AIMessage ->
  (_chat d state config w).1 =
  Ok {| update := [process_llm_response d r];
        goto := match tool_calls (process_llm_response d r) with
                | [] => END
                | _ :: _ => tool_call_node
                end |}.
Proof.
  unfold llm_answer. intros Hllm Htype.
  unfold _chat, try_except, bind, emit, lift, getattr_tool_calls. simpl.
  rewrite Hllm. simpl. rewrite Htype. simpl. done.
Qed.

(** C1. When the inference client answers with an assistant message, the
    chat step appends that message (its content blocks processed) to the
    conversation state and goes to the tool_call node if the message
    carries tool calls, to the end otherwise. *)
Theorem chat_routes_on_tool_calls d state config body fuel step w r :
  llm_answer d state = Ok r ->
  type (process_llm_response d r) = AIMessage ->
  tool_calls (process_llm_response d r) = tool_calls r ->
  (forall item w', (body item w').1 = Ok tt) ->
  let answer := process_llm_response d r in
  let next := match tool_calls r with [] => END | _ :: _ => tool_call_node end in
  let state' := {| messages := messages state ++ [answer];
                   long_term_memory := long_term_memory state |} in
  (_chat d state config w).1 = Ok {| update := [answer]; goto := next |}
  /\ (superstep d config body step chat state w).1 = Ok (next, state')
  /\ pregel_loop d config body (S fuel) step chat state w =
     pregel_loop d config body fuel (S step) next state'
       (superstep d config body step chat state w).2
  /\ (tool_calls r = [] ->
      (pregel_loop d config body (S fuel) step chat state w).1 = Ok state').
Proof.
  intros Hllm Htype Hcalls Hbody answer next state'.
  pose proof (chat_ok d state config w r Hllm Htype) as Hchat.
  rewrite Hcalls in Hchat. fold answer next in Hchat.
  assert (Hstep : (superstep d config body step chat state w).1 = Ok (next, state')).
  { unfold superstep, run_node, bind.
    destruct (_chat d state config w) as [rc w1]. simpl in Hchat. subst rc.
    pose proof (for_each_ok body
      (items_of d chat step {| update := [answer]; goto := next |}) w1 Hbody) as Hfor.
    destruct (for_each body _ w1) as [[[] |] w2]; simpl in Hfor; [done | done]. }
  assert (Hloop : pregel_loop d config body (S fuel) step chat state w =
     pregel_loop d config body fuel (S step) next state'
       (superstep d config body step chat state w).2).
  { simpl. unfold bind at 1.
    destruct (superstep d config body step chat state w) as [rs w1].
    simpl in Hstep. subst rs. done. }
  repeat split; try done.
  intros Hnone. rewrite Hloop. subst next. rewrite Hnone.
  by destruct fuel.
Qed.

Lemma chat_routes_on_tool_calls_witness :
  let state := {| messages := [Scenario.human "What's the weather?"];
                  long_term_memory := "No relevant memory found." |} in
  let config := make_config Scenario.healthy "S1" (Some "u1") in
  let answer := Scenario.ai (Str "") [Scenario.weather_call] in
  (_chat Scenario.healthy state config Scenario.fresh).1
  = Ok {| update := [answer]; goto := tool_call_node |}
  /\ (superstep Scenario.healthy config (fun _ => ret tt) 1 chat state Scenario.fresh).1
     = Ok (tool_call_node,
           {| messages := messages state ++ [answer];
              long_term_memory := long_term_memory state |}).
Proof.
  intros state config answer.
  pose proof (chat_routes_on_tool_calls Scenario.healthy state config
                (fun _ => ret tt) 3 1 Scenario.fresh answer
                eq_refl eq_refl eq_refl (fun _ _ => eq_refl)) as H.
  split; [exact (proj1 H) | exact (proj1 (proj2 H))].
Defined.

(** ** The tool-execution step *)

Lemma mapM_result_cons {A B} (f : A -> result B) a l ks :
  mapM f (a :: l) = Ok ks ->
  exists b bs, f a = Ok b /\ mapM f l = Ok bs /\ ks = b :: bs.
Proof.
  simpl. destruct (f a) as [b |]; simpl; [| done].
  destruct (mapM f l) as [bs |]; simpl; [| done].
  intros H. injection H as <-. by exists b, bs.
Qed.

Lemma tool_call_loop_step d call rest outputs w s :
  tool_answer d call = Ok s ->
  tool_call_loop d (call :: rest) outputs w =
  tool_call_loop d rest (outputs ++ [tool_message_for call s])
    (tell [invoke_event call] w).
Proof.
  intros H. simpl. unfold tool_answer, getitem, bind, lift, emit in *.
  destruct (tools_by_name d !! tc_name call) as [tool |]; simpl in *; [| done].
  by rewrite H.
Qed.

Lemma tool_call_loop_app d done rest contents outputs w :
  mapM (tool_answer d) done = Ok contents ->
  tool_call_loop d (done ++ rest) outputs w =
  tool_call_loop d rest (outputs ++ zip_with tool_message_for done contents)
    (tell (map invoke_event done) w).
Proof.
  revert contents outputs w.
  induction done as [| call done IH]; intros contents outputs w Hdone.
  - injection Hdone as <-. simpl. by rewrite app_nil_r, tell_nil.
  - apply mapM_result_cons in Hdone as (s & ss & Hs & Hss & ->).
    rewrite <- app_comm_cons, (tool_call_loop_step d call _ outputs w s Hs).
    rewrite (IH ss _ _ Hss), tell_tell. simpl. by rewrite <- app_assoc.
Qed.

Lemma tool_call_loop_ok d calls contents w :
  mapM (tool_answer d) calls = Ok contents ->
  tool_call_loop d calls [] w =
  (Ok (zip_with tool_message_for calls contents), tell (map invoke_event calls) w).
Proof.
  intros H. rewrite <- (app_nil_r calls) at 1.
  by rewrite (tool_call_loop_app d calls [] contents [] w H).
Qed.

Lemma tool_call_loop_unknown d done call rest contents w :
  mapM (tool_answer d) done = Ok contents ->
  tools_by_name d !! tc_name call = None ->
  tool_call_loop d (done ++ call :: rest) [] w =
  (Raised (KeyError (tc_name call)), tell (map invoke_event done) w).
Proof.
  intros Hdone Hnone. rewrite (tool_call_loop_app d done _ contents [] w Hdone).
  simpl. unfold bind, lift, getitem. by rewrite Hnone.
Qed.

Lemma getitem_last_snoc {A} (l : list A) a : getitem_last (l ++ [a]) = Ok a.
Proof. unfold getitem_last. by rewrite last_snoc. Qed.

Lemma mapM_result_length {A B} (f : A -> result B) l ks :
  mapM f l = Ok ks -> length ks = length l.
Proof.
  revert ks. induction l as [| a l IH]; intros ks H; simpl in H.
  - by injection H as <-.
  - destruct (f a); simpl in H; [| done].
    destruct (mapM f l) as [ks' |]; simpl in H; [| done].
    injection H as <-. simpl. f_equal. by apply IH.
Qed.

Lemma tools_by_name_delay f d :
  tools_by_name (with_latencies f d) = delay_tool f <$> tools_by_name d.
Proof.
  unfold tools_by_name. simpl.
  assert (forall l (m m' : gmap string Tool), m' = delay_tool f <$> m ->
    foldl (fun m tool => <[tool_name tool := tool]> m) m' (map (delay_tool f) l)
    = delay_tool f <$> foldl (fun m tool => <[tool_name tool := tool]> m) m l) as Hfold.
  { induction l as [| t l IH]; intros m1 m2 ->; simpl; [done |].
    apply IH. by rewrite fmap_insert. }
  apply Hfold. by rewrite fmap_empty.
Qed.

Lemma tool_answer_delay f d call :
  tool_answer (with_latencies f d) call = tool_answer d call.
Proof.
  unfold tool_answer, getitem. rewrite tools_by_name_delay, lookup_fmap.
  by destruct (tools_by_name d !! tc_name call).
Qed.

Lemma mapM_result_ext {A B} (f g : A -> result B) l :
  (forall a, f a = g a) -> mapM f l = mapM g l.
Proof.
  intros Hfg. induction l as [| a l IH]; simpl; [done |].
  by rewrite Hfg, IH.
Qed.

Lemma answers_tool_call_ids calls contents :
  length contents = length calls ->
  map tool_call_id (zip_with tool_message_for calls contents)
  = map (fun c => Some (tc_id c)) calls.
Proof.
  revert contents. induction calls as [| c calls IH]; intros [| s contents] Hlen;
    simpl in *; try done.
  f_equal. apply IH. lia.
Qed.

Lemma tool_call_ok d state before last_message contents w :
  messages state = before ++ [last_message] ->
  type last_message = AIMessage ->
  mapM (tool_answer d) (tool_calls last_message) = Ok contents ->
  _tool_call d state w =
  (Ok {| update := zip_with tool_message_for (tool_calls last_message) contents;
         goto := chat |},
   tell (map invoke_event (tool_calls last_message)) w).
Proof.
  intros Hlast Htype Hanswers. unfold _tool_call.
  rewrite Hlast, getitem_last_snoc. unfold bind at 1, lift at 1.
  unfold getattr_tool_calls. rewrite Htype. unfold bind at 1, lift at 1.
  unfold bind. by rewrite (tool_call_loop_ok d _ contents w Hanswers).
Qed.

(** C2. When the state ends in an assistant message whose tool calls all
    name registered tools that complete, the tool-execution step invokes
    them one after the other in call order, appends one tool message per
    call in that same order, each with the identifier of its call, and
    goes back to the chat node - whatever the latencies of the tools. *)
Theorem tool_results_in_call_order d state before last_message contents
    config body step w :
  messages state = before ++ [last_message] ->
  type last_message = AIMessage ->
  mapM (tool_answer d) (tool_calls last_message) = Ok contents ->
  (forall item w', (body item w').1 = Ok tt) ->
  let calls := tool_calls last_message in
  let results := zip_with tool_message_for calls contents in
  _tool_call d state w
  = (Ok {| update := results; goto := chat |}, tell (map invoke_event calls) w)
  /\ (superstep d config body step tool_call_node state w).1
     = Ok (chat, {| messages := messages state ++ results;
                    long_term_memory := long_term_memory state |})
  /\ length results = length calls
  /\ map tool_call_id results = map (fun c => Some (tc_id c)) calls
  /\ (forall f, (_tool_call (with_latencies f d) state w).1
                = Ok {| update := results; goto := chat |}).
Proof.
  intros Hlast Htype Hanswers Hbody calls results.
  pose proof (tool_call_ok d state before last_message contents w
                Hlast Htype Hanswers) as Hstep.
  pose proof (mapM_result_length _ _ _ Hanswers) as Hlen.
  split; [exact Hstep |]. split; [| split; [| split]].
  - unfold superstep, run_node, bind. rewrite Hstep.
    pose proof (for_each_ok body
      (items_of d tool_call_node step {| update := results; goto := chat |})
      (tell (map invoke_event calls) w) Hbody) as Hfor.
    fold calls results.
    destruct (for_each body _ _) as [[[] |] w2]; simpl in Hfor; done.
  - subst results. rewrite length_zip_with. fold calls in Hlen. lia.
  - by apply answers_tool_call_ids.
  - intros f.
    rewrite (tool_call_ok (with_latencies f d) state before last_message contents w
               Hlast Htype); [done |].
    rewrite <- Hanswers. apply mapM_result_ext. apply tool_answer_delay.
Qed.

Lemma tool_results_in_call_order_witness :
  let calls := [Scenario.weather_call; Scenario.time_call] in
  let state := {| messages := [Scenario.human "Weather and time?";
                               Scenario.ai (Str "") calls];
                  long_term_memory := "" |} in
  _tool_call Scenario.healthy state Scenario.fresh
  = (Ok {| update := [Scenario.tool_message "18C, cloudy" "get_weather" "call_A";
                      Scenario.tool_message "12:00" "get_time" "call_B"];
           goto := chat |},
     tell [ToolInvoke "get_weather" [("city", "Paris")]; ToolInvoke "get_time" []]
       Scenario.fresh).
Proof.
  intros calls state.
  exact (proj1 (tool_results_in_call_order Scenario.healthy state
                  [Scenario.human "Weather and time?"] (Scenario.ai (Str "") calls)
                  ["18C, cloudy"; "12:00"]
                  (make_config Scenario.healthy "S1" None) (fun _ => ret tt) 2
                  Scenario.fresh eq_refl eq_refl eq_refl (fun _ _ => eq_refl))).
Defined.


(** ** Set-up: checkpointer and graph *)

Lemma get_checkpointer_cached d w saver :
  _checkpointer (self w) = Some saver ->
  _get_checkpointer d w = (Ok (Some saver), w).
Proof. intros H. unfold _get_checkpointer, bind, get_self. by rewrite H. Qed.

Lemma get_checkpointer_created d w saver :
  _checkpointer (self w) = None ->
  MongoDBSaver_init d = Ok saver ->
  _get_checkpointer d w =
  (Ok (Some saver),
   {| self := set_checkpointer (self w) (Some saver);
      db := db w;
      trace := trace w ++
        [Log info "mongodb_checkpointer_created"
           [("mongodb_db_name", VStr (MONGODB_DB_NAME d));
            ("environment", VStr (Environment_value (ENVIRONMENT d)))]] |}).
Proof.
  intros Hnone Hinit. unfold _get_checkpointer, bind at 1, get_self.
  rewrite Hnone. unfold try_except, bind, lift, set_self, emit, get_self.
  by rewrite Hinit.
Qed.

Lemma get_checkpointer_degraded d w e :
  _checkpointer (self w) = None ->
  MongoDBSaver_init d = Raised e ->
  ENVIRONMENT d = PRODUCTION ->
  _get_checkpointer d w =
  (Ok None,
   tell [Log error "mongodb_checkpointer_creation_failed"
           [("error", VStr (str_exn e)); ("environment", VStr "production")];
         Log warning "continuing_without_checkpointer"
           [("environment", VStr "production")]] w).
Proof.
  intros Hnone Hinit Henv. unfold _get_checkpointer, bind at 1, get_self.
  rewrite Hnone. unfold try_except, bind, lift, set_self, emit, get_self.
  rewrite Hinit, Henv. simpl. unfold tell. simpl. by rewrite <- app_assoc.
Qed.

Lemma get_checkpointer_fatal d w e value :
  _checkpointer (self w) = None ->
  MongoDBSaver_init d = Raised e ->
  ENVIRONMENT d = OtherEnvironment value ->
  _get_checkpointer d w =
  (Raised e,
   tell [Log error "mongodb_checkpointer_creation_failed"
           [("error", VStr (str_exn e)); ("environment", VStr value)]] w).
Proof.
  intros Hnone Hinit Henv. unfold _get_checkpointer, bind at 1, get_self.
  rewrite Hnone. unfold try_except, bind, lift, set_self, emit, get_self.
  by rewrite Hinit, Henv.
Qed.

Ltac run_monad :=
  unfold ensure_graph, create_graph, _get_checkpointer, the_graph,
    try_except, bind, lift, ret, raise, emit, get_self, set_self, get_db, set_db;
  simpl.

Lemma ensure_graph_present d w g :
  _graph (self w) = Some g -> ensure_graph d w = (Ok tt, w).
Proof. intros H. unfold ensure_graph, bind, get_self. by rewrite H. Qed.

Lemma ensure_graph_degraded d w e :
  _graph (self w) = None ->
  _checkpointer (self w) = None ->
  MongoDBSaver_init d = Raised e ->
  ENVIRONMENT d = PRODUCTION ->
  ensure_graph d w =
  (Ok tt,
   {| self := set_graph (self w) (Some (compiled d None));
      db := db w;
      trace := trace w ++
        [Log error "mongodb_checkpointer_creation_failed"
           [("error", VStr (str_exn e)); ("environment", VStr "production")];
         Log warning "continuing_without_checkpointer"
           [("environment", VStr "production")];
         graph_created_event d false] |}).
Proof.
  intros Hg Hc Hinit Henv. destruct w as [[g c m] database tr]. simpl in *. subst g c.
  run_monad. rewrite Hinit, Henv. simpl.
  unfold compiled, graph_created_event, set_graph. simpl. rewrite Henv.
  by rewrite <- !app_assoc.
Qed.

Lemma ensure_graph_fatal d w e value :
  _graph (self w) = None ->
  _checkpointer (self w) = None ->
  MongoDBSaver_init d = Raised e ->
  ENVIRONMENT d = OtherEnvironment value ->
  ensure_graph d w =
  (Raised e,
   tell [Log error "mongodb_checkpointer_creation_failed"
           [("error", VStr (str_exn e)); ("environment", VStr value)];
         Log error "graph_creation_failed"
           [("error", VStr (str_exn e)); ("environment", VStr value)]] w).
Proof.
  intros Hg Hc Hinit Henv. destruct w as [[g c m] database tr]. simpl in *. subst g c.
  run_monad. rewrite Hinit, Henv. simpl. unfold tell. simpl.
  by rewrite <- !app_assoc.
Qed.

Lemma create_graph_fatal d w e value :
  _graph (self w) = None ->
  _checkpointer (self w) = None ->
  MongoDBSaver_init d = Raised e ->
  ENVIRONMENT d = OtherEnvironment value ->
  (create_graph d w).1 = Raised e.
Proof.
  intros Hg Hc Hinit Henv. destruct w as [[g c m] database tr]. simpl in *. subst g c.
  run_monad. by rewrite Hinit, Henv.
Qed.

Lemma create_graph_degraded d w e :
  _graph (self w) = None ->
  _checkpointer (self w) = None ->
  MongoDBSaver_init d = Raised e ->
  ENVIRONMENT d = PRODUCTION ->
  (create_graph d w).1 = Ok (Some (compiled d None)).
Proof.
  intros Hg Hc Hinit Henv. destruct w as [[g c m] database tr]. simpl in *. subst g c.
  run_monad. rewrite Hinit, Henv. simpl. unfold compiled. by rewrite Henv.
Qed.

(** Whatever the world, setting the graph up either leaves the agent with
    a graph or raises; it only logs. *)
Lemma ensure_graph_spec d w :
  exists evs cp,
    Forall prelude_event evs /\
    ((exists g,
        ensure_graph d w =
        (Ok tt, {| self := {| _graph := Some g; _checkpointer := cp;
                              memory := memory (self w) |};
                   db := db w; trace := trace w ++ evs |}))
     \/ (exists e,
           ensure_graph d w =
           (Raised e, {| self := {| _graph := None; _checkpointer := cp;
                                    memory := memory (self w) |};
                         db := db w; trace := trace w ++ evs |}))).
Proof.
  destruct w as [[g c m] database tr]. destruct g as [g |].
  - exists [], c. split; [constructor |]. left. exists g.
    run_monad. by rewrite app_nil_r.
  - destruct c as [saver |].
    + eexists _, _. split; [| left; eexists; run_monad; reflexivity].
      repeat constructor.
    + destruct (MongoDBSaver_init d) as [saver | e] eqn:Hinit.
      * eexists _, _. split; [| left; eexists; run_monad; rewrite Hinit; simpl;
                                 rewrite <- !app_assoc; reflexivity].
        repeat constructor.
      * destruct (ENVIRONMENT d) eqn:Henv.
        -- eexists _, _. split; [| left; eexists; run_monad; rewrite Hinit, Henv; simpl;
                                   rewrite <- !app_assoc; reflexivity].
           repeat constructor.
        -- eexists _, _. split; [| right; eexists; run_monad; rewrite Hinit, Henv; simpl;
                                   rewrite <- !app_assoc; reflexivity].
           repeat constructor.
Qed.

(** ** Memory retrieval *)

(** Retrieval never raises: it returns what [recalled] says, may build
    the memory client, and otherwise only writes events. *)
Lemma get_relevant_memory_spec d user_id query w :
  exists evs mem',
    Forall prelude_event evs /\
    _get_relevant_memory d user_id query w =
    (Ok (recalled d (memory (self w)) user_id query),
     {| self := set_memory (self w) mem'; db := db w; trace := trace w ++ evs |}).
Proof.
  destruct w as [[g c m] database tr]. unfold recalled. simpl.
  unfold _get_relevant_memory, _long_term_memory.
  destruct m as [m |]; [| destruct (AsyncMemory_from_config d) as [m | e] eqn:?];
    try (destruct (memory_search d (str_opt user_id) query) as [results | e'] eqn:?;
         [destruct (render_memory results) as [rendered | e''] eqn:? |]);
    eexists _, _;
    (split; [| unfold try_except, bind, lift, ret, emit, get_self, set_self; simpl;
               repeat match goal with H : _ = _ |- _ => rewrite H end;
               simpl; rewrite <- ?app_assoc; reflexivity]);
    repeat constructor.
Qed.

(** ** One turn *)

Lemma run_turn_spec d g input mem config body w new :
  (forall item, writes node_event (body item)) ->
  mapM message_of_dict input = Ok new ->
  let saved := resumed g (thread_id config) (db w) in
  let state := {| messages := saved ++ new; long_term_memory := mem |} in
  exists r evs,
    Forall node_event evs /\
    (forall w', pregel_loop d config body (recursion_limit d) 1 chat state w'
                = (r, tell evs w')) /\
    run_turn d g input mem config body w =
    match r with
    | Ok final => (Ok final, commit g (thread_id config) (length saved) final (tell evs w))
    | Raised e => (Raised e, tell evs w)
    end.
Proof.
  intros Hbody Hnew saved state.
  destruct (pregel_loop_writes d config body (recursion_limit d) 1 chat state Hbody)
    as (r & evs & Hevs & Hloop).
  exists r, evs. split; [done |]. split; [done |].
  unfold run_turn, bind, get_db, set_db, lift, emit, ret. rewrite Hnew.
  subst saved state. unfold resumed, commit, stored, add_messages in *.
  destruct (checkpointer g); rewrite Hloop; by destruct r.
Qed.

Lemma run_turn_bad_input d g input mem config body w e :
  mapM message_of_dict input = Raised e ->
  run_turn d g input mem config body w = (Raised e, w).
Proof. intros H. unfold run_turn, bind, get_db, lift. by rewrite H. Qed.

(** [get_response] once the graph is there: memory retrieval, the turn,
    then either the scheduling of the memory update and the reply, or the
    error report and the same exception again. *)
Lemma get_response_spec d msgs session_id user_id w g last_message new :
  _graph (self w) = Some g ->
  last msgs = Some last_message ->
  mapM message_of_dict msgs = Ok new ->
  let config := make_config d session_id user_id in
  let mem := or_placeholder (recalled d (memory (self w)) user_id (text last_message)) in
  let saved := resumed g session_id (db w) in
  let state := {| messages := saved ++ new; long_term_memory := mem |} in
  exists pre mem' r evs,
    Forall prelude_event pre /\ Forall node_event evs /\
    (forall w', pregel_loop d config no_body (recursion_limit d) 1 chat state w'
                = (r, tell evs w')) /\
    let w2 := {| self := set_memory (self w) mem'; db := db w;
                 trace := trace w ++ pre ++ evs |} in
    get_response d msgs session_id user_id w =
    match r with
    | Ok final =>
        (Ok (__process_messages d (messages final)),
         tell [TaskCreated user_id (convert_to_openai_messages (messages final))
                 (metadata config)]
           (commit g session_id (length saved) final w2))
    | Raised e =>
        (Raised e,
         tell [SentryContext "langgraph_error" session_id user_id (length msgs);
               Log error ("Error getting response: " +:+ str_exn e) []] w2)
    end.
Proof.
  intros Hg Hlast Hnew config mem saved state.
  destruct (get_relevant_memory_spec d user_id (text last_message)
              (tell [SentryTransaction "langgraph.get_response"] w))
    as (evs1 & mem' & Hevs1 & Hmem).
  pose (w1 := {| self := set_memory (self w) mem'; db := db w;
                 trace := (trace w ++ [SentryTransaction "langgraph.get_response"])
                          ++ evs1 |}).
  destruct (run_turn_spec d g (dump_messages msgs) mem config no_body w1 new
              (fun _ => writes_ret _ tt) Hnew) as (r & evs & Hevs & Hloop & Hrun).
  exists (SentryTransaction "langgraph.get_response" :: evs1), mem', r, evs.
  split; [by constructor |]. split; [done |]. split; [exact Hloop |].
  unfold get_response. unfold bind at 1. rewrite (ensure_graph_present d w g Hg).
  unfold bind at 1. rewrite emit_tell.
  unfold bind at 1, lift at 1, getitem_last. rewrite Hlast.
  unfold bind at 1. rewrite Hmem. simpl self in *. simpl db in *. simpl trace in *.
  unfold try_except, bind at 1, the_graph, bind at 1, get_self. simpl.
  rewrite Hg. unfold ret at 1. unfold bind at 1.
  unfold ainvoke_graph. fold config mem. fold w1.
  change (fun _ : stream_item => ret tt) with no_body. rewrite Hrun.
  destruct r as [final | e]; unfold bind, emit, ret, raise, tell, commit; simpl.
  - destruct (checkpointer g); simpl; by repeat (rewrite <- app_assoc; simpl).
  - by repeat (rewrite <- app_assoc; simpl).
Qed.


Lemma bind_ok {A B} (m : M A) (k : A -> M B) w a w1 :
  m w = (Ok a, w1) -> bind m k w = k a w1.
Proof. intros H. unfold bind. by rewrite H. Qed.

Lemma bind_raised {A B} (m : M A) (k : A -> M B) w e w1 :
  m w = (Raised e, w1) -> bind m k w = (Raised e, w1).
Proof. intros H. unfold bind. by rewrite H. Qed.

Lemma get_response_after_setup d msgs session_id user_id w w1 g :
  ensure_graph d w = (Ok tt, w1) ->
  _graph (self w1) = Some g ->
  get_response d msgs session_id user_id w = get_response d msgs session_id user_id w1.
Proof.
  intros Hsetup Hg. unfold get_response.
  rewrite (bind_ok _ _ _ _ _ Hsetup).
  by rewrite (bind_ok _ _ _ _ _ (ensure_graph_present d w1 g Hg)).
Qed.

Lemma mapM_result_exists {A B} (f : A -> result B) l :
  Exists (fun a => exists e, f a = Raised e) l -> exists e, mapM f l = Raised e.
Proof.
  induction l as [| a l IH]; intros H; [by apply Exists_nil in H |].
  simpl. destruct (f a) as [b |] eqn:Hfa; simpl; [| by eexists].
  apply Exists_cons in H as [[e He] | H]; [congruence |].
  destruct (IH H) as [e He]. rewrite He. simpl. by eexists.
Qed.

Lemma render_malformed results :
  malformed results -> exists e, render_memory results = Raised e.
Proof.
  unfold render_memory, getitem. intros [Hnone | (hits & Hhits & Hbad)].
  - rewrite Hnone. simpl. by eexists.
  - rewrite Hhits. simpl.
    destruct (mapM_result_exists
                (fun hit : memory_hit =>
                   fact ← match hit !! "memory" with
                          | Some v => Ok v
                          | None => Raised (KeyError "memory")
                          end; mret ("* " +:+ fact)) hits) as [e He].
    { eapply Exists_impl; [exact Hbad |]. intros hit Hhit. simpl in Hhit.
      rewrite Hhit. simpl. by eexists. }
    rewrite He. simpl. by eexists.
Qed.

Lemma recalled_failure d mem user_id query :
  retrieval_fails d mem user_id query -> recalled d mem user_id query = "".
Proof.
  unfold recalled.
  intros [[-> [e He]] | [[e He] | (results & Hres & Hbad)]].
  - by rewrite He.
  - rewrite He. by destruct (match mem with Some m => _ | None => _ end).
  - rewrite Hres. destruct (render_malformed results Hbad) as [e He]. rewrite He.
    by destruct (match mem with Some m => _ | None => _ end).
Qed.


(** C3. When memory retrieval fails - the memory client cannot be built,
    the search raises, or its answer is malformed - the retrieval returns
    the empty string instead of raising, and [get_response] runs the turn
    with "No relevant memory found." as long-term memory and returns the
    reply that turn produces. *)
Theorem memory_failure_is_absorbed d msgs session_id user_id w last_message :
  retrieval_fails d (memory (self w)) user_id (text last_message) ->
  (_get_relevant_memory d user_id (text last_message) w).1 = Ok ""
  /\ or_placeholder (recalled d (memory (self w)) user_id (text last_message))
     = "No relevant memory found."
  /\ (forall g new final,
        _graph (self w) = Some g ->
        last msgs = Some last_message ->
        mapM message_of_dict msgs = Ok new ->
        (pregel_loop d (make_config d session_id user_id) no_body
           (recursion_limit d) 1 chat
           {| messages := resumed g session_id (db w) ++ new;
              long_term_memory := "No relevant memory found." |} blank).1
        = Ok final ->
        (get_response d msgs session_id user_id w).1
        = Ok (__process_messages d (messages final))).
Proof.
  intros Hfails. pose proof (recalled_failure _ _ _ _ Hfails) as Hrec.
  split; [| split].
  - destruct (get_relevant_memory_spec d user_id (text last_message) w)
      as (evs & mem' & _ & Hmem).
    by rewrite Hmem, Hrec.
  - by rewrite Hrec.
  - intros g new final Hg Hlast Hnew Hturn.
    destruct (get_response_spec d msgs session_id user_id w g last_message new
                Hg Hlast Hnew) as (pre & mem' & r & evs & _ & _ & Hloop & Hresp).
    rewrite Hrec in Hloop. simpl in Hloop.
    rewrite Hloop in Hturn. simpl in Hturn. subst r.
    simpl in Hresp. by rewrite Hresp.
Qed.

Lemma memory_failure_is_absorbed_witness :
  (_get_relevant_memory Scenario.forgetful (Some "u1") "What's the weather?"
     (Scenario.ready Scenario.forgetful)).1 = Ok ""
  /\ (get_response Scenario.forgetful [Scenario.question] "S1" (Some "u1")
        (Scenario.ready Scenario.forgetful)).1
     = Ok [{| role := "user"; text := "What's the weather?" |};
           {| role := "assistant"; text := "It's 18C and cloudy in Paris." |}].
Proof.
  assert (retrieval_fails Scenario.forgetful
            (memory (self (Scenario.ready Scenario.forgetful))) (Some "u1")
            (text Scenario.question)) as Hfails.
  { right. right. exists Scenario.broken_memories. split; [reflexivity |].
    right. eexists. split; [reflexivity |]. constructor. reflexivity. }
  pose proof (memory_failure_is_absorbed Scenario.forgetful [Scenario.question]
                "S1" (Some "u1") (Scenario.ready Scenario.forgetful)
                Scenario.question Hfails) as (Hempty & _ & Hreply).
  split; [exact Hempty |].
  exact (Hreply (compiled Scenario.forgetful (Some Scenario.saver))
           [Scenario.human "What's the weather?"]
           {| messages := Scenario.transcript;
              long_term_memory := "No relevant memory found." |}
           eq_refl eq_refl eq_refl eq_refl).
Defined.

(** ** Degraded mode *)

Lemma get_stream_response_fatal d msgs session_id user_id w e evs :
  ensure_graph d (tell [SentryTransaction "langgraph.get_stream_response"] w)
  = (Raised e, tell evs (tell [SentryTransaction "langgraph.get_stream_response"] w)) ->
  get_stream_response d msgs session_id user_id w
  = (Raised e, tell (SentryTransaction "langgraph.get_stream_response" :: evs) w).
Proof.
  intros H. unfold get_stream_response.
  rewrite (bind_ok _ _ _ _ _ (emit_tell _ w)).
  rewrite (bind_raised _ _ _ _ _ H). by rewrite tell_tell.
Qed.

(** What holds of the degraded mode.  When the checkpointer cannot be
    initialised: in production
    [_get_checkpointer] logs a warning and returns no checkpointer, the
    graph is compiled without one, and [get_response] returns the reply of
    the turn, leaving the database as it was; in any other environment
    graph creation raises the initialisation error, and [get_response]
    and [get_stream_response] raise it before anything but the two error
    logs has happened. *)
Lemma degraded_mode_by_environment d e msgs session_id user_id w :
  MongoDBSaver_init d = Raised e ->
  _graph (self w) = None ->
  _checkpointer (self w) = None ->
  match ENVIRONMENT d with
  | PRODUCTION =>
      _get_checkpointer d w
      = (Ok None,
         tell [Log error "mongodb_checkpointer_creation_failed"
                 [("error", VStr (str_exn e)); ("environment", VStr "production")];
               Log warning "continuing_without_checkpointer"
                 [("environment", VStr "production")]] w)
      /\ (create_graph d w).1 = Ok (Some (compiled d None))
      /\ (forall last_message new final,
            last msgs = Some last_message ->
            mapM message_of_dict msgs = Ok new ->
            (pregel_loop d (make_config d session_id user_id) no_body
               (recursion_limit d) 1 chat
               {| messages := new;
                  long_term_memory :=
                    or_placeholder
                      (recalled d (memory (self w)) user_id (text last_message)) |}
               blank).1 = Ok final ->
            exists w',
              get_response d msgs session_id user_id w
              = (Ok (__process_messages d (messages final)), w')
              /\ db w' = db w
              /\ _graph (self w') = Some (compiled d None))
  | OtherEnvironment value =>
      let failure :=
        [Log error "mongodb_checkpointer_creation_failed"
           [("error", VStr (str_exn e)); ("environment", VStr value)];
         Log error "graph_creation_failed"
           [("error", VStr (str_exn e)); ("environment", VStr value)]] in
      (create_graph d w).1 = Raised e
      /\ get_response d msgs session_id user_id w = (Raised e, tell failure w)
      /\ get_stream_response d msgs session_id user_id w
         = (Raised e,
            tell (SentryTransaction "langgraph.get_stream_response" :: failure) w)
  end.
Proof.
  intros Hinit Hg Hc. destruct (ENVIRONMENT d) as [| value] eqn:Henv.
  - split; [by apply get_checkpointer_degraded |].
    split; [by eapply create_graph_degraded |].
    intros last_message new final Hlast Hnew Hturn.
    pose proof (ensure_graph_degraded d w e Hg Hc Hinit Henv) as Hsetup.
    rewrite (get_response_after_setup _ _ _ _ _ _ _ Hsetup eq_refl).
    match type of Hsetup with _ = (_, ?w0) => set (w1 := w0) in * end.
    destruct (get_response_spec d msgs session_id user_id w1 (compiled d None)
                last_message new eq_refl Hlast Hnew)
      as (pre & mem' & r & evs & _ & _ & Hloop & Hresp).
    simpl in Hloop. rewrite Hloop in Hturn. simpl in Hturn. subst r.
    eexists. split; [exact Hresp |]. by split.
  - intros failure. split; [by eapply create_graph_fatal |]. split.
    + unfold get_response.
      by rewrite (bind_raised _ _ _ _ _ (ensure_graph_fatal d w e value Hg Hc Hinit Henv)).
    + apply get_stream_response_fatal.
      by rewrite (ensure_graph_fatal d
                    (tell [SentryTransaction "langgraph.get_stream_response"] w)
                    e value Hg Hc Hinit Henv).
Qed.

Lemma degraded_mode_by_environment_witness :
  (exists w',
     get_response Scenario.degraded [Scenario.question] "S1" (Some "u1") Scenario.fresh
     = (Ok [{| role := "user"; text := "What's the weather?" |};
            {| role := "assistant"; text := "It's 18C and cloudy in Paris." |}], w')
     /\ db w' = db Scenario.fresh
     /\ _graph (self w') = Some (compiled Scenario.degraded None))
  /\ (get_response Scenario.failing [Scenario.question] "S1" (Some "u1") Scenario.fresh).1
     = Raised Scenario.unreachable.
Proof.
  split.
  - exact (proj2 (proj2 (degraded_mode_by_environment Scenario.degraded
                           Scenario.unreachable [Scenario.question] "S1" (Some "u1")
                           Scenario.fresh eq_refl eq_refl eq_refl))
             Scenario.question [Scenario.human "What's the weather?"]
             {| messages := Scenario.transcript;
                long_term_memory := "* Lives in Paris" |}
             eq_refl eq_refl eq_refl).
  - pose proof (degraded_mode_by_environment Scenario.failing
                  Scenario.unreachable [Scenario.question] "S1" (Some "u1")
                  Scenario.fresh eq_refl eq_refl eq_refl) as H.
    simpl in H. destruct H as (_ & H & _). by rewrite H.
Defined.


(** ** Unknown tools *)

Lemma tool_call_unknown d state before last_message done call rest contents w :
  messages state = before ++ [last_message] ->
  type last_message = AIMessage ->
  tool_calls last_message = done ++ call :: rest ->
  mapM (tool_answer d) done = Ok contents ->
  tools_by_name d !! tc_name call = None ->
  _tool_call d state w
  = (Raised (KeyError (tc_name call)), tell (map invoke_event done) w).
Proof.
  intros Hlast Htype Hcalls Hdone Hnone. unfold _tool_call.
  rewrite Hlast, getitem_last_snoc. unfold bind at 1, lift at 1.
  unfold getattr_tool_calls. rewrite Htype, Hcalls. unfold bind at 1, lift at 1.
  unfold bind. by rewrite (tool_call_loop_unknown d done call rest contents w Hdone Hnone).
Qed.

Lemma loop_after_chat d state config body fuel step w r :
  llm_answer d state = Ok r ->
  type (process_llm_response d r) = AIMessage ->
  (forall item w', (body item w').1 = Ok tt) ->
  pregel_loop d config body (S fuel) step chat state w
  = pregel_loop d config body fuel (S step)
      (match tool_calls (process_llm_response d r) with
       | [] => END
       | _ :: _ => tool_call_node
       end)
      {| messages := messages state ++ [process_llm_response d r];
         long_term_memory := long_term_memory state |}
      (superstep d config body step chat state w).2.
Proof.
  intros Hllm Htype Hbody.
  pose proof (chat_ok d state config w r Hllm Htype) as Hchat.
  simpl. unfold bind at 1, superstep, run_node, bind.
  destruct (_chat d state config w) as [rc w1]. simpl in Hchat. subst rc.
  match goal with |- context [for_each body ?items w1] =>
    pose proof (for_each_ok body items w1 Hbody) as Hfor;
    destruct (for_each body items w1) as [[[] |] w2]; simpl in Hfor; [| done]
  end.
  done.
Qed.

Lemma loop_stops_at_unknown_tool d state before last_message done call rest contents
    config body fuel step w :
  messages state = before ++ [last_message] ->
  type last_message = AIMessage ->
  tool_calls last_message = done ++ call :: rest ->
  mapM (tool_answer d) done = Ok contents ->
  tools_by_name d !! tc_name call = None ->
  pregel_loop d config body (S fuel) step tool_call_node state w
  = (Raised (KeyError (tc_name call)), tell (map invoke_event done) w).
Proof.
  intros Hlast Htype Hcalls Hdone Hnone. simpl. unfold superstep, run_node.
  rewrite (bind_raised _ _ _ _ _
             (bind_raised _ _ _ _ _
                (tool_call_unknown d state before last_message done call rest
                   contents w Hlast Htype Hcalls Hdone Hnone))).
  done.
Qed.

(** C9. A tool-execution step that meets a call whose name is not in the
    registry raises [KeyError] for that name, after the calls before it
    have been invoked once each and without invoking anything else; the
    state machine stops at that step with the same exception, and so does
    [get_response] for a turn whose first answer holds such a call. *)
Theorem unknown_tool_is_fatal d state before last_message done call rest contents
    config body fuel step w :
  messages state = before ++ [last_message] ->
  type last_message = AIMessage ->
  tool_calls last_message = done ++ call :: rest ->
  mapM (tool_answer d) done = Ok contents ->
  tools_by_name d !! tc_name call = None ->
  let failure := (@Raised Command (KeyError (tc_name call)),
                  tell (map invoke_event done) w) in
  _tool_call d state w = failure
  /\ invoked (trace failure.2) = invoked (trace w) ++ map (fun c => (tc_name c, tc_args c)) done
  /\ superstep d config body step tool_call_node state w
     = (Raised (KeyError (tc_name call)), failure.2)
  /\ pregel_loop d config body (S fuel) step tool_call_node state w
     = (Raised (KeyError (tc_name call)), failure.2)
  /\ (forall msgs session_id user_id w0 g last_input new r,
        _graph (self w0) = Some g ->
        last msgs = Some last_input ->
        mapM message_of_dict msgs = Ok new ->
        before = resumed g session_id (db w0) ++ new ->
        long_term_memory state
        = or_placeholder (recalled d (memory (self w0)) user_id (text last_input)) ->
        llm_answer d {| messages := before;
                        long_term_memory := long_term_memory state |} = Ok r ->
        process_llm_response d r = last_message ->
        2 <= recursion_limit d ->
        (get_response d msgs session_id user_id w0).1
        = Raised (KeyError (tc_name call))).
Proof.
  intros Hlast Htype Hcalls Hdone Hnone failure.
  pose proof (tool_call_unknown d state before last_message done call rest contents w
                Hlast Htype Hcalls Hdone Hnone) as Hstep.
  split; [exact Hstep |]. split; [| split; [| split]].
  - subst failure. simpl. unfold invoked. rewrite omap_app. f_equal.
    clear. induction done as [| c done IH]; simpl; [done |]. f_equal. exact IH.
  - unfold superstep, run_node. by rewrite (bind_raised _ _ _ _ _ Hstep).
  - by eapply loop_stops_at_unknown_tool.
  - intros msgs session_id user_id w0 g last_input new r Hg Hlast_in Hnew Hbefore Hmem
      Hllm Hproc Hlimit.
    destruct (get_response_spec d msgs session_id user_id w0 g last_input new
                Hg Hlast_in Hnew) as (pre & mem' & r' & evs & _ & _ & Hloop & Hresp).
    rewrite <- Hbefore, <- Hmem in Hloop.
    destruct (recursion_limit d) as [| [| limit]] eqn:Hfuel; [lia | lia |].
    assert (type (process_llm_response d r) = AIMessage) as Htype' by by rewrite Hproc.
    specialize (Hloop blank).
    rewrite (loop_after_chat d _ _ no_body (S limit) 1 blank r Hllm Htype') in Hloop;
      [| done].
    rewrite Hproc, Hcalls in Hloop. cbn [messages long_term_memory] in Hloop.
    assert (state = {| messages := before ++ [last_message];
                       long_term_memory := long_term_memory state |}) as Hstate.
    { destruct state. simpl in *. by subst. }
    rewrite <- Hstate in Hloop.
    assert (match done ++ call :: rest with [] => END | _ :: _ => tool_call_node end
            = tool_call_node) as Hnext by by destruct done.
    rewrite Hnext in Hloop.
    rewrite (loop_stops_at_unknown_tool d state before last_message done call rest
               contents _ no_body limit 2 _ Hlast Htype Hcalls Hdone Hnone) in Hloop.
    injection Hloop as <- _. by rewrite Hresp.
Qed.

Lemma unknown_tool_is_fatal_witness :
  let calls := [Scenario.weather_call; Scenario.stocks_call; Scenario.time_call] in
  let state := {| messages := [Scenario.human "What's the weather?";
                               Scenario.ai (Str "") calls];
                  long_term_memory := "* Lives in Paris" |} in
  _tool_call Scenario.misguided state Scenario.fresh
  = (Raised (KeyError "get_stocks"),
     tell [ToolInvoke "get_weather" [("city", "Paris")]] Scenario.fresh)
  /\ (get_response Scenario.misguided [Scenario.question] "S1" (Some "u1")
        (Scenario.ready Scenario.misguided)).1
     = Raised (KeyError "get_stocks").
Proof.
  intros calls state.
  pose proof (unknown_tool_is_fatal Scenario.misguided state
                [Scenario.human "What's the weather?"] (Scenario.ai (Str "") calls)
                [Scenario.weather_call] Scenario.stocks_call [Scenario.time_call]
                ["18C, cloudy"]
                (make_config Scenario.misguided "S1" (Some "u1")) no_body 3 2
                Scenario.fresh eq_refl eq_refl eq_refl eq_refl eq_refl)
    as (Hstep & _ & _ & _ & Hcaller).
  split; [exact Hstep |].
  apply (Hcaller [Scenario.question] "S1" (Some "u1")
           (Scenario.ready Scenario.misguided)
           (compiled Scenario.misguided (Some Scenario.saver)) Scenario.question
           [Scenario.human "What's the weather?"] (Scenario.ai (Str "") calls)
           eq_refl eq_refl eq_refl eq_refl eq_refl eq_refl eq_refl).
  simpl. lia.
Defined.


(** ** Clearing a session *)

Lemma count_after_delete {A} thread (coll : list (string * A)) :
  count_in_thread thread (delete_many thread coll).1 = 0.
Proof.
  unfold count_in_thread, delete_many. simpl.
  induction coll as [| doc coll IH]; simpl; [done |].
  destruct (in_thread thread doc) eqn:Hdoc; simpl; [done |].
  by rewrite Hdoc.
Qed.

Lemma delete_many_other {A} thread other (coll : list (string * A)) :
  other <> thread ->
  List.filter (in_thread other) (delete_many thread coll).1
  = List.filter (in_thread other) coll.
Proof.
  intros Hne. unfold delete_many. simpl.
  induction coll as [| doc coll IH]; simpl; [done |].
  destruct (in_thread thread doc) eqn:Hdoc; simpl.
  - destruct (in_thread other doc) eqn:Hother; [| done].
    unfold in_thread in *. apply String.eqb_eq in Hdoc, Hother. congruence.
  - destruct (in_thread other doc); by rewrite IH.
Qed.

Lemma delete_many_idempotent {A} thread (coll : list (string * A)) :
  (delete_many thread (delete_many thread coll).1).1 = (delete_many thread coll).1.
Proof.
  unfold delete_many. simpl.
  induction coll as [| doc coll IH]; simpl; [done |].
  destruct (in_thread thread doc) eqn:Hdoc; simpl; [done |].
  by rewrite Hdoc, IH.
Qed.

Lemma latest_after_delete thread database :
  latest thread {| checkpoints := (delete_many thread (checkpoints database)).1;
                   checkpoint_writes := checkpoint_writes database |} = None.
Proof.
  pose proof (count_after_delete thread (checkpoints database)) as H.
  unfold count_in_thread in H. apply nil_length_inv in H.
  unfold latest. cbn [checkpoints]. by rewrite H.
Qed.

Lemma clear_with_checkpointer d session_id w saver :
  _checkpointer (self w) = Some saver ->
  clear_chat_history d session_id w
  = (Ok tt,
     {| self := self w;
        db := cleared session_id (db w);
        trace := trace w ++
          [cleared_event session_id
             (count_in_thread session_id (checkpoints (db w)))
             (count_in_thread session_id (checkpoint_writes (db w)))] |}).
Proof.
  intros Hc. unfold clear_chat_history, try_except.
  rewrite (bind_ok _ _ _ _ _ (get_checkpointer_cached d w saver Hc)).
  reflexivity.
Qed.

Lemma clear_creating_checkpointer d session_id w saver :
  _checkpointer (self w) = None ->
  MongoDBSaver_init d = Ok saver ->
  clear_chat_history d session_id w
  = (Ok tt,
     {| self := set_checkpointer (self w) (Some saver);
        db := cleared session_id (db w);
        trace := trace w ++
          [Log info "mongodb_checkpointer_created"
             [("mongodb_db_name", VStr (MONGODB_DB_NAME d));
              ("environment", VStr (Environment_value (ENVIRONMENT d)))];
           cleared_event session_id
             (count_in_thread session_id (checkpoints (db w)))
             (count_in_thread session_id (checkpoint_writes (db w)))] |}).
Proof.
  intros Hc Hinit. unfold clear_chat_history, try_except.
  rewrite (bind_ok _ _ _ _ _ (get_checkpointer_created d w saver Hc Hinit)).
  unfold bind, get_db, set_db, emit. simpl. by rewrite <- app_assoc.
Qed.

Lemma last_two {A} (l : list A) a b : last (l ++ [a; b]) = Some b.
Proof. change [a; b] with ([a] ++ [b]). by rewrite app_assoc, last_snoc. Qed.

(** C8. With the checkpoint store reachable, [clear_chat_history] deletes
    every checkpoint and every write document of the session and no
    document of another session, and logs how many of each it deleted;
    a second call right after succeeds too, changes nothing and logs zero
    and zero. *)
Theorem clear_deletes_and_repeats d session_id w :
  store_reachable d w ->
  exists w1 w2,
    clear_chat_history d session_id w = (Ok tt, w1)
    /\ db w1 = cleared session_id (db w)
    /\ count_in_thread session_id (checkpoints (db w1)) = 0
    /\ count_in_thread session_id (checkpoint_writes (db w1)) = 0
    /\ latest session_id (db w1) = None
    /\ (forall other, other <> session_id ->
          List.filter (in_thread other) (checkpoints (db w1))
          = List.filter (in_thread other) (checkpoints (db w))
          /\ List.filter (in_thread other) (checkpoint_writes (db w1))
             = List.filter (in_thread other) (checkpoint_writes (db w)))
    /\ last (trace w1)
       = Some (cleared_event session_id
                 (count_in_thread session_id (checkpoints (db w)))
                 (count_in_thread session_id (checkpoint_writes (db w))))
    /\ clear_chat_history d session_id w1 = (Ok tt, w2)
    /\ db w2 = db w1
    /\ trace w2 = trace w1 ++ [cleared_event session_id 0 0].
Proof.
  intros Hreach.
  assert (exists w1 saver,
            clear_chat_history d session_id w = (Ok tt, w1)
            /\ db w1 = cleared session_id (db w)
            /\ _checkpointer (self w1) = Some saver
            /\ last (trace w1)
               = Some (cleared_event session_id
                         (count_in_thread session_id (checkpoints (db w)))
                         (count_in_thread session_id (checkpoint_writes (db w)))))
    as (w1 & saver & Hfirst & Hdb & Hsaver & Hlog).
  { destruct (_checkpointer (self w)) as [saver |] eqn:Hc.
    - eexists _, saver. split; [by apply (clear_with_checkpointer d session_id w saver) |].
      simpl. split; [done |]. split; [done |]. by rewrite last_snoc.
    - destruct Hreach as [Hsome | [saver Hinit]]; [done |].
      eexists _, saver. split; [by apply (clear_creating_checkpointer d session_id w saver) |].
      simpl. split; [done |]. split; [done |].
      apply last_two. }
  eexists w1, _. split; [exact Hfirst |]. split; [exact Hdb |].
  rewrite Hdb. unfold cleared at 1 2 3 4 5. cbn [checkpoints checkpoint_writes].
  split; [apply count_after_delete |]. split; [apply count_after_delete |].
  split.
  { unfold latest, cleared. cbn [checkpoints].
    pose proof (count_after_delete session_id (checkpoints (db w))) as H.
    unfold count_in_thread in H. apply nil_length_inv in H. by rewrite H. }
  split.
  { intros other Hne. split; by apply delete_many_other. }
  split; [exact Hlog |].
  rewrite (clear_with_checkpointer d session_id w1 saver Hsaver).
  split; [reflexivity |]. simpl. rewrite Hdb. split.
  - unfold cleared. cbn [checkpoints checkpoint_writes].
    by rewrite !delete_many_idempotent.
  - unfold cleared. cbn [checkpoints checkpoint_writes].
    by rewrite !count_after_delete.
Qed.

Lemma clear_deletes_and_repeats_witness :
  let w := (get_response Scenario.healthy [Scenario.question] "S1" (Some "u1")
              Scenario.fresh).2 in
  count_in_thread "S1" (checkpoints (db w)) = 1
  /\ exists w1 w2,
       clear_chat_history Scenario.healthy "S1" w = (Ok tt, w1)
       /\ db w1 = {| checkpoints := []; checkpoint_writes := [] |}
       /\ last (trace w1) = Some (cleared_event "S1" 1 1)
       /\ clear_chat_history Scenario.healthy "S1" w1 = (Ok tt, w2)
       /\ trace w2 = trace w1 ++ [cleared_event "S1" 0 0].
Proof.
  intros w. split; [reflexivity |].
  destruct (clear_deletes_and_repeats Scenario.healthy "S1" w
              (or_intror (ex_intro _ Scenario.saver eq_refl)))
    as (w1 & w2 & H1 & Hdb & _ & _ & _ & _ & Hlog & H2 & _ & Htrace).
  exists w1, w2. repeat split; try done.
Defined.


(** ** History *)



Lemma latest_append thread final written database :
  latest thread (append_checkpoint thread final written database) = Some final.
Proof.
  unfold latest, append_checkpoint. cbn [checkpoints].
  rewrite List.filter_app. cbn [List.filter]. unfold in_thread at 2. cbn [fst].
  rewrite String.eqb_refl. by rewrite last_snoc.
Qed.

Lemma get_chat_history_spec d session_id w g saver :
  _graph (self w) = Some g ->
  checkpointer g = Some saver ->
  get_chat_history d session_id w
  = (Ok (__process_messages d (stored session_id (db w))), w).
Proof.
  intros Hg Hsaver. unfold get_chat_history.
  rewrite (bind_ok _ _ _ _ _ (ensure_graph_present d w g Hg)).
  unfold the_graph, bind, get_self, get_state, get_db. rewrite Hg. simpl.
  rewrite Hsaver. unfold stored, bind, ret. simpl.
  by destruct (latest session_id (db w)).
Qed.

(** The state machine only appends to the conversation and keeps the
    long-term memory; a run that ends has gone through a chat step that
    answered without tool calls. *)
Lemma superstep_extends d config body step n state w next state' w' :
  superstep d config body step n state w = (Ok (next, state'), w') ->
  exists produced,
    messages state' = messages state ++ produced
    /\ long_term_memory state' = long_term_memory state.
Proof.
  unfold superstep, bind. intros H.
  destruct (run_node d config n state w) as [[command |] w1]; [| done].
  destruct (for_each body _ w1) as [[[] |] w2]; [| done].
  injection H as <- <- <-. by exists (update command).
Qed.

Lemma chat_ends_complete d state config w command w' :
  _chat d state config w = (Ok command, w') ->
  goto command = END ->
  exists answer, update command = [answer]
                 /\ type answer = AIMessage /\ tool_calls answer = [].
Proof.
  unfold _chat, try_except, bind, emit, lift, ret, raise. simpl.
  destruct (llm_service_call d _) as [r |]; simpl; [| done].
  unfold getattr_tool_calls.
  destruct (type (process_llm_response d r)) eqn:Htype; simpl; try done.
  destruct (tool_calls (process_llm_response d r)) eqn:Hcalls; simpl.
  - intros H _. injection H as <- _. by exists (process_llm_response d r).
  - intros H Hgoto. injection H as <- _. done.
Qed.

Lemma tool_call_goes_to_chat d state w command w' :
  _tool_call d state w = (Ok command, w') -> goto command = chat.
Proof.
  unfold _tool_call, bind, lift, ret.
  destruct (getitem_last (messages state)) as [m |]; [| done].
  destruct (getattr_tool_calls m) as [calls |]; [| done].
  destruct (tool_call_loop d calls [] w) as [[outputs |] w1]; [| done].
  by intros [= <- _].
Qed.

Lemma loop_at_END d config body fuel step state w :
  pregel_loop d config body fuel step END state w = (Ok state, w).
Proof. by destruct fuel. Qed.

Lemma superstep_inv d config body step n state w next state' w' :
  superstep d config body step n state w = (Ok (next, state'), w') ->
  exists command w1,
    run_node d config n state w = (Ok command, w1)
    /\ next = goto command /\ state' = apply_update state command.
Proof.
  unfold superstep, bind. intros H.
  destruct (run_node d config n state w) as [[command |] w1]; [| done].
  destruct (for_each body _ w1) as [[[] |] w2]; [| done].
  injection H as <- <- <-. by exists command, w1.
Qed.

Lemma loop_extends d config body fuel step n state w final w' :
  pregel_loop d config body fuel step n state w = (Ok final, w') ->
  exists produced,
    messages final = messages state ++ produced
    /\ long_term_memory final = long_term_memory state
    /\ (n <> END -> turn_complete final).
Proof.
  revert step n state w.
  induction fuel as [| fuel IH]; intros step n state w H.
  - destruct n; simpl in H; try done.
    injection H as <- _. exists []. by rewrite app_nil_r.
  - destruct (decide (n = END)) as [-> | Hn].
    { rewrite loop_at_END in H. injection H as <- _.
      exists []. by rewrite app_nil_r. }
    assert (pregel_loop d config body (S fuel) step n state w
            = bind (superstep d config body step n state)
                (fun next => pregel_loop d config body fuel (S step) next.1 next.2) w)
      as Hunfold by by destruct n.
    rewrite Hunfold in H. clear Hunfold. unfold bind at 1 in H.
    destruct (superstep d config body step n state w)
      as [[[next state'] |] w1] eqn:Hstep; [| done].
    simpl in H.
    destruct (superstep_extends _ _ _ _ _ _ _ _ _ _ Hstep) as (p1 & Hm1 & Hl1).
    destruct (IH _ _ _ _ H) as (p2 & Hm2 & Hl2 & Hdone).
    exists (p1 ++ p2). rewrite Hm2, Hm1, Hl2, Hl1, app_assoc.
    split; [done |]. split; [done |]. intros _.
    destruct (decide (next = END)) as [-> | Hnext]; [| by apply Hdone].
    rewrite loop_at_END in H. injection H as <- _.
    destruct (superstep_inv _ _ _ _ _ _ _ _ _ _ Hstep)
      as (command & w0 & Hnode & Hgoto & ->).
    destruct n; [| | done].
    + destruct (chat_ends_complete _ _ _ _ _ _ Hnode (eq_sym Hgoto))
        as (answer & Hupd & Htype & Hcalls).
      exists answer. unfold apply_update, add_messages. simpl.
      by rewrite Hupd, last_snoc.
    + by rewrite (tool_call_goes_to_chat _ _ _ _ _ Hnode) in Hgoto.
Qed.

Lemma get_response_no_input d msgs session_id user_id w g :
  _graph (self w) = Some g ->
  last msgs = None ->
  get_response d msgs session_id user_id w
  = (Raised (IndexError "list index out of range"),
     tell [SentryTransaction "langgraph.get_response"] w).
Proof.
  intros Hg Hlast. unfold get_response.
  rewrite (bind_ok _ _ _ _ _ (ensure_graph_present d w g Hg)).
  rewrite (bind_ok _ _ _ _ _ (emit_tell _ w)).
  unfold bind, lift, getitem_last. by rewrite Hlast.
Qed.

Lemma get_response_bad_input d msgs session_id user_id w g last_message e :
  _graph (self w) = Some g ->
  last msgs = Some last_message ->
  mapM message_of_dict msgs = Raised e ->
  exists pre mem',
    Forall prelude_event pre /\
    get_response d msgs session_id user_id w
    = (Raised e,
       {| self := set_memory (self w) mem'; db := db w;
          trace := trace w ++ pre ++
            [SentryContext "langgraph_error" session_id user_id (length msgs);
             Log error ("Error getting response: " +:+ str_exn e) []] |}).
Proof.
  intros Hg Hlast Hbad.
  destruct (get_relevant_memory_spec d user_id (text last_message)
              (tell [SentryTransaction "langgraph.get_response"] w))
    as (evs1 & mem' & Hevs1 & Hmem).
  exists (SentryTransaction "langgraph.get_response" :: evs1), mem'.
  split; [by constructor |].
  unfold get_response.
  rewrite (bind_ok _ _ _ _ _ (ensure_graph_present d w g Hg)).
  rewrite (bind_ok _ _ _ _ _ (emit_tell _ w)).
  unfold bind at 1, lift at 1, getitem_last. rewrite Hlast.
  rewrite (bind_ok _ _ _ _ _ Hmem).
  unfold try_except, bind at 1, the_graph, bind at 1, get_self. simpl.
  rewrite Hg. unfold ret at 1. unfold bind at 1, ainvoke_graph.
  rewrite (run_turn_bad_input _ _ _ _ _ _ _ _ Hbad).
  unfold bind, emit, raise. simpl. by repeat (rewrite <- app_assoc; simpl).
Qed.





(** ** Streaming *)

Lemma yielded_app evs1 evs2 : yielded (evs1 ++ evs2) = yielded evs1 ++ yielded evs2.
Proof. apply omap_app. Qed.

Lemma yielded_step_events evs : Forall step_event evs -> yielded evs = [].
Proof.
  induction 1 as [| ev evs Hev _ IH]; [done |].
  destruct ev; try done; exact IH.
Qed.

Lemma yielded_prelude_events evs : Forall prelude_event evs -> yielded evs = [].
Proof.
  induction 1 as [| ev evs Hev _ IH]; [done |].
  destruct ev; try done; exact IH.
Qed.

Lemma yielded_yields (items : list stream_item) :
  yielded (map (fun item => Yield (item_content item)) items) = map item_content items.
Proof. induction items as [| item items IH]; [done |]. simpl. f_equal. exact IH. Qed.

Lemma for_each_yield items w :
  for_each yield_body items w
  = (Ok tt, tell (map (fun item => Yield (item_content item)) items) w).
Proof.
  revert w. induction items as [| item items IH]; intros w; simpl.
  - unfold ret. by rewrite tell_nil.
  - unfold bind, yield_body at 1. rewrite emit_tell, IH, tell_tell. done.
Qed.

(** Every item of the stream is yielded, in order, whatever node and step
    it comes from, and nothing else is. *)
Lemma loop_yields d config fuel step n state w :
  yielded (trace (pregel_loop d config yield_body fuel step n state w).2)
  = yielded (trace w) ++ map item_content (stream_of d config fuel step n state).
Proof.
  revert step n state w.
  induction fuel as [| fuel IH]; intros step n state w.
  - destruct n; simpl; by rewrite app_nil_r.
  - destruct (decide (n = END)) as [-> | Hn]; [simpl; by rewrite app_nil_r |].
    assert (pregel_loop d config yield_body (S fuel) step n state w
            = bind (superstep d config yield_body step n state)
                (fun next => pregel_loop d config yield_body fuel (S step) next.1 next.2) w)
      as -> by by destruct n.
    assert (stream_of d config (S fuel) step n state
            = match (run_node d config n state blank).1 with
              | Ok command =>
                  items_of d n step command
                  ++ stream_of d config fuel (S step) (goto command)
                       (apply_update state command)
              | Raised _ => []
              end) as -> by by destruct n.
    destruct (node_writes d config n state) as (r & evs & Hevs & Hnode).
    unfold bind at 1, superstep, bind at 1. rewrite !Hnode. cbn [fst].
    destruct r as [command | e].
    + unfold bind at 1. rewrite for_each_yield. unfold ret at 1. cbn [fst snd].
      rewrite IH, !tell_tell. cbn [tell trace].
      rewrite !yielded_app, (yielded_step_events evs Hevs), yielded_yields.
      rewrite map_app. simpl. by rewrite <- app_assoc.
    + cbn [snd tell trace].
      by rewrite yielded_app, (yielded_step_events evs Hevs).
Qed.

Lemma run_turn_unfold d g input mem config body w new :
  mapM message_of_dict input = Ok new ->
  run_turn d g input mem config body w
  = match pregel_loop d config body (recursion_limit d) 1 chat
            {| messages := resumed g (thread_id config) (db w) ++ new;
               long_term_memory := mem |} w with
    | (Ok final, w3) =>
        (Ok final,
         {| self := self w3;
            db := db (commit g (thread_id config)
                        (length (resumed g (thread_id config) (db w))) final w3);
            trace := trace w3 ++ commit_events g (thread_id config) final |})
    | (Raised e, w3) => (Raised e, w3)
    end.
Proof.
  intros Hnew. unfold run_turn, bind, get_db, set_db, lift, emit, ret. rewrite Hnew.
  unfold resumed, commit, commit_events, stored, add_messages.
  destruct (checkpointer g);
    destruct (pregel_loop _ _ _ _ _ _ _ _) as [[final | e] w3]; try done.
  simpl. destruct w3. simpl. by rewrite app_nil_r.
Qed.

(** [get_stream_response], consumed to its end, once the graph is set
    up: memory retrieval, the streamed turn, then the read-back of the
    state and the scheduling of the memory update. *)
Lemma get_stream_response_unfold d msgs session_id user_id w w1 g last_message :
  ensure_graph d (tell [SentryTransaction "langgraph.get_stream_response"] w)
  = (Ok tt, w1) ->
  _graph (self w1) = Some g ->
  last msgs = Some last_message ->
  let config := make_config d session_id user_id in
  let mem := or_placeholder (recalled d (memory (self w1)) user_id (text last_message)) in
  exists pre mem',
    Forall prelude_event pre /\
    let w2 := {| self := set_memory (self w1) mem'; db := db w1;
                 trace := trace w1 ++ pre |} in
    get_stream_response d msgs session_id user_id w
    = match run_turn d g (dump_messages msgs) mem config yield_body w2 with
      | (Ok final, w3) =>
          match checkpointer g with
          | Some _ =>
              match latest session_id (db w3) with
              | Some values =>
                  (Ok tt,
                   tell [TaskCreated user_id
                           (convert_to_openai_messages (messages values))
                           (metadata config)] w3)
              | None => (Ok tt, w3)
              end
          | None =>
              (Raised (ValueError "No checkpointer set"),
               tell (stream_failure session_id user_id (length msgs)
                       (ValueError "No checkpointer set")) w3)
          end
      | (Raised e, w3) =>
          (Raised e, tell (stream_failure session_id user_id (length msgs) e) w3)
      end.
Proof.
  intros Hsetup Hg Hlast config mem.
  destruct (get_relevant_memory_spec d user_id (text last_message) w1)
    as (pre & mem' & Hpre & Hmem).
  exists pre, mem'. split; [done |]. intros w2.
  unfold get_stream_response.
  rewrite (bind_ok _ _ _ _ _ (emit_tell _ w)).
  rewrite (bind_ok _ _ _ _ _ Hsetup).
  unfold bind at 1, lift at 1, getitem_last. rewrite Hlast.
  rewrite (bind_ok _ _ _ _ _ Hmem). fold w2.
  unfold try_except, bind at 1, the_graph, bind at 1, get_self.
  assert (_graph (self w2) = Some g) as -> by (by destruct w1 as [[? ? ?] ? ?]).
  unfold ret at 1. unfold astream, bind at 1, bind at 1.
  fold config mem.
  change (fun item : stream_item => emit (Yield (content (token item)))) with yield_body.
  destruct (run_turn d g (dump_messages msgs) mem config yield_body w2)
    as [[final | e] w3]; [| by unfold bind, emit, raise, stream_failure, tell; simpl;
                              repeat (rewrite <- app_assoc; simpl)].
  unfold ret at 1. unfold bind at 1, get_state.
  destruct (checkpointer g).
  - unfold bind at 1, get_db, ret. simpl.
    by destruct (latest session_id (db w3)).
  - unfold raise at 1, bind, emit, raise, stream_failure, tell. simpl.
    by repeat (rewrite <- app_assoc; simpl).
Qed.

Lemma yielded_commit_events g thread final : yielded (commit_events g thread final) = [].
Proof. unfold commit_events. by destruct (checkpointer g). Qed.

(** What the stream yields.  [get_stream_response] yields the content of
    every item of the runtime's message stream, in order and unfiltered:
    the chunks of every chat step, final or not, and the tool messages of
    every tool-execution step. *)
Lemma stream_yields_every_item d msgs session_id user_id w g last_message new :
  _graph (self w) = Some g ->
  last msgs = Some last_message ->
  mapM message_of_dict msgs = Ok new ->
  let config := make_config d session_id user_id in
  let state :=
    {| messages := resumed g session_id (db w) ++ new;
       long_term_memory :=
         or_placeholder (recalled d (memory (self w)) user_id (text last_message)) |} in
  yielded (trace (get_stream_response d msgs session_id user_id w).2)
  = yielded (trace w)
    ++ map item_content (stream_of d config (recursion_limit d) 1 chat state).
Proof.
  intros Hg Hlast Hnew config state.
  destruct (get_stream_response_unfold d msgs session_id user_id w
              (tell [SentryTransaction "langgraph.get_stream_response"] w) g last_message
              (ensure_graph_present d
                 (tell [SentryTransaction "langgraph.get_stream_response"] w) g Hg)
              Hg Hlast)
    as (pre & mem' & Hpre & Heq).
  cbn zeta in Heq. rewrite Heq. clear Heq.
  rewrite (run_turn_unfold d g _ _ _ _ _ new Hnew).
  cbn [db self thread_id make_config tell].
  match goal with |- context [pregel_loop d ?c yield_body ?f 1 chat ?s ?w2] =>
    pose proof (loop_yields d c f 1 chat s w2) as Hy;
    destruct (pregel_loop d c yield_body f 1 chat s w2) as [[final | e] w3]
  end.
  - cbn [snd trace tell] in Hy.
    rewrite yielded_app, (yielded_prelude_events pre Hpre), app_nil_r in Hy.
    rewrite yielded_app in Hy. simpl in Hy.
    rewrite app_nil_r in Hy.
    assert (forall (A : Type) (r : result A) extra w4,
              yielded extra = [] ->
              trace w4 = trace w3 ++ commit_events g session_id final ++ extra ->
              yielded (trace (r, w4).2)
              = yielded (trace w)
                ++ map item_content (stream_of d config (recursion_limit d) 1 chat state))
      as Hdone.
    { intros A r extra w4 Hextra Htrace. simpl. rewrite Htrace, !yielded_app.
      by rewrite yielded_commit_events, Hextra, Hy, !app_nil_r. }
    destruct (checkpointer g); [destruct (latest session_id _) |].
    + eapply (Hdone _ _ [TaskCreated _ _ _]); [done |].
      simpl. by rewrite <- app_assoc.
    + eapply (Hdone _ _ []); [done |]. simpl. by rewrite app_nil_r.
    + eapply (Hdone _ _ (stream_failure _ _ _ _)); [done |].
      simpl. by rewrite <- app_assoc.
  - cbn [snd trace tell] in *.
    rewrite yielded_app, (yielded_prelude_events pre Hpre), app_nil_r in Hy.
    rewrite yielded_app in Hy. simpl in Hy. rewrite app_nil_r in Hy.
    rewrite yielded_app. simpl. by rewrite app_nil_r.
Qed.

Lemma stream_yields_every_item_witness :
  yielded (trace (get_stream_response Scenario.healthy [Scenario.question] "S1"
                    (Some "u1") (Scenario.ready Scenario.healthy)).2)
  = [Str ""; Str "18C, cloudy"; Str "It's 18C and cloudy in Paris."].
Proof.
  exact (stream_yields_every_item Scenario.healthy [Scenario.question] "S1" (Some "u1")
           (Scenario.ready Scenario.healthy)
           (compiled Scenario.healthy (Some Scenario.saver)) Scenario.question
           [Scenario.human "What's the weather?"] eq_refl eq_refl eq_refl).
Defined.

(** C6, at the failing input: the weather scenario, streamed.  The
    stream of the turn yields the (empty) chunk of the chat step that asked
    for the tool and then the result of the tool, "18C, cloudy", before the
    tokens of the final chat step, which are all the claim and the
    docstring of [get_stream_response] ("Tokens of the LLM response")
    allow; the single-shot reply to the same request does not show the
    tool result. *)
Lemma stream_yields_tool_round_tokens :
  let run := get_stream_response Scenario.healthy [Scenario.question] "S1" (Some "u1")
               Scenario.fresh in
  let items := stream_of Scenario.healthy (make_config Scenario.healthy "S1" (Some "u1"))
                 25 1 chat
                 {| messages := [Scenario.human "What's the weather?"];
                    long_term_memory := "* Lives in Paris" |} in
  run.1 = Ok tt
  /\ yielded (trace run.2)
     = [Str ""; Str "18C, cloudy"; Str "It's 18C and cloudy in Paris."]
  /\ map item_content items = yielded (trace run.2)
  /\ final_chat_tokens items = [Str "It's 18C and cloudy in Paris."]
  /\ yielded (trace run.2) <> final_chat_tokens items
  /\ (get_response Scenario.healthy [Scenario.question] "S1" (Some "u1") Scenario.fresh).1
     = Ok [{| role := "user"; text := "What's the weather?" |};
           {| role := "assistant"; text := "It's 18C and cloudy in Paris." |}].
Proof.
  intros run items. split; [reflexivity |]. split; [reflexivity |].
  split; [reflexivity |]. split; [reflexivity |]. split; [| reflexivity].
  intros H. vm_compute in H. discriminate H.
Qed.


(** ** Scheduling of the memory update *)

Lemma prelude_unscheduled evs : Forall prelude_event evs -> Forall unscheduled evs.
Proof. intros H. eapply Forall_impl; [exact H |]. intros ev Hev. by destruct ev. Qed.

Lemma node_unscheduled evs : Forall node_event evs -> Forall unscheduled evs.
Proof. intros H. eapply Forall_impl; [exact H |]. intros ev Hev. by destruct ev. Qed.

Lemma trace_commit g thread n final w :
  trace (commit g thread n final w) = trace w ++ commit_events g thread final.
Proof.
  unfold commit, commit_events. destruct (checkpointer g); [done |].
  by rewrite app_nil_r.
Qed.

Lemma latest_commit g saver thread n final w :
  checkpointer g = Some saver ->
  latest thread (db (commit g thread n final w)) = Some final.
Proof. intros H. unfold commit. rewrite H. apply latest_append. Qed.

Lemma self_commit g thread n final w : self (commit g thread n final w) = self w.
Proof. unfold commit. by destruct (checkpointer g). Qed.

(** The outcomes of [get_response] on an agent whose graph is set up. *)
Lemma get_response_graph_cases d msgs session_id user_id w g :
  _graph (self w) = Some g ->
  (exists e w' evs,
     get_response d msgs session_id user_id w = (Raised e, w')
     /\ trace w' = trace w ++ evs /\ Forall unscheduled evs)
  \/ (exists final earlier mem',
        Forall unscheduled earlier /\ turn_complete final /\
        get_response d msgs session_id user_id w
        = (Ok (__process_messages d (messages final)),
           tell [TaskCreated user_id (convert_to_openai_messages (messages final))
                   (metadata (make_config d session_id user_id))]
             (commit g session_id (length (resumed g session_id (db w))) final
                {| self := set_memory (self w) mem'; db := db w;
                   trace := trace w ++ earlier |}))).
Proof.
  intros Hg.
  destruct (last msgs) as [last_message |] eqn:Hlast.
  2: { left. eexists _, _, _.
       split; [by apply (get_response_no_input d msgs session_id user_id w g) |].
       split; [done |]. by repeat constructor. }
  destruct (mapM message_of_dict msgs) as [new | e] eqn:Hnew.
  2: { destruct (get_response_bad_input d msgs session_id user_id w g last_message e
                   Hg Hlast Hnew) as (pre & mem' & Hpre & Hbad).
       left. eexists _, _, _. split; [exact Hbad |]. split; [done |].
       apply Forall_app. split; [by apply prelude_unscheduled | by repeat constructor]. }
  destruct (get_response_spec d msgs session_id user_id w g last_message new
              Hg Hlast Hnew) as (pre & mem' & r & evs & Hpre & Hevs & Hloop & Hspec).
  assert (Forall unscheduled (pre ++ evs)) as Hearlier.
  { apply Forall_app. split; [by apply prelude_unscheduled | by apply node_unscheduled]. }
  destruct r as [final | e].
  - right. exists final, (pre ++ evs), mem'. split; [done |]. split; [| exact Hspec].
    destruct (loop_extends _ _ _ _ _ _ _ _ _ _ (Hloop blank)) as (_ & _ & _ & Hdone).
    by apply Hdone.
  - left. eexists _, _, _. split; [exact Hspec |]. cbn [tell trace].
    split; [by rewrite <- app_assoc |].
    apply Forall_app. split; [done | by repeat constructor].
Qed.

Lemma get_response_cases d msgs session_id user_id w :
  (exists e w' evs,
     get_response d msgs session_id user_id w = (Raised e, w')
     /\ trace w' = trace w ++ evs /\ Forall unscheduled evs)
  \/ (exists g final earlier w',
        get_response d msgs session_id user_id w
        = (Ok (__process_messages d (messages final)), w')
        /\ _graph (self w') = Some g
        /\ Forall unscheduled earlier
        /\ turn_complete final
        /\ trace w' = trace w ++ earlier ++ commit_events g session_id final
                      ++ [TaskCreated user_id
                            (convert_to_openai_messages (messages final))
                            (metadata (make_config d session_id user_id))]
        /\ (forall saver, checkpointer g = Some saver ->
              latest session_id (db w') = Some final)).
Proof.
  destruct (ensure_graph_spec d w) as (evs0 & cp & Hevs0 & [[g Hsetup] | [e Hsetup]]).
  2: { left. eexists _, _, _. unfold get_response.
       rewrite (bind_raised _ _ _ _ _ Hsetup). split; [done |].
       split; [done | by apply prelude_unscheduled]. }
  rewrite (get_response_after_setup _ _ _ _ _ _ g Hsetup eq_refl).
  match type of Hsetup with _ = (_, ?w0) => set (w1 := w0) in * end.
  destruct (get_response_graph_cases d msgs session_id user_id w1 g eq_refl)
    as [(e & w' & evs & Hresp & Htrace & Hevs)
       | (final & earlier & mem' & Hearlier & Hdone & Hresp)].
  - left. exists e, w', (evs0 ++ evs). split; [done |].
    split; [rewrite Htrace; unfold w1; cbn [trace]; by rewrite <- app_assoc |].
    apply Forall_app. split; [by apply prelude_unscheduled | done].
  - right. eexists g, final, (evs0 ++ earlier), _. split; [exact Hresp |].
    split; [cbn [tell self]; rewrite self_commit; reflexivity |].
    split; [apply Forall_app; split; [by apply prelude_unscheduled | done] |].
    split; [done |]. split.
    + cbn [tell trace]. rewrite trace_commit. unfold w1. cbn [trace].
      by rewrite <- !app_assoc.
    + intros saver Hsaver. cbn [tell db]. by apply (latest_commit g saver).
Qed.

Ltac solve_unscheduled :=
  repeat match goal with
         | |- Forall _ (_ ++ _) => apply Forall_app; split
         | |- Forall _ (stream_failure _ _ _ _) => unfold stream_failure
         | |- Forall _ (_ :: _) => constructor
         | |- Forall _ [] => constructor
         | H : Forall unscheduled ?l |- Forall unscheduled ?l => exact H
         | |- unscheduled _ => by split
         end.

Lemma get_stream_response_cases d msgs session_id user_id w :
  (exists e w' evs,
     get_stream_response d msgs session_id user_id w = (Raised e, w')
     /\ trace w' = trace w ++ evs /\ Forall unscheduled evs)
  \/ (exists g saver final earlier w',
        get_stream_response d msgs session_id user_id w = (Ok tt, w')
        /\ _graph (self w') = Some g
        /\ checkpointer g = Some saver
        /\ Forall unscheduled earlier
        /\ turn_complete final
        /\ trace w' = trace w ++ earlier
                      ++ [CheckpointPut session_id final;
                          TaskCreated user_id
                            (convert_to_openai_messages (messages final))
                            (metadata (make_config d session_id user_id))]
        /\ latest session_id (db w') = Some final).
Proof.
  pose (ws := tell [SentryTransaction "langgraph.get_stream_response"] w).
  assert (Forall unscheduled [SentryTransaction "langgraph.get_stream_response"])
    as Hsentry by by repeat constructor.
  destruct (ensure_graph_spec d ws) as (evs0 & cp & Hevs0 & [[g Hsetup] | [e Hsetup]]).
  2: { left. eexists _, _, _. unfold get_stream_response.
       rewrite (bind_ok _ _ _ _ _ (emit_tell _ w)). fold ws.
       rewrite (bind_raised _ _ _ _ _ Hsetup). split; [done |].
       apply prelude_unscheduled in Hevs0.
       unfold ws. cbn [trace tell]. split; [by rewrite <- app_assoc |].
       solve_unscheduled. }
  match type of Hsetup with _ = (_, ?w0) => set (w1 := w0) in * end.
  apply prelude_unscheduled in Hevs0.
  destruct (last msgs) as [last_message |] eqn:Hlast.
  2: { left. eexists _, _, _. unfold get_stream_response.
       rewrite (bind_ok _ _ _ _ _ (emit_tell _ w)). fold ws.
       rewrite (bind_ok _ _ _ _ _ Hsetup).
       unfold bind, lift, getitem_last. rewrite Hlast. split; [done |].
       unfold w1, ws. cbn [trace tell]. split; [by rewrite <- app_assoc |].
       solve_unscheduled. }
  destruct (get_stream_response_unfold d msgs session_id user_id w w1 g last_message
              Hsetup eq_refl Hlast) as (pre & mem' & Hpre & Heq).
  cbn zeta in Heq. rewrite Heq. clear Heq. apply prelude_unscheduled in Hpre.
  match goal with |- context [run_turn d g _ ?mem ?config yield_body ?w0] =>
    set (w2 := w0); set (m := mem); set (c := config) end.
  assert (trace w2 = trace w ++ ([SentryTransaction "langgraph.get_stream_response"]
                                 ++ evs0 ++ pre)) as Hw2.
  { unfold w2, w1, ws. cbn [trace tell]. by rewrite <- !app_assoc. }
  assert (Forall unscheduled ([SentryTransaction "langgraph.get_stream_response"]
                              ++ evs0 ++ pre)) as Hpre2.
  { solve_unscheduled. }
  destruct (mapM message_of_dict msgs) as [new | e] eqn:Hnew.
  2: { rewrite (run_turn_bad_input d g (dump_messages msgs) m c yield_body w2 e Hnew).
       left. eexists _, _, _. split; [done |]. cbn [tell trace]. rewrite Hw2.
       split; [by rewrite <- app_assoc |].
       solve_unscheduled. }
  destruct (run_turn_spec d g (dump_messages msgs) m c yield_body w2 new
              yield_body_writes Hnew) as (r & evs & Hevs & Hloop & Hrun).
  apply node_unscheduled in Hevs. rewrite Hrun. clear Hrun.
  destruct r as [final | e].
  2: { left. eexists _, _, _. split; [done |]. cbn [tell trace]. rewrite Hw2.
       split; [by rewrite <- !app_assoc |].
       solve_unscheduled. }
  destruct (checkpointer g) as [saver |] eqn:Hsaver.
  2: { left. eexists _, _, _. split; [done |]. cbn [tell trace].
       rewrite trace_commit. unfold commit_events. rewrite Hsaver.
       cbn [tell trace]. rewrite Hw2.
       split; [by rewrite <- !app_assoc |].
       solve_unscheduled. }
  rewrite (latest_commit g saver _ _ _ _ Hsaver).
  right.
  eexists g, saver, final,
    (([SentryTransaction "langgraph.get_stream_response"] ++ evs0 ++ pre) ++ evs), _.
  split; [done |].
  split; [cbn [tell self]; rewrite self_commit; reflexivity |]. split; [done |].
  split; [solve_unscheduled |].
  split.
  { destruct (loop_extends _ _ _ _ _ _ _ _ _ _ (Hloop blank)) as (_ & _ & _ & Hdone).
    by apply Hdone. }
  split.
  - cbn [tell trace]. rewrite trace_commit. unfold commit_events. rewrite Hsaver.
    cbn [tell trace]. rewrite Hw2. unfold c. cbn [make_config thread_id].
    by rewrite <- !app_assoc.
  - cbn [tell db]. by apply (latest_commit g saver).
Qed.

(** C7. The memory update is scheduled once per completed turn and last:
    in [get_response] after the run of the turn and after the commit of
    its final state (when the graph has a checkpointer), in
    [get_stream_response] after the stream is exhausted and the final
    state is committed, with the state read back from the store.  The
    update is given the messages of that final state, which ends with the
    assistant's answer without tool calls; a call that raises schedules
    nothing. *)
Theorem memory_update_follows_final_state d msgs session_id user_id w :
  (forall reply w',
     get_response d msgs session_id user_id w = (Ok reply, w') ->
     exists g final earlier,
       _graph (self w') = Some g
       /\ trace w' = trace w ++ earlier ++ commit_events g session_id final
                     ++ [TaskCreated user_id
                           (convert_to_openai_messages (messages final))
                           (metadata (make_config d session_id user_id))]
       /\ Forall unscheduled earlier
       /\ turn_complete final
       /\ reply = __process_messages d (messages final)
       /\ (forall saver, checkpointer g = Some saver ->
             latest session_id (db w') = Some final))
  /\ (forall w',
        get_stream_response d msgs session_id user_id w = (Ok tt, w') ->
        exists g saver final earlier,
          _graph (self w') = Some g
          /\ checkpointer g = Some saver
          /\ trace w' = trace w ++ earlier
                        ++ [CheckpointPut session_id final;
                            TaskCreated user_id
                              (convert_to_openai_messages (messages final))
                              (metadata (make_config d session_id user_id))]
          /\ Forall unscheduled earlier
          /\ turn_complete final
          /\ latest session_id (db w') = Some final)
  /\ (forall e w',
        get_response d msgs session_id user_id w = (Raised e, w')
        \/ get_stream_response d msgs session_id user_id w = (Raised e, w') ->
        exists evs, trace w' = trace w ++ evs
                    /\ Forall (fun ev => is_TaskCreated ev = false) evs).
Proof.
  assert (forall evs, Forall unscheduled evs ->
                      Forall (fun ev => is_TaskCreated ev = false) evs) as Hquiet.
  { intros evs H. eapply Forall_impl; [exact H |]. by intros ev [? _]. }
  split; [| split].
  - intros reply w' Hresp.
    destruct (get_response_cases d msgs session_id user_id w)
      as [(e & w1 & evs & H & _) | (g & final & earlier & w1 & H & Hg & Hearlier
                                    & Hdone & Htrace & Hlatest)];
      rewrite H in Hresp; [done |].
    injection Hresp as <- <-. by exists g, final, earlier.
  - intros w' Hresp.
    destruct (get_stream_response_cases d msgs session_id user_id w)
      as [(e & w1 & evs & H & _) | (g & saver & final & earlier & w1 & H & Hg & Hsaver
                                    & Hearlier & Hdone & Htrace & Hlatest)];
      rewrite H in Hresp; [done |].
    injection Hresp as <-. by exists g, saver, final, earlier.
  - intros e w' [Hresp | Hresp].
    + destruct (get_response_cases d msgs session_id user_id w)
        as [(e1 & w1 & evs & H & Htrace & Hevs) | (g & final & earlier & w1 & H & _)];
        rewrite H in Hresp; [| done].
      injection Hresp as <- <-. exists evs. split; [done | by apply Hquiet].
    + destruct (get_stream_response_cases d msgs session_id user_id w)
        as [(e1 & w1 & evs & H & Htrace & Hevs) | (g & saver & final & earlier & w1 & H & _)];
        rewrite H in Hresp; [| done].
      injection Hresp as <- <-. exists evs. split; [done | by apply Hquiet].
Qed.


Lemma memory_update_follows_final_state_witness :
  let w' := (get_response Scenario.healthy [Scenario.question] "S1" (Some "u1")
               Scenario.fresh).2 in
  exists g final earlier,
    _graph (self w') = Some g
    /\ trace w' = trace Scenario.fresh ++ earlier ++ commit_events g "S1" final
                  ++ [TaskCreated (Some "u1")
                        (convert_to_openai_messages (messages final))
                        (metadata (make_config Scenario.healthy "S1" (Some "u1")))]
    /\ Forall unscheduled earlier
    /\ turn_complete final
    /\ [{| role := "user"; text := "What's the weather?" |};
        {| role := "assistant"; text := "It's 18C and cloudy in Paris." |}]
       = __process_messages Scenario.healthy (messages final)
    /\ (forall saver, checkpointer g = Some saver -> latest "S1" (db w') = Some final).
Proof.
  intros w'.
  exact (proj1 (memory_update_follows_final_state Scenario.healthy [Scenario.question]
                  "S1" (Some "u1") Scenario.fresh)
           [{| role := "user"; text := "What's the weather?" |};
            {| role := "assistant"; text := "It's 18C and cloudy in Paris." |}]
           w' eq_refl).
Defined.

(** ** Degraded mode and streaming *)

(** C4, at the failing input: the production deployment whose checkpoint
    store cannot be initialised, and the weather question.  The
    single-shot turn completes and returns its reply.  The streamed turn
    of the same request does not: the streaming path has nothing to read
    the final state back from, so the tokens are yielded, then
    [get_state] raises [ValueError], the failure is reported and raised
    to the caller, and no memory update is scheduled. *)
Example degraded_stream_raises_after_its_tokens :
  let run := get_stream_response Scenario.degraded [Scenario.question] "S1" (Some "u1")
               Scenario.fresh in
  ENVIRONMENT Scenario.degraded = PRODUCTION
  /\ MongoDBSaver_init Scenario.degraded = Raised Scenario.unreachable
  /\ (get_response Scenario.degraded [Scenario.question] "S1" (Some "u1") Scenario.fresh).1
     = Ok [{| role := "user"; text := "What's the weather?" |};
           {| role := "assistant"; text := "It's 18C and cloudy in Paris." |}]
  /\ run.1 = Raised (ValueError "No checkpointer set")
  /\ yielded (trace run.2)
     = [Str ""; Str "18C, cloudy"; Str "It's 18C and cloudy in Paris."]
  /\ last (trace run.2)
     = Some (Log error "Error in stream processing"
               [("error", VStr "No checkpointer set"); ("session_id", VStr "S1")])
  /\ List.filter is_TaskCreated (trace run.2) = [].
Proof. repeat split; reflexivity. Qed.


(** * Further properties of the agent *)

(** ** Lazily built collaborators *)

(** The memory client is built on first use and kept: once
    [_long_term_memory] has returned a client, every later call returns
    that same client without building or logging anything, whatever the
    memory service has become; a failed construction is not remembered. *)
Theorem long_term_memory_is_built_once d w :
  (forall m w',
     _long_term_memory d w = (Ok m, w') ->
     memory (self w') = Some m /\ db w' = db w /\ trace w' = trace w
     /\ forall d', _long_term_memory d' w' = (Ok m, w'))
  /\ (forall e w',
        _long_term_memory d w = (Raised e, w') ->
        w' = w /\ memory (self w) = None /\ AsyncMemory_from_config d = Raised e).
Proof.
  destruct w as [[g c mem] database tr].
  unfold _long_term_memory, bind, get_self, set_self, lift, ret. simpl.
  split.
  - intros m w' H. destruct mem as [m0 |].
    + injection H as <- <-. simpl. by repeat split.
    + destruct (AsyncMemory_from_config d) as [m0 |]; [| done].
      injection H as <- <-. simpl. by repeat split.
  - intros e w' H. destruct mem as [m0 |]; [done |].
    destruct (AsyncMemory_from_config d) as [m0 | e0]; [done |].
    by injection H as <- <-.
Qed.

Lemma long_term_memory_is_built_once_witness :
  let w' := (_long_term_memory Scenario.healthy Scenario.fresh).2 in
  memory (self w') = Some {| collection_name := "longterm_memory" |}
  /\ forall d', _long_term_memory d' w'
                = (Ok {| collection_name := "longterm_memory" |}, w').
Proof.
  intros w'.
  destruct (proj1 (long_term_memory_is_built_once Scenario.healthy Scenario.fresh)
              {| collection_name := "longterm_memory" |} w' eq_refl)
    as (Hmem & _ & _ & Hagain).
  split; [exact Hmem | exact Hagain].
Defined.

(** The checkpointer is kept once it is created: later calls return it
    without connecting or logging again.  In production a failed
    initialisation returns no checkpointer and caches nothing, so the next
    call tries again; anywhere else it raises the initialisation error. *)
Theorem checkpointer_is_kept_once_created d w :
  (forall saver w',
     _get_checkpointer d w = (Ok (Some saver), w') ->
     _checkpointer (self w') = Some saver
     /\ forall d', _get_checkpointer d' w' = (Ok (Some saver), w'))
  /\ (forall w',
        _get_checkpointer d w = (Ok None, w') ->
        ENVIRONMENT d = PRODUCTION
        /\ _checkpointer (self w') = None
        /\ forall d' saver, MongoDBSaver_init d' = Ok saver ->
                            (_get_checkpointer d' w').1 = Ok (Some saver))
  /\ (forall e w',
        _get_checkpointer d w = (Raised e, w') ->
        ENVIRONMENT d <> PRODUCTION
        /\ MongoDBSaver_init d = Raised e
        /\ _checkpointer (self w') = None).
Proof.
  destruct (_checkpointer (self w)) as [saver0 |] eqn:Hc.
  { rewrite (get_checkpointer_cached d w saver0 Hc).
    split; [| by split].
    intros saver w' H. injection H as <- <-. split; [done |].
    intros d'. by apply get_checkpointer_cached. }
  destruct (MongoDBSaver_init d) as [saver0 | e0] eqn:Hinit.
  { rewrite (get_checkpointer_created d w saver0 Hc Hinit).
    split; [| by split].
    intros saver w' H. injection H as <- <-. split; [done |].
    intros d'. by apply get_checkpointer_cached. }
  destruct (ENVIRONMENT d) as [| value] eqn:Henv.
  - rewrite (get_checkpointer_degraded d w e0 Hc Hinit Henv).
    split; [done |]. split; [| done].
    intros w' H. injection H as <-. split; [done |]. split; [done |].
    intros d' saver Hinit'.
    erewrite (get_checkpointer_created d'); [done | exact Hc | exact Hinit'].
  - rewrite (get_checkpointer_fatal d w e0 value Hc Hinit Henv).
    split; [done |]. split; [done |].
    intros e w' H. injection H as <- <-. by repeat split.
Qed.

Lemma checkpointer_is_kept_once_created_witness :
  let w' := (_get_checkpointer Scenario.degraded Scenario.fresh).2 in
  _checkpointer (self w') = None
  /\ (_get_checkpointer Scenario.healthy w').1 = Ok (Some Scenario.saver).
Proof.
  intros w'.
  destruct (proj1 (proj2 (checkpointer_is_kept_once_created Scenario.degraded
                            Scenario.fresh)) w' eq_refl) as (_ & Hnone & Hretry).
  split; [exact Hnone |]. exact (Hretry Scenario.healthy Scenario.saver eq_refl).
Defined.

(** The memory update task never raises: it logs its success, or the
    error that kept it from succeeding - the client that cannot be built
    or the [add] that fails - and leaves the database alone. *)
Theorem memory_update_never_raises d memory_add user_id history metadata w :
  exists w',
    _update_long_term_memory d memory_add user_id history metadata w = (Ok tt, w')
    /\ db w' = db w
    /\ match memory_client d (memory (self w)) with
       | Ok m =>
           memory (self w') = Some m
           /\ match memory_add history (str_opt user_id) metadata with
              | Ok _ =>
                  trace w' = trace w
                    ++ [Log info "long_term_memory_updated_successfully"
                          [("user_id", VOpt user_id)]]
              | Raised e =>
                  trace w' = trace w
                    ++ [Log exception "failed_to_update_long_term_memory"
                          [("user_id", VOpt user_id); ("error", VStr (str_exn e))]]
              end
       | Raised e =>
           memory (self w') = None
           /\ trace w' = trace w
                ++ [Log exception "failed_to_update_long_term_memory"
                      [("user_id", VOpt user_id); ("error", VStr (str_exn e))]]
       end.
Proof.
  destruct w as [[g c mem] database tr].
  unfold _update_long_term_memory, _long_term_memory, memory_client,
    try_except, bind, get_self, set_self, lift, ret, emit. simpl.
  destruct mem as [m |]; [| destruct (AsyncMemory_from_config d) as [m | e]]; simpl;
    try destruct (memory_add history (str_opt user_id) metadata) as [[] | e'];
    eexists; (split; [reflexivity |]); simpl; by repeat split.
Qed.


(** ** Failures of the two nodes *)

(** When the inference client raises, [_chat] logs the failure and raises
    a plain [Exception] whose message is "failed to get llm response after
    trying all models: " followed by the text of the original error; the
    state machine stops there, whatever fuel it has left. *)
Theorem chat_failure_is_wrapped d state config body fuel step w e :
  llm_answer d state = Raised e ->
  let wrapped :=
    Exception ("failed to get llm response after trying all models: " +:+ str_exn e) in
  _chat d state config w = (Raised wrapped, tell (chat_failure d state config e) w)
  /\ pregel_loop d config body (S fuel) step chat state w
     = (Raised wrapped, tell (chat_failure d state config e) w).
Proof.
  intros Hllm wrapped.
  assert (_chat d state config w
          = (Raised wrapped, tell (chat_failure d state config e) w)) as Hchat.
  { unfold llm_answer in Hllm.
    unfold _chat, try_except, bind, emit, lift, raise, chat_failure, tell. simpl.
    rewrite Hllm. simpl. by repeat (rewrite <- app_assoc; simpl). }
  split; [exact Hchat |].
  simpl. unfold superstep, run_node.
  by rewrite (bind_raised _ _ _ _ _ (bind_raised _ _ _ _ _ Hchat)).
Qed.

Lemma chat_failure_is_wrapped_witness :
  let state := {| messages := [Scenario.human "Hi"]; long_term_memory := "" |} in
  (_chat exhausted state (make_config exhausted "S1" None) Scenario.fresh).1
  = Raised (Exception
              "failed to get llm response after trying all models: rate limited").
Proof.
  intros state.
  pose proof (chat_failure_is_wrapped exhausted state (make_config exhausted "S1" None)
                no_body 3 1 Scenario.fresh (Exception "rate limited") eq_refl) as [H _].
  by rewrite H.
Defined.

(** The tool-execution step reads the tool calls of the last message: on
    an empty conversation it raises [IndexError], on a last message that is
    not an assistant message [AttributeError], each before any tool is
    invoked; an assistant message without tool calls gives an empty update
    and the way back to the chat node. *)
Theorem tool_step_reads_the_last_message d state w :
  (messages state = [] ->
   _tool_call d state w = (Raised (IndexError "list index out of range"), w))
  /\ (forall before last_message,
        messages state = before ++ [last_message] ->
        type last_message <> AIMessage ->
        exists msg, _tool_call d state w = (Raised (AttributeError msg), w))
  /\ (forall before last_message,
        messages state = before ++ [last_message] ->
        type last_message = AIMessage ->
        tool_calls last_message = [] ->
        _tool_call d state w = (Ok {| update := []; goto := chat |}, w)).
Proof.
  unfold _tool_call. split; [| split].
  - intros ->. reflexivity.
  - intros before last_message -> Htype. rewrite getitem_last_snoc.
    unfold bind, lift, getattr_tool_calls.
    destruct (type last_message); try done; by eexists.
  - intros before last_message -> Htype Hcalls. rewrite getitem_last_snoc.
    unfold bind, lift, getattr_tool_calls, ret. rewrite Htype, Hcalls. reflexivity.
Qed.

Lemma tool_step_reads_the_last_message_witness :
  _tool_call Scenario.healthy {| messages := []; long_term_memory := "" |} Scenario.fresh
  = (Raised (IndexError "list index out of range"), Scenario.fresh)
  /\ _tool_call Scenario.healthy
       {| messages := [Scenario.human "Hi"; Scenario.final_answer];
          long_term_memory := "" |} Scenario.fresh
     = (Ok {| update := []; goto := chat |}, Scenario.fresh).
Proof.
  split.
  - exact (proj1 (tool_step_reads_the_last_message Scenario.healthy
                    {| messages := []; long_term_memory := "" |} Scenario.fresh) eq_refl).
  - exact (proj2 (proj2 (tool_step_reads_the_last_message Scenario.healthy
                           {| messages := [Scenario.human "Hi"; Scenario.final_answer];
                              long_term_memory := "" |} Scenario.fresh))
             [Scenario.human "Hi"] Scenario.final_answer eq_refl eq_refl eq_refl).
Defined.

(** A registered tool that raises stops the step with its own exception:
    the calls before it and the failing call have been invoked once each,
    in call order, the calls after it never are, and no tool message of
    the step reaches the state. *)
Theorem failing_tool_stops_the_step d state before last_message done call rest
    contents tool e config body fuel step w :
  messages state = before ++ [last_message] ->
  type last_message = AIMessage ->
  tool_calls last_message = done ++ call :: rest ->
  mapM (tool_answer d) done = Ok contents ->
  tools_by_name d !! tc_name call = Some tool ->
  outcome (ainvoke tool (tc_args call)) = Raised e ->
  _tool_call d state w = (Raised e, tell (map invoke_event (done ++ [call])) w)
  /\ pregel_loop d config body (S fuel) step tool_call_node state w
     = (Raised e, tell (map invoke_event (done ++ [call])) w).
Proof.
  intros Hlast Htype Hcalls Hdone Htool Hraise.
  assert (_tool_call d state w
          = (Raised e, tell (map invoke_event (done ++ [call])) w)) as Hstep.
  { unfold _tool_call. rewrite Hlast, getitem_last_snoc.
    unfold bind at 1, lift at 1. unfold getattr_tool_calls. rewrite Htype, Hcalls.
    unfold bind at 1, lift at 1.
    unfold bind at 1. rewrite (tool_call_loop_app d done _ contents [] w Hdone).
    simpl. unfold bind, lift, getitem, emit. rewrite Htool. simpl. rewrite Hraise.
    rewrite map_app. simpl. unfold tell. simpl. by rewrite <- app_assoc. }
  split; [exact Hstep |].
  simpl. unfold superstep, run_node.
  by rewrite (bind_raised _ _ _ _ _ (bind_raised _ _ _ _ _ Hstep)).
Qed.

Lemma failing_tool_stops_the_step_witness :
  let d := with_tools [Scenario.get_weather; flaky_time] Scenario.healthy in
  let calls := [Scenario.weather_call; Scenario.time_call; Scenario.weather_call] in
  let state := {| messages := [Scenario.human "Weather and time?";
                               Scenario.ai (Str "") calls];
                  long_term_memory := "" |} in
  _tool_call d state Scenario.fresh
  = (Raised (Exception "clock is down"),
     tell [ToolInvoke "get_weather" [("city", "Paris")]; ToolInvoke "get_time" []]
       Scenario.fresh).
Proof.
  intros d calls state.
  exact (proj1 (failing_tool_stops_the_step d state [Scenario.human "Weather and time?"]
                  (Scenario.ai (Str "") calls) [Scenario.weather_call] Scenario.time_call
                  [Scenario.weather_call] ["18C, cloudy"] flaky_time
                  (Exception "clock is down") (make_config d "S1" None) no_body 2 2
                  Scenario.fresh eq_refl eq_refl eq_refl eq_refl eq_refl eq_refl)).
Defined.

(** ** The tool registry *)

Lemma registry_fold (l : list Tool) (m : gmap string Tool) n :
  foldl (fun m tool => <[tool_name tool := tool]> m) m l !! n
  = match last (List.filter (fun t => String.eqb (tool_name t) n) l) with
    | Some t => Some t
    | None => m !! n
    end.
Proof.
  revert m. induction l as [| t l IH]; intros m; simpl; [done |].
  rewrite IH. destruct (String.eqb (tool_name t) n) eqn:Hname.
  - apply String.eqb_eq in Hname. simpl.
    destruct (List.filter _ l) as [| t' l'] eqn:Hrest.
    + simpl. by rewrite Hname, lookup_insert_eq.
    + change (last (t :: t' :: l')) with (last (t' :: l')).
      destruct (last (t' :: l')) eqn:Hl; [done |].
      by apply last_None in Hl.
  - apply String.eqb_neq in Hname.
    destruct (last (List.filter _ l)); [done |].
    by rewrite lookup_insert_ne.
Qed.

(** The registry [__init__] builds maps a name to the last tool of the
    list that bears it: a name is unknown exactly when no tool has it, and
    of two tools with one name the earlier one can never be invoked. *)
Theorem registry_keeps_the_last_tool_of_a_name d n :
  tools_by_name d !! n
  = last (List.filter (fun t => String.eqb (tool_name t) n) (tools d))
  /\ (tools_by_name d !! n = None <-> Forall (fun t => tool_name t <> n) (tools d))
  /\ (forall t, tools_by_name d !! n = Some t -> tool_name t = n /\ t ∈ tools d).
Proof.
  assert (tools_by_name d !! n
          = last (List.filter (fun t => String.eqb (tool_name t) n) (tools d))) as Hlookup.
  { unfold tools_by_name. rewrite registry_fold, lookup_empty.
    by destruct (last _). }
  split; [exact Hlookup |]. split.
  - rewrite Hlookup, last_None. split.
    + intros Hnil. apply Forall_forall. intros t Ht Hname.
      assert (In t (List.filter (fun t => String.eqb (tool_name t) n) (tools d))) as Hin.
      { apply List.filter_In. split; [by apply list_elem_of_In |].
        by apply String.eqb_eq. }
      rewrite Hnil in Hin. destruct Hin.
    + intros Hall. clear Hlookup. induction (tools d) as [| t l IH]; [done |].
      apply Forall_cons in Hall as [Ht Hl]. simpl.
      apply String.eqb_neq in Ht. rewrite Ht. by apply IH.
  - intros t Ht. rewrite Hlookup in Ht.
    apply last_Some_elem_of, list_elem_of_In, List.filter_In in Ht as [Hin Hname].
    split; [by apply String.eqb_eq | by apply list_elem_of_In].
Qed.

(** Two tools under one name: the later one answers. *)
Example forecast_shadows_get_weather :
  tool_answer (with_tools [Scenario.get_weather; forecast] Scenario.healthy)
    Scenario.weather_call = Ok "rain tomorrow".
Proof. reflexivity. Qed.


(** ** What memory retrieval returns *)

Lemma mapM_result_unfold {A B} (f : A -> result B) a l :
  mapM f (a :: l)
  = match f a with
    | Ok b => match mapM f l with Ok bs => Ok (b :: bs) | Raised e => Raised e end
    | Raised e => Raised e
    end.
Proof. simpl. destruct (f a); simpl; [by destruct (mapM f l) | done]. Qed.

Lemma render_hits (hits : list (gmap string string)) facts :
  Forall2 (fun hit fact => hit !! "memory" = Some fact) hits facts ->
  mapM (fun hit : gmap string string =>
          fact ← getitem hit "memory"; mret ("* " +:+ fact)) hits
  = Ok (map (fun fact => "* " +:+ fact) facts).
Proof.
  induction 1 as [| hit fact hits facts Hhit _ IH]; [done |].
  rewrite mapM_result_unfold, IH. unfold getitem. by rewrite Hhit.
Qed.

Lemma render_memory_ok (results : gmap string (list (gmap string string))) hits facts :
  results !! "results" = Some hits ->
  Forall2 (fun hit fact => hit !! "memory" = Some fact) hits facts ->
  render_memory results
  = Ok (String.concat newline (map (fun fact => "* " +:+ fact) facts)).
Proof.
  intros Hresults Hhits. unfold render_memory.
  assert (getitem results "results" = Ok hits) as ->
    by (unfold getitem; by rewrite Hresults).
  cbn [mbind result_bind]. by rewrite (render_hits hits facts Hhits).
Qed.

(** With a memory client at hand and a well-formed answer of the search,
    retrieval returns one line "* fact" per entry, in the order of the
    answer and joined by newlines, whatever other keys the entries carry;
    when the search finds nothing that text is empty and [get_response]
    falls back on its placeholder, as it does after a failure. *)
Theorem relevant_memory_is_a_bulleted_list d user_id query w m results hits facts :
  memory_client d (memory (self w)) = Ok m ->
  memory_search d (str_opt user_id) query = Ok results ->
  results !! "results" = Some hits ->
  Forall2 (fun hit fact => hit !! "memory" = Some fact) hits facts ->
  (_get_relevant_memory d user_id query w).1
  = Ok (String.concat newline (map (fun fact => "* " +:+ fact) facts))
  /\ (hits = [] ->
      or_placeholder (recalled d (memory (self w)) user_id query)
      = "No relevant memory found.").
Proof.
  intros Hclient Hsearch Hresults Hhits.
  assert (recalled d (memory (self w)) user_id query
          = String.concat newline (map (fun fact => "* " +:+ fact) facts)) as Hrec.
  { unfold recalled. unfold memory_client in Hclient. rewrite Hclient, Hsearch.
    by rewrite (render_memory_ok results hits facts Hresults Hhits). }
  split.
  - destruct (get_relevant_memory_spec d user_id query w) as (evs & mem' & _ & H).
    by rewrite H, Hrec.
  - intros ->. apply Forall2_nil_inv_l in Hhits as ->. by rewrite Hrec.
Qed.

Lemma relevant_memory_is_a_bulleted_list_witness :
  (_get_relevant_memory well_informed (Some "u1") "Where do I live?" Scenario.fresh).1
  = Ok ("* Lives in Paris" +:+ newline +:+ "* Likes rain").
Proof.
  refine (proj1 (relevant_memory_is_a_bulleted_list well_informed (Some "u1")
                   "Where do I live?" Scenario.fresh
                   {| collection_name := "longterm_memory" |} two_memories
                   _ ["Lives in Paris"; "Likes rain"] eq_refl eq_refl eq_refl _)).
  repeat constructor.
Defined.


(** ** Edge cases of the public methods *)

Lemma get_stream_response_no_input d msgs session_id user_id w g :
  _graph (self w) = Some g ->
  last msgs = None ->
  get_stream_response d msgs session_id user_id w
  = (Raised (IndexError "list index out of range"),
     tell [SentryTransaction "langgraph.get_stream_response"] w).
Proof.
  intros Hg Hlast. unfold get_stream_response.
  rewrite (bind_ok _ _ _ _ _ (emit_tell _ w)).
  rewrite (bind_ok _ _ _ _ _
             (ensure_graph_present d
                (tell [SentryTransaction "langgraph.get_stream_response"] w) g Hg)).
  unfold bind, lift, getitem_last. by rewrite Hlast.
Qed.

(** A request without messages is rejected with [IndexError] when the
    last message is read: the memory service and the model are not
    called, nothing is stored or scheduled, and - the read being outside
    the [try] - none of the error reporting of the other failures
    happens. *)
Theorem empty_request_raises_index_error d session_id user_id w g :
  _graph (self w) = Some g ->
  get_response d [] session_id user_id w
  = (Raised (IndexError "list index out of range"),
     tell [SentryTransaction "langgraph.get_response"] w)
  /\ get_stream_response d [] session_id user_id w
     = (Raised (IndexError "list index out of range"),
        tell [SentryTransaction "langgraph.get_stream_response"] w).
Proof.
  intros Hg. split.
  - by apply (get_response_no_input d [] session_id user_id w g).
  - by apply (get_stream_response_no_input d [] session_id user_id w g).
Qed.

Lemma empty_request_raises_index_error_witness :
  (get_response Scenario.healthy [] "S1" None (Scenario.ready Scenario.healthy)).1
  = Raised (IndexError "list index out of range").
Proof.
  by rewrite (proj1 (empty_request_raises_index_error Scenario.healthy "S1" None
                       (Scenario.ready Scenario.healthy)
                       (compiled Scenario.healthy (Some Scenario.saver)) eq_refl)).
Defined.

(** ** Clearing a session, continued *)

Lemma clear_unreachable d session_id w e :
  _checkpointer (self w) = None ->
  MongoDBSaver_init d = Raised e ->
  let raised := if is_production (ENVIRONMENT d)
                then Exception "MongoDB checkpointer not available" else e in
  exists evs,
    clear_chat_history d session_id w
    = (Raised raised,
       tell (evs ++ [Log error "failed_to_clear_chat_history"
                       [("error", VStr (str_exn raised));
                        ("session_id", VStr session_id)]]) w).
Proof.
  intros Hc Hinit raised. unfold clear_chat_history, try_except.
  destruct (ENVIRONMENT d) as [| value] eqn:Henv.
  - rewrite (bind_ok _ _ _ _ _ (get_checkpointer_degraded d w e Hc Hinit Henv)).
    eexists. unfold raise at 1, bind, emit, raise, tell. cbn [self db trace].
    subst raised. cbn [is_production]. by rewrite <- app_assoc.
  - rewrite (bind_raised _ _ _ _ _ (get_checkpointer_fatal d w e value Hc Hinit Henv)).
    eexists. unfold bind, emit, raise, tell. cbn [self db trace].
    subst raised. cbn [is_production]. by rewrite <- app_assoc.
Qed.

(** When the checkpoint store cannot be reached, [clear_chat_history]
    fails and deletes nothing: in production with "MongoDB checkpointer
    not available", elsewhere with the initialisation error itself; in
    both cases the failure is logged last and raised to the caller. *)
Theorem clear_fails_without_store d session_id w e :
  _checkpointer (self w) = None ->
  MongoDBSaver_init d = Raised e ->
  let raised := if is_production (ENVIRONMENT d)
                then Exception "MongoDB checkpointer not available" else e in
  exists w',
    clear_chat_history d session_id w = (Raised raised, w')
    /\ db w' = db w
    /\ _checkpointer (self w') = None
    /\ last (trace w')
       = Some (Log error "failed_to_clear_chat_history"
                 [("error", VStr (str_exn raised)); ("session_id", VStr session_id)]).
Proof.
  intros Hc Hinit raised.
  destruct (clear_unreachable d session_id w e Hc Hinit) as [evs H].
  eexists. split; [exact H |]. cbn [tell db self trace].
  split; [done |]. split; [done |]. by rewrite app_assoc, last_snoc.
Qed.

Lemma clear_fails_without_store_witness :
  (clear_chat_history Scenario.degraded "S1" Scenario.fresh).1
  = Raised (Exception "MongoDB checkpointer not available")
  /\ (clear_chat_history Scenario.failing "S1" Scenario.fresh).1
     = Raised Scenario.unreachable.
Proof.
  split.
  - destruct (clear_fails_without_store Scenario.degraded "S1" Scenario.fresh
                Scenario.unreachable eq_refl eq_refl) as (w' & H & _).
    by rewrite H.
  - destruct (clear_fails_without_store Scenario.failing "S1" Scenario.fresh
                Scenario.unreachable eq_refl eq_refl) as (w' & H & _).
    by rewrite H.
Defined.

Lemma stored_other_after_clear session_id other database :
  other <> session_id ->
  stored other (cleared session_id database) = stored other database.
Proof.
  intros Hne. unfold stored, latest, cleared. cbn [checkpoints].
  by rewrite delete_many_other.
Qed.

Lemma clear_ok_inv d session_id w w1 :
  clear_chat_history d session_id w = (Ok tt, w1) ->
  db w1 = cleared session_id (db w) /\ _graph (self w1) = _graph (self w).
Proof.
  intros H. destruct (_checkpointer (self w)) as [saver |] eqn:Hc.
  - rewrite (clear_with_checkpointer d session_id w saver Hc) in H.
    by injection H as <-.
  - destruct (MongoDBSaver_init d) as [saver | e] eqn:Hinit.
    + rewrite (clear_creating_checkpointer d session_id w saver Hc Hinit) in H.
      by injection H as <-.
    + destruct (clear_unreachable d session_id w e Hc Hinit) as [evs Hfail].
      by rewrite Hfail in H.
Qed.

(** After a successful [clear_chat_history] the history of the session is
    the empty list, as for a session that never had a turn, and the
    history of every other session is what it was. *)
Theorem history_after_clear_is_empty d session_id w g saver w1 :
  _graph (self w) = Some g ->
  checkpointer g = Some saver ->
  clear_chat_history d session_id w = (Ok tt, w1) ->
  get_chat_history d session_id w1 = (Ok [], w1)
  /\ (forall other, other <> session_id ->
        (get_chat_history d other w1).1 = (get_chat_history d other w).1).
Proof.
  intros Hg Hsaver Hclear.
  destruct (clear_ok_inv d session_id w w1 Hclear) as [Hdb Hgraph].
  rewrite Hg in Hgraph. split.
  - rewrite (get_chat_history_spec d session_id w1 g saver Hgraph Hsaver).
    rewrite Hdb. unfold stored, latest, cleared. cbn [checkpoints].
    pose proof (count_after_delete session_id (checkpoints (db w))) as Hnone.
    unfold count_in_thread in Hnone. apply nil_length_inv in Hnone.
    by rewrite Hnone.
  - intros other Hne.
    rewrite (get_chat_history_spec d other w1 g saver Hgraph Hsaver).
    rewrite (get_chat_history_spec d other w g saver Hg Hsaver).
    cbn [fst]. by rewrite Hdb, stored_other_after_clear.
Qed.

Lemma history_after_clear_is_empty_witness :
  let w := (get_response Scenario.healthy [Scenario.question] "S1" (Some "u1")
              Scenario.fresh).2 in
  let w1 := (clear_chat_history Scenario.healthy "S1" w).2 in
  (get_chat_history Scenario.healthy "S1" w).1
  = Ok [{| role := "user"; text := "What's the weather?" |};
        {| role := "assistant"; text := "It's 18C and cloudy in Paris." |}]
  /\ get_chat_history Scenario.healthy "S1" w1 = (Ok [], w1).
Proof.
  intros w w1. split; [reflexivity |].
  exact (proj1 (history_after_clear_is_empty Scenario.healthy "S1" w
                  (compiled Scenario.healthy (Some Scenario.saver)) Scenario.saver w1
                  eq_refl eq_refl eq_refl)).
Defined.


(** ** The graph *)

(** The graph is compiled once: after [create_graph] has returned a
    graph, the agent holds it and every later call returns it unchanged.
    A graph compiled by this call runs on the agent's own checkpointer,
    and outside production it always has one. *)
Theorem created_graph_is_kept d w g w' :
  create_graph d w = (Ok (Some g), w') ->
  _graph (self w') = Some g
  /\ (forall d', create_graph d' w' = (Ok (Some g), w'))
  /\ (_graph (self w) = None ->
      checkpointer g = _checkpointer (self w')
      /\ (ENVIRONMENT d <> PRODUCTION -> exists saver, checkpointer g = Some saver)).
Proof.
  intros Hcreate.
  assert (forall w1 g1, _graph (self w1) = Some g1 ->
                        forall d', create_graph d' w1 = (Ok (Some g1), w1)) as Hkept.
  { intros w1 g1 H d'. unfold create_graph, bind, get_self, ret. by rewrite H. }
  assert (_graph (self w') = Some g
          /\ (_graph (self w) = None ->
              checkpointer g = _checkpointer (self w')
              /\ (ENVIRONMENT d <> PRODUCTION -> exists saver, checkpointer g = Some saver)))
    as [Hg Hnew].
  { revert Hcreate. destruct w as [[g0 c m] database tr]. destruct g0 as [g0 |].
    { unfold create_graph, bind, get_self, ret. simpl. by intros [= <- <-]. }
    destruct c as [saver |];
      [| destruct (MongoDBSaver_init d) as [saver | e] eqn:Hinit;
         [| destruct (ENVIRONMENT d) as [| value] eqn:Henv]];
      run_monad; rewrite ?Hinit, ?Henv; simpl; try done;
      intros [= <- <-]; simpl;
      (split; [done |]); intros _;
      (split; [done |]); intros Hprod; try done; by eexists. }
  split; [exact Hg |]. split; [by apply Hkept | exact Hnew].
Qed.

Lemma created_graph_is_kept_witness :
  let w' := (create_graph Scenario.healthy Scenario.fresh).2 in
  _graph (self w') = Some (compiled Scenario.healthy (Some Scenario.saver))
  /\ forall d', create_graph d' w'
                = (Ok (Some (compiled Scenario.healthy (Some Scenario.saver))), w').
Proof.
  intros w'.
  destruct (created_graph_is_kept Scenario.healthy Scenario.fresh
              (compiled Scenario.healthy (Some Scenario.saver)) w' eq_refl)
    as (Hg & Hkept & _).
  split; [exact Hg | exact Hkept].
Defined.


(** ** Sessions do not interfere *)

Lemma append_checkpoint_other thread other final written database :
  other <> thread ->
  List.filter (in_thread other) (checkpoints (append_checkpoint thread final written database))
  = List.filter (in_thread other) (checkpoints database)
  /\ List.filter (in_thread other)
       (checkpoint_writes (append_checkpoint thread final written database))
     = List.filter (in_thread other) (checkpoint_writes database).
Proof.
  intros Hne. unfold append_checkpoint. cbn [checkpoints checkpoint_writes].
  assert (String.eqb thread other = false) as Hneq by (by apply String.eqb_neq).
  rewrite !List.filter_app. cbn [List.filter]. unfold in_thread. cbn [fst].
  by rewrite Hneq, !app_nil_r.
Qed.

Lemma db_commit g thread n final w :
  db (commit g thread n final w) = db w
  \/ exists written, db (commit g thread n final w)
                     = append_checkpoint thread final written (db w).
Proof.
  unfold commit. destruct (checkpointer g); [right; by eexists | by left].
Qed.

Lemma get_response_db d msgs session_id user_id w :
  db (get_response d msgs session_id user_id w).2 = db w
  \/ exists final written,
       db (get_response d msgs session_id user_id w).2
       = append_checkpoint session_id final written (db w).
Proof.
  destruct (ensure_graph_spec d w) as (evs0 & cp & _ & [[g Hsetup] | [e Hsetup]]).
  2: { left. unfold get_response. by rewrite (bind_raised _ _ _ _ _ Hsetup). }
  rewrite (get_response_after_setup _ _ _ _ _ _ g Hsetup eq_refl).
  match type of Hsetup with _ = (_, ?w0) => set (w1 := w0) in * end.
  change (db w) with (db w1).
  destruct (last msgs) as [last_message |] eqn:Hlast.
  2: { left. by rewrite (get_response_no_input d msgs session_id user_id w1 g eq_refl Hlast). }
  destruct (mapM message_of_dict msgs) as [new | e] eqn:Hnew.
  2: { destruct (get_response_bad_input d msgs session_id user_id w1 g last_message e
                   eq_refl Hlast Hnew) as (pre & mem' & _ & Hbad).
       left. by rewrite Hbad. }
  destruct (get_response_spec d msgs session_id user_id w1 g last_message new
              eq_refl Hlast Hnew) as (pre & mem' & r & evs & _ & _ & _ & Hspec).
  rewrite Hspec. destruct r as [final | e]; [| by left].
  cbn [snd tell db].
  destruct (db_commit g session_id (length (resumed g session_id (db w1))) final
              {| self := set_memory (self w1) mem'; db := db w1;
                 trace := trace w1 ++ pre ++ evs |}) as [H | [written H]].
  - by left.
  - right. by exists final, written.
Qed.

Lemma get_stream_response_db d msgs session_id user_id w :
  db (get_stream_response d msgs session_id user_id w).2 = db w
  \/ exists final written,
       db (get_stream_response d msgs session_id user_id w).2
       = append_checkpoint session_id final written (db w).
Proof.
  pose (ws := tell [SentryTransaction "langgraph.get_stream_response"] w).
  destruct (ensure_graph_spec d ws) as (evs0 & cp & _ & [[g Hsetup] | [e Hsetup]]).
  2: { left. unfold get_stream_response.
       rewrite (bind_ok _ _ _ _ _ (emit_tell _ w)). fold ws.
       by rewrite (bind_raised _ _ _ _ _ Hsetup). }
  match type of Hsetup with _ = (_, ?w0) => set (w1 := w0) in * end.
  destruct (last msgs) as [last_message |] eqn:Hlast.
  2: { left. unfold get_stream_response.
       rewrite (bind_ok _ _ _ _ _ (emit_tell _ w)). fold ws.
       rewrite (bind_ok _ _ _ _ _ Hsetup).
       unfold bind, lift, getitem_last. by rewrite Hlast. }
  destruct (get_stream_response_unfold d msgs session_id user_id w w1 g last_message
              Hsetup eq_refl Hlast) as (pre & mem' & _ & Heq).
  cbn zeta in Heq. rewrite Heq. clear Heq.
  match goal with |- context [run_turn d g _ ?mem ?config yield_body ?w0] =>
    set (w2 := w0); set (m := mem); set (c := config) end.
  destruct (mapM message_of_dict msgs) as [new | e] eqn:Hnew.
  2: { rewrite (run_turn_bad_input d g (dump_messages msgs) m c yield_body w2 e Hnew).
       by left. }
  destruct (run_turn_spec d g (dump_messages msgs) m c yield_body w2 new
              yield_body_writes Hnew) as (r & evs & _ & _ & Hrun).
  rewrite Hrun. clear Hrun. destruct r as [final | e]; [| by left].
  assert (forall (A : Type) (r : result A) w3 extra,
            w3 = commit g (thread_id c) (length (resumed g (thread_id c) (db w2))) final
                   (tell evs w2) ->
            db (r, tell extra w3).2 = db w
            \/ exists final written,
                 db (r, tell extra w3).2 = append_checkpoint session_id final written (db w))
    as Hdone.
  { intros A r w3 extra ->. cbn [snd tell db].
    destruct (db_commit g (thread_id c) (length (resumed g (thread_id c) (db w2))) final
                (tell evs w2)) as [H | [written H]]; rewrite H.
    - by left.
    - right. by exists final, written. }
  destruct (checkpointer g); [destruct (latest session_id _) |].
  - by eapply Hdone.
  - rewrite <- (tell_nil (commit _ _ _ _ _)). by eapply Hdone.
  - by eapply Hdone.
Qed.

(** A turn only touches the documents of its own session: whatever its
    outcome, single-shot or streamed, the checkpoints, the writes and the
    stored messages of every other session are what they were. *)
Theorem turn_leaves_other_sessions_alone d msgs session_id user_id w other :
  other <> session_id ->
  let unchanged (w' : world) :=
    List.filter (in_thread other) (checkpoints (db w'))
    = List.filter (in_thread other) (checkpoints (db w))
    /\ List.filter (in_thread other) (checkpoint_writes (db w'))
       = List.filter (in_thread other) (checkpoint_writes (db w))
    /\ stored other (db w') = stored other (db w) in
  unchanged (get_response d msgs session_id user_id w).2
  /\ unchanged (get_stream_response d msgs session_id user_id w).2.
Proof.
  intros Hne unchanged.
  assert (forall w',
            db w' = db w
            \/ (exists final written,
                  db w' = append_checkpoint session_id final written (db w)) ->
            unchanged w') as Hsame.
  { intros w' [H | (final & written & H)]; unfold unchanged, stored, latest; rewrite H.
    - done.
    - destruct (append_checkpoint_other session_id other final written (db w) Hne)
        as [Hc Hw].
      by rewrite Hc, Hw. }
  split; apply Hsame; [apply get_response_db | apply get_stream_response_db].
Qed.

Lemma turn_leaves_other_sessions_alone_witness :
  let w1 := (get_response Scenario.healthy [Scenario.question] "S1" (Some "u1")
               Scenario.fresh).2 in
  let w2 := (get_response Scenario.healthy [Scenario.question] "S2" (Some "u2") w1).2 in
  stored "S1" (db w2) = Scenario.transcript.
Proof.
  intros w1 w2.
  destruct (turn_leaves_other_sessions_alone Scenario.healthy [Scenario.question] "S2"
              (Some "u2") w1 "S1") as [(_ & _ & H) _]; [discriminate |].
  exact H.
Defined.


(** * The history of a session over its turns *)












Lemma dialogue_app ms1 ms2 : dialogue (ms1 ++ ms2) = dialogue ms1 ++ dialogue ms2.
Proof. unfold dialogue. by rewrite List.filter_app, map_app. Qed.









(** * Properties of the other modules *)

(** ** Python strings *)

Lemma append_nil (t : string) : EmptyString +:+ t = t.
Proof. reflexivity. Qed.

Lemma append_cons (c : Ascii.ascii) (s t : string) :
  String c s +:+ t = String c (s +:+ t).
Proof. reflexivity. Qed.

Lemma prefix_spec (p s : string) :
  String.prefix p s = true <-> exists post, s = p +:+ post.
Proof.
  revert s. induction p as [|a p IH]; intros s.
  - destruct s; simpl; split; eauto.
  - destruct s as [|b s]; simpl.
    + split; [discriminate | intros [post H]; discriminate].
    + destruct (Ascii.ascii_dec a b) as [->|Hne].
      * rewrite IH. split; intros [post H]; exists post;
          rewrite append_cons in *; congruence.
      * split; [discriminate | intros [post H]; rewrite append_cons in H; congruence].
Qed.

Lemma slice_from_app (p s : string) :
  Str.slice_from (String.length p) (p +:+ s) = s.
Proof. induction p; rewrite ?append_cons; simpl; auto. Qed.

Lemma split_app (sep : Ascii.ascii) (s t : string) :
  Str.has_char sep s = false ->
  Str.split sep (s +:+ String sep t) = s :: Str.split sep t.
Proof.
  induction s as [|c s IH]; rewrite ?append_cons, ?append_nil; simpl.
  - intros _. rewrite Ascii.eqb_refl. reflexivity.
  - intros [Hc Hs]%orb_false_iff. rewrite Hc, IH by exact Hs. reflexivity.
Qed.

(** The first piece of a split has no separator, and the string is that
    piece, or that piece, a separator and the rest. *)
Lemma split_head (sep : Ascii.ascii) (t : string) :
  exists w rest, Str.split sep t = w :: rest /\ Str.has_char sep w = false /\
    ((rest = [] /\ t = w) \/
     (exists more, t = w +:+ String sep more /\ rest = Str.split sep more)).
Proof.
  induction t as [|c t (w & rest & Hsplit & Hw & Hshape)]; simpl.
  - exists EmptyString, []. auto.
  - destruct (Ascii.eqb c sep) eqn:Hc.
    + apply Ascii.eqb_eq in Hc as ->.
      exists EmptyString, (Str.split sep t). repeat split; eauto.
    + rewrite Hsplit. exists (String c w), rest. simpl. rewrite Hc, Hw.
      repeat split; auto.
      destruct Hshape as [[-> ->]|(more & -> & ->)]; [left; auto|right; eauto].
Qed.

Lemma append_eq_nil (s t : string) : s +:+ t = EmptyString -> s = EmptyString /\ t = EmptyString.
Proof. destruct s; [rewrite append_nil; auto | rewrite append_cons; discriminate]. Qed.

(** ** Strings of code points *)


Lemma usplit_no_sep (sep : N) (s : Unicode.str) :
  sep ∉ s -> Unicode.split sep s = [s].
Proof.
  induction s as [|c s IH]; simpl; [reflexivity|].
  intros [Hc Hs]%not_elem_of_cons.
  assert ((c =? sep)%N = false) as -> by (apply N.eqb_neq; congruence).
  rewrite IH by exact Hs. reflexivity.
Qed.

Lemma usplit_app (sep : N) (s t : Unicode.str) :
  sep ∉ s -> Unicode.split sep (s ++ sep :: t) = s :: Unicode.split sep t.
Proof.
  induction s as [|c s IH]; simpl.
  - intros _. rewrite N.eqb_refl. reflexivity.
  - intros [Hc Hs]%not_elem_of_cons.
    assert ((c =? sep)%N = false) as -> by (apply N.eqb_neq; congruence).
    rewrite IH by exact Hs. reflexivity.
Qed.

Lemma usplit_pieces (sep : N) (s : Unicode.str) :
  Forall (fun piece => sep ∉ piece) (Unicode.split sep s).
Proof.
  induction s as [|c s IH]; simpl.
  - repeat constructor. apply not_elem_of_nil.
  - destruct (c =? sep)%N eqn:Hc.
    + constructor; [apply not_elem_of_nil | exact IH].
    + apply N.eqb_neq in Hc.
      destruct (Unicode.split sep s) as [|piece pieces].
      * repeat constructor. apply not_elem_of_cons. split; [congruence | apply not_elem_of_nil].
      * inversion IH; subst. constructor; [|assumption].
        apply not_elem_of_cons. split; [congruence | assumption].
Qed.

Lemma usplit_join (sep : N) (pieces : list Unicode.str) :
  pieces <> [] ->
  Forall (fun piece => sep ∉ piece) pieces ->
  Unicode.split sep (Unicode.join [sep] pieces) = pieces.
Proof.
  induction pieces as [|p ps IH]; [congruence|].
  intros _ Hall. inversion Hall as [|? ? Hp Hps]; subst.
  destruct ps as [|q qs].
  - simpl. apply usplit_no_sep, Hp.
  - change (Unicode.join [sep] (p :: q :: qs))
      with (p ++ sep :: Unicode.join [sep] (q :: qs)).
    rewrite usplit_app by exact Hp. f_equal. apply IH; [discriminate | exact Hps].
Qed.

Lemma lstrip_keeps_out (x : N) (s : Unicode.str) : x ∉ s -> x ∉ Unicode.lstrip s.
Proof.
  induction s as [|c s IH]; simpl; [auto|].
  intros Hx. destruct (Unicode.isspace c); [|exact Hx].
  apply IH. apply not_elem_of_cons in Hx. apply Hx.
Qed.

Lemma rstrip_keeps_out (x : N) (s : Unicode.str) : x ∉ s -> x ∉ Unicode.rstrip s.
Proof.
  induction s as [|c s IH]; simpl; [auto|].
  intros [Hc Hs]%not_elem_of_cons. specialize (IH Hs).
  destruct (Unicode.rstrip s) as [|k tail].
  - destruct (Unicode.isspace c); [apply not_elem_of_nil|].
    apply not_elem_of_cons. split; [exact Hc | apply not_elem_of_nil].
  - apply not_elem_of_cons. split; [exact Hc | exact IH].
Qed.

Lemma lstrip_head (s : Unicode.str) (c : N) (rest : Unicode.str) :
  Unicode.lstrip s = c :: rest -> Unicode.isspace c = false.
Proof.
  induction s as [|a s IH]; simpl; [discriminate|].
  destruct (Unicode.isspace a) eqn:Ha; [exact IH | congruence].
Qed.

Lemma rstrip_cons (c : N) (r : Unicode.str) :
  Unicode.isspace c = false -> Unicode.rstrip (c :: r) = c :: Unicode.rstrip r.
Proof. intros Hc. simpl. rewrite Hc. destruct (Unicode.rstrip r); reflexivity. Qed.

Lemma rstrip_last (s pre : Unicode.str) (c : N) :
  Unicode.rstrip s = pre ++ [c] -> Unicode.isspace c = false.
Proof.
  revert pre. induction s as [|a s IH]; intros pre; simpl.
  - intros H. destruct pre; discriminate.
  - destruct (Unicode.rstrip s) as [|k tail] eqn:Hr.
    + destruct (Unicode.isspace a) eqn:Ha.
      * intros H. destruct pre; discriminate.
      * destruct pre as [|p pre]; simpl.
        -- congruence.
        -- intros [= _ H]. destruct pre; discriminate.
    + destruct pre as [|p pre]; simpl.
      * discriminate.
      * intros [= _ H]. exact (IH pre H).
Qed.




(** What [strip] leaves of a string that is not blank. *)
Lemma strip_clean (s : Unicode.str) :
  Unicode.strip s <> [] ->
  (forall c rest, Unicode.strip s = c :: rest -> Unicode.isspace c = false) /\
  (forall pre c, Unicode.strip s = pre ++ [c] -> Unicode.isspace c = false).
Proof.
  intros Hne. split.
  - unfold Unicode.strip in *. destruct (Unicode.lstrip s) as [|a r] eqn:Hl; [easy|].
    pose proof (lstrip_head _ _ _ Hl) as Ha.
    rewrite rstrip_cons by exact Ha. congruence.
  - intros pre c. apply rstrip_last.
Qed.



(** ** Authentication: the configured issuers *)

(** Every entry of [JWKConfig.JWT_ISSUER] is a non-empty string without a
    comma whose first and last characters are no white space, in the
    sense of [str.isspace], whatever the JWT_ISSUER environment variable
    holds. *)
Theorem configured_issuers_are_clean (cfg : JwkAuth.JWKConfig) :
  Forall (fun issuer =>
            issuer <> [] /\
            (Unicode.comma ∉ issuer) /\
            (forall c rest, issuer = c :: rest -> Unicode.isspace c = false) /\
            (forall pre c, issuer = pre ++ [c] -> Unicode.isspace c = false))
         (JwkAuth.JWT_ISSUER cfg).
Proof.
  unfold JwkAuth.JWT_ISSUER, JwkAuth.parse_issuers.
  pose proof (usplit_pieces Unicode.comma (JwkAuth._JWT_ISSUER_ENV cfg)) as Hpieces.
  induction Hpieces as [|piece pieces Hpiece _ IH]; simpl; [constructor|].
  destruct (Unicode.nonempty (Unicode.strip piece)) eqn:Hne; [|exact IH].
  constructor; [|exact IH].
  assert (Unicode.strip piece <> []) as Hne'.
  { intros Heq. rewrite Heq in Hne. discriminate. }
  split; [exact Hne'|]. split.
  - apply rstrip_keeps_out, lstrip_keeps_out, Hpiece.
  - apply strip_clean, Hne'.
Qed.

(** When the variable is the comma-joined list of strings that hold no
    comma, the issuers are those strings stripped, in order, without the
    blank ones. *)
Theorem issuers_of_a_joined_list (cfg : JwkAuth.JWKConfig) (raws : list Unicode.str) :
  Forall (fun raw => Unicode.comma ∉ raw) raws ->
  JwkAuth._JWT_ISSUER_ENV cfg = Unicode.join [Unicode.comma] raws ->
  JwkAuth.JWT_ISSUER cfg = List.filter Unicode.nonempty (map Unicode.strip raws).
Proof.
  intros Hraws Henv. unfold JwkAuth.JWT_ISSUER, JwkAuth.parse_issuers. rewrite Henv.
  destruct raws as [|raw raws']; [reflexivity|].
  rewrite usplit_join; [reflexivity | discriminate | exact Hraws].
Qed.

Lemma issuers_of_a_joined_list_witness :
  JwkAuth.JWT_ISSUER
    {| JwkAuth.AUTH_URL := Some "https://auth.example.com";
       JwkAuth._JWT_ISSUER_ENV :=
         Unicode.of_string " https://a.example.com" ++ [0xA0; 0x2C; 0x3000; 0x2C]%N
         ++ Unicode.of_string "https://b.example.com";
       JwkAuth.JWT_AUDIENCE := "agent" |}
  = [Unicode.of_string "https://a.example.com"; Unicode.of_string "https://b.example.com"].
Proof.
  exact (issuers_of_a_joined_list
           {| JwkAuth.AUTH_URL := Some "https://auth.example.com";
              JwkAuth._JWT_ISSUER_ENV :=
                Unicode.of_string " https://a.example.com" ++ [0xA0; 0x2C; 0x3000; 0x2C]%N
                ++ Unicode.of_string "https://b.example.com";
              JwkAuth.JWT_AUDIENCE := "agent" |}
           [Unicode.of_string " https://a.example.com" ++ [0xA0]%N; [0x3000]%N;
            Unicode.of_string "https://b.example.com"]
           ltac:(refine (bool_decide_unpack _ _); vm_compute; exact I) eq_refl).
Defined.



(** ** Authentication: [verify_jwt] and [get_current_user] *)

Lemma get_jwks_client_cache (cfg : JwkAuth.JWKConfig) (cache : option JwkAuth.PyJWKClient) :
  match JwkAuth.get_jwks_client cfg cache with
  | (Returns c, cache') => cache' = Some c /\ (forall c0, cache = Some c0 -> c = c0)
  | (Raises _, cache') => cache' = None /\ cache = None
  end.
Proof.
  unfold JwkAuth.get_jwks_client. destruct cache as [c0|].
  - split; [reflexivity | congruence].
  - destruct (JwkAuth.AUTH_URL cfg) as [[|a url]|]; repeat split; congruence.
Qed.

Lemma verify_jwt_cache (cfg : JwkAuth.JWKConfig) (lib : JwkAuth.jwt_library)
    (token : string) (cache : option JwkAuth.PyJWKClient) :
  (JwkAuth.verify_jwt cfg lib token cache).2 = (JwkAuth.get_jwks_client cfg cache).2.
Proof.
  unfold JwkAuth.verify_jwt.
  destruct (JwkAuth.get_jwks_client cfg cache) as [[c|[]] cache1]; try reflexivity.
  destruct (JwkAuth.get_signing_key_from_jwt lib c token) as [key|[]]; try reflexivity.
  destruct (JwkAuth.decode _ _ _ _ _ _) as [payload|[]]; reflexivity.
Qed.

(** Whatever PyJWT or the JWKS client raises, [verify_jwt] raises an
    [HTTPException] with status 401 and one of its three details: no other
    exception leaves it. *)
Theorem verify_jwt_raises_only_401 (cfg : JwkAuth.JWKConfig) (lib : JwkAuth.jwt_library)
    (token : string) (cache cache' : option JwkAuth.PyJWKClient) (e : JwkAuth.auth_error) :
  JwkAuth.verify_jwt cfg lib token cache = (Raises e, cache') ->
  exists detail, e = JwkAuth.HTTPException 401 detail /\
    (detail = "Token has expired" \/
     (exists msg, detail = "Invalid token: " +:+ msg) \/
     (exists msg, detail = "Authentication failed: " +:+ msg)).
Proof.
  unfold JwkAuth.verify_jwt.
  destruct (JwkAuth.get_jwks_client cfg cache) as [[c|[]] cache1];
    [ destruct (JwkAuth.get_signing_key_from_jwt lib c token) as [key|[]];
      [ destruct (JwkAuth.decode _ _ _ _ _ _) as [payload|[]] | .. ] | .. ];
    intros [= <- <-]; eauto 6.
Qed.

Lemma verify_jwt_raises_only_401_witness :
  exists detail, JwkAuth.HTTPException 401 "Token has expired" = JwkAuth.HTTPException 401 detail /\
    (detail = "Token has expired" \/
     (exists msg, detail = "Invalid token: " +:+ msg) \/
     (exists msg, detail = "Authentication failed: " +:+ msg)).
Proof.
  exact (verify_jwt_raises_only_401 JwkAuth.Idp.cfg JwkAuth.Idp.lib "old" None
           (Some {| JwkAuth.jwks_url := "https://auth.example.com/api/auth/jwks" |})
           (JwkAuth.HTTPException 401 "Token has expired") eq_refl).
Defined.

(** The JWKS client is built once: a call of [verify_jwt] leaves a filled
    cache as it is, a second call leaves the cache as the first one left
    it, and a client built from an empty cache has the URL
    AUTH_URL/api/auth/jwks. *)
Theorem jwks_client_is_built_once (cfg : JwkAuth.JWKConfig) (lib1 lib2 : JwkAuth.jwt_library)
    (t1 t2 : string) (cache : option JwkAuth.PyJWKClient) :
  let cache1 := (JwkAuth.verify_jwt cfg lib1 t1 cache).2 in
  (forall c, cache = Some c -> cache1 = Some c) /\
  (JwkAuth.verify_jwt cfg lib2 t2 cache1).2 = cache1 /\
  (forall c, cache = None -> cache1 = Some c ->
     exists url, JwkAuth.AUTH_URL cfg = Some url /\
                 JwkAuth.jwks_url c = url +:+ "/api/auth/jwks").
Proof.
  cbv zeta. rewrite !verify_jwt_cache. unfold JwkAuth.get_jwks_client.
  destruct cache as [c0|]; simpl.
  - repeat split; congruence.
  - destruct (JwkAuth.AUTH_URL cfg) as [[|a url]|]; simpl;
      (repeat split; try congruence).
    intros c _ [= <-]. eauto.
Qed.

Lemma jwks_client_is_built_once_witness :
  let cache1 := (JwkAuth.verify_jwt JwkAuth.Idp.cfg JwkAuth.Idp.lib "good" None).2 in
  (forall c, None = Some c -> cache1 = Some c) /\
  (JwkAuth.verify_jwt JwkAuth.Idp.cfg JwkAuth.Idp.lib "old" cache1).2 = cache1 /\
  (forall c, @None JwkAuth.PyJWKClient = None -> cache1 = Some c ->
     exists url, JwkAuth.AUTH_URL JwkAuth.Idp.cfg = Some url /\
                 JwkAuth.jwks_url c = url +:+ "/api/auth/jwks").
Proof.
  exact (jwks_client_is_built_once JwkAuth.Idp.cfg JwkAuth.Idp.lib JwkAuth.Idp.lib
           "good" "old" None).
Defined.

(** Without AUTH_URL (unset or empty) every token is refused with a 401
    that names the variable, and no client is cached. *)
Theorem missing_auth_url_refuses_every_token (cfg : JwkAuth.JWKConfig)
    (lib : JwkAuth.jwt_library) (token : string) :
  JwkAuth.AUTH_URL cfg = None \/ JwkAuth.AUTH_URL cfg = Some EmptyString ->
  JwkAuth.verify_jwt cfg lib token None =
    (Raises (JwkAuth.HTTPException 401
               "Authentication failed: AUTH_URL environment variable is required for JWK authentication"),
     None).
Proof.
  intros [H|H]; unfold JwkAuth.verify_jwt, JwkAuth.get_jwks_client; rewrite H; reflexivity.
Qed.

Lemma missing_auth_url_refuses_every_token_witness :
  JwkAuth.verify_jwt JwkAuth.Idp.unconfigured JwkAuth.Idp.lib "good" None =
    (Raises (JwkAuth.HTTPException 401
               "Authentication failed: AUTH_URL environment variable is required for JWK authentication"),
     None).
Proof.
  exact (missing_auth_url_refuses_every_token JwkAuth.Idp.unconfigured JwkAuth.Idp.lib "good"
           (or_introl eq_refl)).
Defined.

Lemma bearer_header (authorization : option string) :
  JwkAuth.is_bearer authorization = true <->
  exists token, authorization = Some ("Bearer " +:+ token).
Proof.
  unfold JwkAuth.is_bearer, Str.startswith. destruct authorization as [header|].
  - rewrite andb_true_iff, prefix_spec. split.
    + intros [_ [token ->]]. eauto.
    + intros [token [= ->]]. split; [reflexivity | eauto].
  - split; [discriminate | intros [token [=]]].
Qed.

(** A header that is missing or does not begin with "Bearer " (the match
    is exact, capital B and one space) is refused with a 401 before the
    token library or the JWKS cache is touched. *)
Theorem header_without_bearer_prefix_is_refused (cfg : JwkAuth.JWKConfig)
    (lib : JwkAuth.jwt_library) (authorization : option string)
    (cache : option JwkAuth.PyJWKClient) :
  (forall token, authorization <> Some ("Bearer " +:+ token)) ->
  JwkAuth.get_current_user cfg lib authorization cache =
    (Raises (JwkAuth.HTTPException 401 "Missing or invalid authorization header"), cache).
Proof.
  intros Hno. unfold JwkAuth.get_current_user.
  destruct (JwkAuth.is_bearer authorization) eqn:Hb; [|reflexivity].
  apply bearer_header in Hb as [token ->]. exfalso. exact (Hno token eq_refl).
Qed.

Lemma header_without_bearer_prefix_is_refused_witness :
  JwkAuth.get_current_user JwkAuth.Idp.cfg JwkAuth.Idp.lib (Some "bearer good") None =
    (Raises (JwkAuth.HTTPException 401 "Missing or invalid authorization header"), None).
Proof.
  apply (header_without_bearer_prefix_is_refused JwkAuth.Idp.cfg JwkAuth.Idp.lib
           (Some "bearer good") None).
  intros token. discriminate.
Defined.

(** A user is returned only for a header "Bearer <token>" whose token
    [verify_jwt] accepts, and the user's id is the "sub" of the payload:
    the string itself, or what pydantic makes of a value that is none. *)
Theorem current_user_comes_from_a_verified_token (cfg : JwkAuth.JWKConfig)
    (lib : JwkAuth.jwt_library) (authorization : option string)
    (cache cache' : option JwkAuth.PyJWKClient) (user : JwkAuth.AuthUser) :
  JwkAuth.get_current_user cfg lib authorization cache = (Returns user, cache') ->
  exists token payload,
    authorization = Some ("Bearer " +:+ token) /\
    JwkAuth.verify_jwt cfg lib token cache = (Returns payload, cache') /\
    (payload !! "sub" = Some (JwkAuth.JStr (JwkAuth.user_id user)) \/
     exists truth, payload !! "sub" = Some (JwkAuth.JOther truth (Some (JwkAuth.user_id user)))).
Proof.
  unfold JwkAuth.get_current_user.
  destruct (JwkAuth.is_bearer authorization) eqn:Hb; [|discriminate].
  apply bearer_header in Hb as [token ->]. simpl. rewrite append_nil.
  destruct (JwkAuth.verify_jwt cfg lib token cache) as [[payload|e] cache1] eqn:Hv;
    [|discriminate].
  intros [= Huser <-]. exists token, payload. split; [reflexivity|]. split; [exact Hv|].
  unfold JwkAuth.make_AuthUser, JwkAuth.dict_get in Huser.
  destruct (payload !! "sub") as [[s| |truth [s|]]|]; simpl in Huser; try discriminate.
  - left. f_equal. f_equal.
    destruct (default JwkAuth.JNull (payload !! "email")) as [m| |t [m|]];
      simpl in Huser; inversion Huser; reflexivity.
  - right. exists truth. f_equal. f_equal.
    destruct (default JwkAuth.JNull (payload !! "email")) as [m| |t [m|]];
      simpl in Huser; inversion Huser; reflexivity.
Qed.

Lemma current_user_comes_from_a_verified_token_witness :
  exists token payload,
    Some "Bearer good" = Some ("Bearer " +:+ token) /\
    JwkAuth.verify_jwt JwkAuth.Idp.cfg JwkAuth.Idp.lib token None =
      (Returns payload, Some {| JwkAuth.jwks_url := "https://auth.example.com/api/auth/jwks" |}) /\
    (payload !! "sub" = Some (JwkAuth.JStr "user-1") \/
     exists truth, payload !! "sub" = Some (JwkAuth.JOther truth (Some "user-1"))).
Proof.
  exact (current_user_comes_from_a_verified_token JwkAuth.Idp.cfg JwkAuth.Idp.lib
           (Some "Bearer good") None
           (Some {| JwkAuth.jwks_url := "https://auth.example.com/api/auth/jwks" |})
           {| JwkAuth.user_id := "user-1"; JwkAuth.email := Some "ada@example.com" |}
           eq_refl).
Defined.

(** A token that verifies but carries no "sub" (or a null one) is not
    answered with a 401: building the [AuthUser] raises pydantic's
    validation error on [user_id]. *)
Theorem verified_token_without_subject_is_no_401 (cfg : JwkAuth.JWKConfig)
    (lib : JwkAuth.jwt_library) (token : string)
    (cache cache' : option JwkAuth.PyJWKClient) (payload : gmap string JwkAuth.jval) :
  JwkAuth.verify_jwt cfg lib token cache = (Returns payload, cache') ->
  payload !! "sub" = None \/ payload !! "sub" = Some JwkAuth.JNull ->
  JwkAuth.get_current_user cfg lib (Some ("Bearer " +:+ token)) cache =
    (Raises (JwkAuth.ValidationError "user_id"), cache').
Proof.
  intros Hverify Hsub. unfold JwkAuth.get_current_user.
  assert (JwkAuth.is_bearer (Some ("Bearer " +:+ token)) = true) as ->
    by (apply bearer_header; eauto).
  simpl. rewrite append_nil, Hverify.
  unfold JwkAuth.make_AuthUser, JwkAuth.dict_get.
  destruct Hsub as [-> | ->]; reflexivity.
Qed.

Lemma verified_token_without_subject_is_no_401_witness :
  JwkAuth.get_current_user JwkAuth.Idp.cfg JwkAuth.Idp.lib (Some "Bearer anonymous") None =
    (Raises (JwkAuth.ValidationError "user_id"),
     Some {| JwkAuth.jwks_url := "https://auth.example.com/api/auth/jwks" |}).
Proof.
  exact (verified_token_without_subject_is_no_401 JwkAuth.Idp.cfg JwkAuth.Idp.lib "anonymous"
           None (Some {| JwkAuth.jwks_url := "https://auth.example.com/api/auth/jwks" |})
           {[ "email" := JwkAuth.JStr "ada@example.com" ]} eq_refl (or_introl eq_refl)).
Defined.

(** ** The logging-context middleware *)

Lemma bearer_words (token : string) :
  exists word rest,
    Str.split space ("Bearer " +:+ token) = "Bearer" :: word :: rest /\
    Str.has_char space word = false /\
    (token = word \/ exists more, token = word +:+ String space more).
Proof.
  destruct (split_head space token) as (w & rest & Hsplit & Hw & Hshape).
  exists w, rest. split; [|split; [exact Hw|]].
  - change ("Bearer " +:+ token) with ("Bearer" +:+ String space token).
    rewrite split_app by reflexivity. rewrite Hsplit. reflexivity.
  - destruct Hshape as [[_ ->]|(more & -> & _)]; eauto.
Qed.

(** For a header "Bearer <token>" the middleware verifies the token up to
    its first space (the second word of the header) where
    [get_current_user] verifies all that follows "Bearer "; taking the
    second word never fails, and the handler is called with what the
    verification of that word bound. *)
Theorem middleware_verifies_the_first_word (cfg : JwkAuth.JWKConfig)
    (lib : JwkAuth.jwt_library) (request : Middleware.Request)
    (call_next : Middleware.logging_handler) (cache : option JwkAuth.PyJWKClient)
    (token : string) :
  Middleware.headers request !! "authorization" = Some ("Bearer " +:+ token) ->
  exists word,
    Str.has_char space word = false /\
    (token = word \/ exists more, token = word +:+ String space more) /\
    Str.slice_from 7 ("Bearer " +:+ token) = token /\
    Middleware.logging_dispatch cfg lib request call_next cache =
      (let '(bound, cache1) := Middleware.identify cfg lib word cache in
       let '(answer, made, cache2) :=
         call_next request (Middleware.clear_context :: bound) cache1 in
       (answer, Middleware.clear_context :: bound ++ made ++ [Middleware.clear_context],
        cache2)).
Proof.
  intros Hheader.
  destruct (bearer_words token) as (word & rest & Hsplit & Hword & Hshape).
  exists word. split; [exact Hword|]. split; [exact Hshape|]. split; [reflexivity|].
  unfold Middleware.logging_dispatch. rewrite Hheader.
  assert (JwkAuth.is_bearer (Some ("Bearer " +:+ token)) = true) as ->
    by (apply bearer_header; eauto).
  cbn [from_option id]. rewrite Hsplit. cbn [lookup list_lookup].
  destruct (Middleware.identify cfg lib word cache) as [bound cache1].
  destruct (call_next request (Middleware.clear_context :: bound) cache1) as [[answer made] cache2].
  simpl. rewrite <- app_assoc. reflexivity.
Qed.

Lemma middleware_verifies_the_first_word_witness :
  exists word,
    Str.has_char space word = false /\
    ("good extra" = word \/ exists more, "good extra" = word +:+ String space more) /\
    Str.slice_from 7 ("Bearer " +:+ "good extra") = "good extra" /\
    Middleware.logging_dispatch JwkAuth.Idp.cfg JwkAuth.Idp.lib
      (Middleware.Site.get "/chat" (Some "Bearer good extra")) Middleware.Site.quiet None =
      (let '(bound, cache1) := Middleware.identify JwkAuth.Idp.cfg JwkAuth.Idp.lib word None in
       let '(answer, made, cache2) :=
         Middleware.Site.quiet (Middleware.Site.get "/chat" (Some "Bearer good extra"))
           (Middleware.clear_context :: bound) cache1 in
       (answer, Middleware.clear_context :: bound ++ made ++ [Middleware.clear_context],
        cache2)).
Proof.
  exact (middleware_verifies_the_first_word JwkAuth.Idp.cfg JwkAuth.Idp.lib
           (Middleware.Site.get "/chat" (Some "Bearer good extra")) Middleware.Site.quiet None
           "good extra" eq_refl).
Defined.

Lemma identify_shape (cfg : JwkAuth.JWKConfig) (lib : JwkAuth.jwt_library)
    (token : string) (cache : option JwkAuth.PyJWKClient) :
  let bound := (Middleware.identify cfg lib token cache).1 in
  (bound = [] /\
   forall payload cache', JwkAuth.verify_jwt cfg lib token cache = (Returns payload, cache') ->
     JwkAuth.jtruthy (JwkAuth.dict_get payload "sub") = false) \/
  (exists payload cache',
     JwkAuth.verify_jwt cfg lib token cache = (Returns payload, cache') /\
     JwkAuth.jtruthy (JwkAuth.dict_get payload "sub") = true /\
     bound = [Middleware.bind_context (JwkAuth.dict_get payload "sub");
              Middleware.set_user (JwkAuth.dict_get payload "sub")
                (JwkAuth.dict_get payload "email")]).
Proof.
  unfold Middleware.identify.
  destruct (JwkAuth.verify_jwt cfg lib token cache) as [[payload|e] cache1].
  - destruct (JwkAuth.jtruthy (JwkAuth.dict_get payload "sub")) eqn:Hsub; simpl.
    + right. eauto.
    + left. split; [reflexivity|]. intros ? ? [= <- <-]. exact Hsub.
  - left. split; [reflexivity|]. discriminate.
Qed.

(** The middleware never fails or answers a request itself: whatever the
    header and the token, the outcome is the handler's, the first and the
    last call are [clear_context], and between the first and the handler's
    own calls there is nothing, or [bind_context] and [set_user] for a
    truthy "sub". *)
Theorem logging_dispatch_passes_the_request_through (cfg : JwkAuth.JWKConfig)
    (lib : JwkAuth.jwt_library) (request : Middleware.Request)
    (call_next : Middleware.logging_handler) (cache : option JwkAuth.PyJWKClient) :
  exists bound cache1 answer made cache2,
    call_next request (Middleware.clear_context :: bound) cache1 = (answer, made, cache2) /\
    Middleware.logging_dispatch cfg lib request call_next cache =
      (answer, Middleware.clear_context :: bound ++ made ++ [Middleware.clear_context],
       cache2) /\
    (bound = [] \/
     exists user_id email,
       JwkAuth.jtruthy user_id = true /\
       bound = [Middleware.bind_context user_id; Middleware.set_user user_id email]).
Proof.
  unfold Middleware.logging_dispatch.
  destruct (JwkAuth.is_bearer (Middleware.headers request !! "authorization")) eqn:Hb.
  - apply bearer_header in Hb as [token ->].
    destruct (bearer_words token) as (word & rest & Hsplit & _ & _).
    cbn [from_option id]. rewrite Hsplit. cbn [lookup list_lookup].
    pose proof (identify_shape cfg lib word cache) as Hshape. cbv zeta in Hshape.
    destruct (Middleware.identify cfg lib word cache) as [bound cache1].
    cbn [fst] in Hshape.
    destruct (call_next request (Middleware.clear_context :: bound) cache1)
      as [[answer made] cache2] eqn:Hcall.
    exists bound, cache1, answer, made, cache2.
    split; [exact Hcall|]. split; [simpl; rewrite <- app_assoc; reflexivity|].
    destruct Hshape as [[-> _]|(payload & c & _ & Hsub & ->)]; [left; reflexivity|].
    right. eauto.
  - destruct (call_next request [Middleware.clear_context] cache)
      as [[answer made] cache2] eqn:Hcall.
    exists [], cache, answer, made, cache2. auto.
Qed.

(** ** The metrics middleware *)

Lemma sum_insert {K} `{Countable K} {V} (f : V -> nat) (m : gmap K V) (k : K) (v : V) :
  map_fold (fun _ x total => f x + total) 0 (<[k := v]> m)
    + default 0 (f <$> m !! k)
  = map_fold (fun _ x total => f x + total) 0 m + f v.
Proof.
  assert (forall (m' : gmap K V) x, m' !! k = None ->
            map_fold (fun _ x total => f x + total) 0 (<[k := x]> m')
            = f x + map_fold (fun _ x total => f x + total) 0 m') as Hfresh.
  { intros m' x Hnone. apply (map_fold_insert_L (fun _ x total => f x + total));
      [intros; lia | exact Hnone]. }
  destruct (m !! k) as [old|] eqn:Hk; simpl.
  - rewrite <- (insert_delete_id m k old Hk) at 2.
    rewrite <- (insert_delete_eq m k v).
    rewrite !Hfresh by apply lookup_delete_eq. lia.
  - rewrite Hfresh by exact Hk. lia.
Qed.

Lemma requests_counted_inc {T} (labels : string * string * nat) (r : @Middleware.registry T) :
  Middleware.requests_counted (Middleware.inc labels r) = S (Middleware.requests_counted r).
Proof.
  unfold Middleware.requests_counted, Middleware.inc. cbn [Middleware.http_requests_total].
  pose proof (sum_insert (fun n => n) (Middleware.http_requests_total r) labels
                (S (default 0 (Middleware.http_requests_total r !! labels)))) as Hsum.
  cbv beta in Hsum.
  destruct (Middleware.http_requests_total r !! labels); simpl in *; lia.
Qed.

Lemma durations_observed_observe {T} (labels : string * string) (d : T)
    (r : @Middleware.registry T) :
  Middleware.durations_observed (Middleware.observe labels d r)
  = S (Middleware.durations_observed r).
Proof.
  unfold Middleware.durations_observed, Middleware.observe.
  cbn [Middleware.http_request_duration_seconds].
  pose proof (sum_insert (@length T) (Middleware.http_request_duration_seconds r) labels
                (default [] (Middleware.http_request_duration_seconds r !! labels) ++ [d]))
    as Hsum.
  rewrite length_app in Hsum.
  destruct (Middleware.http_request_duration_seconds r !! labels); simpl in *; lia.
Qed.

Lemma metrics_dispatch_counts {T} (minus : T -> T -> T) (request : Middleware.Request)
    (call_next : Middleware.metrics_handler) (r : Middleware.registry) :
  Middleware.leaves_the_metrics_alone call_next ->
  Middleware.raises_only_exceptions call_next ->
  let r' := (Middleware.metrics_dispatch minus request call_next r).2 in
  (Middleware.metrics_dispatch minus request call_next r).1 = (call_next request r).1 /\
  Middleware.requests_counted r' = S (Middleware.requests_counted r) /\
  Middleware.durations_observed r' = S (Middleware.durations_observed r).
Proof.
  intros Halone Honly. cbv zeta. unfold Middleware.metrics_dispatch.
  specialize (Halone request r). specialize (Honly request r).
  destruct (call_next request r) as [answer r1]. cbn [fst snd] in *.
  destruct Halone as [Hcount Hobs].
  assert (Middleware.requests_counted r1 = Middleware.requests_counted r) as Hc
    by (unfold Middleware.requests_counted; rewrite Hcount; reflexivity).
  assert (Middleware.durations_observed r1 = Middleware.durations_observed r) as Ho
    by (unfold Middleware.durations_observed; rewrite Hobs; reflexivity).
  assert (forall status,
            Middleware.requests_counted
              (Middleware.observe (Middleware.method request, Middleware.url_path request)
                 (minus (Middleware.clock r1) (Middleware.clock r))
                 (Middleware.inc (Middleware.method request, Middleware.url_path request, status) r1))
            = S (Middleware.requests_counted r) /\
            Middleware.durations_observed
              (Middleware.observe (Middleware.method request, Middleware.url_path request)
                 (minus (Middleware.clock r1) (Middleware.clock r))
                 (Middleware.inc (Middleware.method request, Middleware.url_path request, status) r1))
            = S (Middleware.durations_observed r)) as Hboth.
  { intros status. rewrite durations_observed_observe, <- Hc, <- Ho.
    rewrite <- (requests_counted_inc (Middleware.method request, Middleware.url_path request, status) r1).
    split; reflexivity. }
  destruct answer as [response|t].
  - split; [reflexivity | apply Hboth].
  - rewrite (Honly t eq_refl). split; [reflexivity | apply Hboth].
Qed.

(** Every request is counted once and timed once: over any list of
    requests served in turn by a handler that does not write the two
    metrics itself and raises only [Exception]s, the counter, summed over
    its labels, and the number of observed durations both grow by the
    number of requests, whether the handler returns or raises. *)
Theorem every_request_is_counted_once {T} (minus : T -> T -> T)
    (call_next : Middleware.metrics_handler) (requests : list Middleware.Request)
    (r : Middleware.registry) :
  Middleware.leaves_the_metrics_alone call_next ->
  Middleware.raises_only_exceptions call_next ->
  let r' := (Middleware.serve minus call_next requests r).2 in
  Middleware.requests_counted r' = Middleware.requests_counted r + length requests /\
  Middleware.durations_observed r' = Middleware.durations_observed r + length requests.
Proof.
  intros Halone Honly. cbv zeta. revert r.
  induction requests as [|request rest IH]; intros r.
  - simpl. lia.
  - cbn [Middleware.serve length].
    pose proof (metrics_dispatch_counts minus request call_next r Halone Honly)
      as (_ & Hc & Ho). cbv zeta in Hc, Ho.
    destruct (Middleware.metrics_dispatch minus request call_next r) as [answer r1].
    cbn [snd] in Hc, Ho. specialize (IH r1).
    destruct (Middleware.serve minus call_next rest r1) as [answers r2].
    cbn [snd] in *. lia.
Qed.

Lemma every_request_is_counted_once_witness :
  let requests := [Middleware.Site.get "/chat" None; Middleware.Site.get "/boom" None;
                   Middleware.Site.get "/chat" None] in
  let r' := (Middleware.serve Nat.sub Middleware.Site.app requests Middleware.Site.idle).2 in
  Middleware.requests_counted r' = Middleware.requests_counted Middleware.Site.idle + 3 /\
  Middleware.durations_observed r' = Middleware.durations_observed Middleware.Site.idle + 3.
Proof.
  apply (every_request_is_counted_once Nat.sub Middleware.Site.app
           [Middleware.Site.get "/chat" None; Middleware.Site.get "/boom" None;
            Middleware.Site.get "/chat" None] Middleware.Site.idle).
  - intros request r. split; reflexivity.
  - intros request r t. unfold Middleware.Site.app, Middleware.Site.answer. simpl.
    destruct (String.eqb _ _); [intros [= <-]; reflexivity | discriminate].
Defined.

(** An exception of the handler is raised again as it is and counted under
    status 500 for the method and path of the request; no other label of
    the counter changes. *)
Theorem failed_request_is_counted_as_500 {T} (minus : T -> T -> T)
    (request : Middleware.Request) (call_next : Middleware.metrics_handler)
    (r : Middleware.registry) (t : Middleware.thrown) :
  Middleware.leaves_the_metrics_alone call_next ->
  (call_next request r).1 = Raises t ->
  Middleware.is_Exception t = true ->
  (Middleware.metrics_dispatch minus request call_next r).1 = Raises t /\
  forall labels,
    Middleware.http_requests_total
      (Middleware.metrics_dispatch minus request call_next r).2 !! labels =
    if decide (labels = (Middleware.method request, Middleware.url_path request, 500))
    then Some (S (default 0 (Middleware.http_requests_total r !! labels)))
    else Middleware.http_requests_total r !! labels.
Proof.
  intros Halone Hraise Hexc. unfold Middleware.metrics_dispatch.
  destruct (Halone request r) as [Hcount _].
  destruct (call_next request r) as [answer r1]. cbn [fst snd] in *. subst answer.
  rewrite Hexc. cbn [fst snd]. split; [reflexivity|]. intros labels.
  cbn [Middleware.observe Middleware.inc Middleware.http_requests_total]. rewrite Hcount.
  destruct (decide (labels = _)) as [->|Hne].
  - apply lookup_insert_eq.
  - apply lookup_insert_ne. congruence.
Qed.

Lemma failed_request_is_counted_as_500_witness :
  (Middleware.metrics_dispatch Nat.sub (Middleware.Site.get "/boom" None)
     Middleware.Site.app Middleware.Site.idle).1 = Raises (Middleware.Exc (Exception "boom")) /\
  forall labels,
    Middleware.http_requests_total
      (Middleware.metrics_dispatch Nat.sub (Middleware.Site.get "/boom" None)
         Middleware.Site.app Middleware.Site.idle).2 !! labels =
    if decide (labels = ("GET", "/boom", 500))
    then Some (S (default 0 (Middleware.http_requests_total Middleware.Site.idle !! labels)))
    else Middleware.http_requests_total Middleware.Site.idle !! labels.
Proof.
  apply (failed_request_is_counted_as_500 Nat.sub (Middleware.Site.get "/boom" None)
           Middleware.Site.app Middleware.Site.idle (Middleware.Exc (Exception "boom"))).
  - intros request r. split; reflexivity.
  - reflexivity.
  - reflexivity.
Defined.

(** When the handler raises something that is no [Exception] (a
    cancellation), [status_code] was never assigned: the [finally] block
    raises [UnboundLocalError] in place of what the handler raised, and
    the request is neither counted nor timed. *)
Theorem cancelled_request_is_not_counted {T} (minus : T -> T -> T)
    (request : Middleware.Request) (call_next : Middleware.metrics_handler)
    (r : Middleware.registry) (name : string) :
  (call_next request r).1 = Raises (Middleware.BaseExc name) ->
  Middleware.metrics_dispatch minus request call_next r =
    (Raises (Middleware.UnboundLocalError "status_code"), (call_next request r).2).
Proof.
  intros Hraise. unfold Middleware.metrics_dispatch.
  destruct (call_next request r) as [answer r1]. cbn [fst snd] in *. subst answer.
  reflexivity.
Qed.

Lemma cancelled_request_is_not_counted_witness :
  Middleware.metrics_dispatch Nat.sub (Middleware.Site.get "/chat" None)
    Middleware.Site.cancelled Middleware.Site.idle =
    (Raises (Middleware.UnboundLocalError "status_code"), Middleware.Site.idle).
Proof.
  exact (cancelled_request_is_not_counted Nat.sub (Middleware.Site.get "/chat" None)
           Middleware.Site.cancelled Middleware.Site.idle "CancelledError" eq_refl).
Defined.

(** ** The Sentry filter *)

Lemma contains_spec (needle hay : string) :
  Str.contains needle hay = true <-> exists pre post, hay = pre +:+ needle +:+ post.
Proof.
  induction hay as [|c hay IH].
  - cbn [Str.contains]. rewrite orb_false_r, prefix_spec. split.
    + intros [post H]. exists EmptyString, post. exact H.
    + intros (pre & post & H). symmetry in H.
      apply append_eq_nil in H as [-> H]. apply append_eq_nil in H as [-> ->].
      exists EmptyString. reflexivity.
  - cbn [Str.contains]. rewrite orb_true_iff, prefix_spec, IH. split.
    + intros [[post H]|(pre & post & H)].
      * exists EmptyString, post. exact H.
      * exists (String c pre), post. rewrite append_cons. congruence.
    + intros (pre & post & H). destruct pre as [|a pre].
      * left. exists post. exact H.
      * right. rewrite append_cons in H. injection H as _ H. eauto.
Qed.

Lemma rate_limited_spec (values : list (gmap string string)) :
  Sentry.rate_limited values = true <->
  Exists (fun entry =>
            Str.contains "RateLimitExceeded" (default EmptyString (entry !! "type")) = true)
         values.
Proof.
  induction values as [|entry values IH]; simpl.
  - split; [discriminate | intros H; inversion H].
  - rewrite Exists_cons, <- IH.
    destruct (Str.contains _ _); intuition discriminate.
Qed.

(** [before_send] drops an event in two cases only: the exception of the
    hint has a [status_code] below 500, or an exception listed in the
    event has a type with "RateLimitExceeded" in it (anywhere in the
    name; the status does not matter).  An event it keeps is returned as
    it came. *)
Theorem before_send_drops_client_and_rate_limit_errors (event : Sentry.Event)
    (hint : gmap string Sentry.exc_info) :
  (Sentry.before_send event hint = None <->
     (exists exc code,
        hint !! "exc_info" = Some exc /\ Sentry.status_code exc = Some code /\
        (code < 500)%Z) \/
     (exists chain values entry pre post,
        Sentry.exception_key event = Some chain /\ chain !! "values" = Some values /\
        entry ∈ values /\
        entry !! "type" = Some (pre +:+ "RateLimitExceeded" +:+ post))) /\
  (forall sent, Sentry.before_send event hint = Some sent -> sent = event).
Proof.
  assert (Sentry.client_error hint = true <->
          exists exc code,
            hint !! "exc_info" = Some exc /\ Sentry.status_code exc = Some code /\
            (code < 500)%Z) as Hclient.
  { unfold Sentry.client_error. destruct (hint !! "exc_info") as [exc|].
    - destruct (Sentry.status_code exc) as [code|] eqn:Hcode.
      + rewrite Z.ltb_lt. split.
        * intros Hlt. exists exc, code. auto.
        * intros (exc' & code' & [= <-] & Hc & Hlt). congruence.
      + split; [discriminate | intros (exc' & code' & [= <-] & Hc & _); congruence].
    - split; [discriminate | intros (exc' & code' & [=] & _)]. }
  assert (forall chain : gmap string (list (gmap string string)),
            Sentry.rate_limited (default [] (chain !! "values")) = true <->
            exists (values : list (gmap string string)) (entry : gmap string string) pre post,
              chain !! "values" = Some values /\ entry ∈ values /\
              entry !! "type" = Some (pre +:+ "RateLimitExceeded" +:+ post)) as Hrate.
  { intros chain. rewrite rate_limited_spec, Exists_exists. split.
    - intros (entry & Hin & Hcontains).
      apply contains_spec in Hcontains as (pre & post & Htype).
      destruct (chain !! "values") as [values|];
        [|exfalso; exact (not_elem_of_nil _ Hin)].
      destruct (entry !! "type") as [type|] eqn:Hentry;
        [|destruct pre; discriminate].
      simpl in Htype. subst type. exists values, entry, pre, post. auto.
    - intros (values & entry & pre & post & -> & Hin & Htype).
      exists entry. split; [exact Hin|]. rewrite Htype. apply contains_spec. eauto. }
  unfold Sentry.before_send. destruct (Sentry.client_error hint) eqn:Hc.
  - split; [|discriminate]. split; [intros _; left; apply Hclient; reflexivity | reflexivity].
  - assert (~ exists exc code,
              hint !! "exc_info" = Some exc /\ Sentry.status_code exc = Some code /\
              (code < 500)%Z) as Hnot.
    { intros H. apply Hclient in H. discriminate. }
    destruct (Sentry.exception_key event) as [chain|] eqn:Hkey.
    + specialize (Hrate chain).
      destruct (Sentry.rate_limited (default [] (chain !! "values"))) eqn:Hr.
      * split; [|discriminate]. split; [intros _|reflexivity].
        right. destruct Hrate as [Hrate _].
        destruct (Hrate eq_refl) as (values & entry & pre & post & H1 & H2 & H3).
        exists chain, values, entry, pre, post. auto.
      * split; [|congruence]. split; [discriminate|].
        intros [H|(chain' & values & entry & pre & post & [= <-] & H1 & H2 & H3)];
          [contradiction|].
        destruct Hrate as [_ Hrate]. discriminate Hrate. eauto 8.
    + split; [|congruence]. split; [discriminate|].
      intros [H|(chain' & values & entry & pre & post & [=] & _)]. contradiction.
Qed.

Lemma before_send_drops_client_and_rate_limit_errors_witness :
  Sentry.before_send Sentry.throttled ∅ = None.
Proof.
  apply (proj1 (before_send_drops_client_and_rate_limit_errors Sentry.throttled ∅)).
  right.
  exists {[ "values" :=
              [ ({[ "type" := "slowapi.errors.RateLimitExceeded";
                    "value" := "5 per 1 minute" ]} : gmap string string) ] ]},
         [ ({[ "type" := "slowapi.errors.RateLimitExceeded";
               "value" := "5 per 1 minute" ]} : gmap string string) ],
         ({[ "type" := "slowapi.errors.RateLimitExceeded";
             "value" := "5 per 1 minute" ]} : gmap string string),
         "slowapi.errors.", EmptyString.
  split; [reflexivity|]. split; [reflexivity|]. split; [constructor | reflexivity].
Defined.

(** ** The database health check *)

Lemma lifecycle_app (current : option DatabaseService.MongoClient)
    (t1 t2 : list DatabaseService.action) :
  DatabaseService.lifecycle current (t1 ++ t2) =
  match DatabaseService.lifecycle current t1 with
  | Some held => DatabaseService.lifecycle held t2
  | None => None
  end.
Proof.
  revert current. induction t1 as [|a t1 IH]; intros current; [reflexivity|].
  destruct a as [c|c|c|lvl name]; simpl.
  - destruct current; [reflexivity | apply IH].
  - destruct (decide (current = Some c)); [apply IH | reflexivity].
  - destruct (decide (current = Some c)); [apply IH | reflexivity].
  - apply IH.
Qed.

Lemma health_check_lifecycle (MONGODB_URI : string) (srv : DatabaseService.server)
    (s : DatabaseService.service) :
  DatabaseService.lifecycle None (DatabaseService.actions s) = Some (DatabaseService.client s) ->
  let s' := (DatabaseService.health_check MONGODB_URI srv s).2 in
  DatabaseService.lifecycle None (DatabaseService.actions s') = Some (DatabaseService.client s').
Proof.
  intros Hinv. cbv zeta. unfold DatabaseService.health_check.
  destruct (Str.nonempty MONGODB_URI); simpl.
  2:{ rewrite lifecycle_app, Hinv. reflexivity. }
  destruct (DatabaseService.client s) as [c|] eqn:Hclient.
  - destruct (DatabaseService.ping srv c); simpl;
      rewrite ?lifecycle_app, Hinv, ?Hclient; simpl;
      rewrite ?decide_True by reflexivity; simpl; rewrite ?Hclient; reflexivity.
  - destruct (DatabaseService.MongoClient_init srv _); simpl.
    + destruct (DatabaseService.ping srv _); simpl;
        rewrite ?lifecycle_app, Hinv; simpl;
        rewrite ?decide_True by reflexivity; reflexivity.
    + rewrite lifecycle_app, Hinv. simpl. rewrite Hclient. reflexivity.
Qed.

Lemma close_lifecycle (s : DatabaseService.service) :
  DatabaseService.lifecycle None (DatabaseService.actions s) = Some (DatabaseService.client s) ->
  DatabaseService.lifecycle None (DatabaseService.actions (DatabaseService.close s))
  = Some (DatabaseService.client (DatabaseService.close s)).
Proof.
  intros Hinv. unfold DatabaseService.close.
  destruct (DatabaseService.client s) as [c|] eqn:Hclient; simpl.
  - rewrite lifecycle_app, Hinv. simpl. rewrite decide_True by reflexivity. reflexivity.
  - rewrite Hinv, Hclient. reflexivity.
Qed.

(** Over any sequence of health checks and closes, against any server,
    the service keeps to the life of a client: it builds one only when it
    holds none, pings only the one it holds, closes it once, and after
    the sequence it holds the client the actions leave open, so that no
    client is dropped without being closed. *)
Theorem clients_are_built_once_and_closed_once (MONGODB_URI : string)
    (calls : list DatabaseService.call) :
  DatabaseService.lifecycle None
    (DatabaseService.actions (DatabaseService.run MONGODB_URI calls))
  = Some (DatabaseService.client (DatabaseService.run MONGODB_URI calls)).
Proof.
  unfold DatabaseService.run.
  assert (forall s,
            DatabaseService.lifecycle None (DatabaseService.actions s)
            = Some (DatabaseService.client s) ->
            DatabaseService.lifecycle None
              (DatabaseService.actions (foldl (DatabaseService.run_call MONGODB_URI) s calls))
            = Some (DatabaseService.client
                      (foldl (DatabaseService.run_call MONGODB_URI) s calls))) as Hgen.
  { induction calls as [|c calls IH]; intros s Hinv; [exact Hinv|].
    simpl. apply IH. destruct c as [srv|]; simpl.
    - apply (health_check_lifecycle MONGODB_URI srv s Hinv).
    - apply close_lifecycle, Hinv. }
  apply Hgen. reflexivity.
Qed.
